(** * ShortsEditor: media acquisition and segment extraction

    A shallow embedding of [lib/video-download.ts] (class
    [VideoDownloadService]) and [lib/video-cropping.ts] (class
    [VideoCroppingService]), with the properties of the format selection,
    the retry loop, the progress handler, the temporary-file cache and the
    crop encoding policy.

    Conventions.
    - JavaScript numbers that hold byte counts, millisecond clocks, pixel
      heights, bitrates and itags are integers below 2^53 and are modelled
      by [Z]; the arithmetic the code does on them ([-], comparisons) is
      exact there.
    - A string is a sequence of code units below 256.
    - An [async] method is a state-passing function: every [await] is a
      sequencing point, the world after the awaited call is the world the
      next statement sees.
    - A write stream opens its file on its own time.  Where the order
      matters (a stream error that is handled before the file is there),
      the outcome of the transfer says which came first, and the file
      appears after the handlers have run.
    - What the outside world decides (what ytdl's catalog holds, whether a
      transfer or an ffmpeg run succeeds, what the clock shows) is an
      explicit argument. *)

From Stdlib Require Import ZArith List String Ascii Bool Lia Arith.
From Stdlib Require Import DecimalString.
Import ListNotations.

Local Open Scope string_scope.
Local Open Scope list_scope.
Local Open Scope Z_scope.

(** ** The part of ytdl-core the services use *)

Module Ytdl.

(** [videoFormat] of ytdl-core, restricted to the fields that are read.
    [height] and [audioBitrate] are optional numbers. *)
Record videoFormat := mkFormat {
  itag : Z;
  container : string;
  hasVideo : bool;
  hasAudio : bool;
  height : option Z;
  audioBitrate : option Z
}.

(** The three named filters handed to [ytdl.filterFormats]. A catalog
    lists the formats that carry a URL, which is all the library lets
    through any filter. *)
Inductive Filter := videoandaudio | videoonly | audioonly.

Definition filterPred (flt : Filter) (f : videoFormat) : bool :=
  match flt with
  | videoandaudio => hasVideo f && hasAudio f
  | videoonly => hasVideo f && negb (hasAudio f)
  | audioonly => negb (hasVideo f) && hasAudio f
  end.

Definition filterFormats (formats : list videoFormat) (flt : Filter)
  : list videoFormat :=
  filter (filterPred flt) formats.

(** The [quality] values [VideoDownloadOptions] admits. *)
Inductive Quality := highest | lowest | highestvideo | lowestvideo.

End Ytdl.

(** ** JavaScript helpers *)

Module JS.

(** Truthiness of an optional number: [undefined] and [0] are falsy. *)
Definition truthyNum (n : option Z) : bool :=
  match n with
  | Some z => negb (z =? 0)
  | None => false
  end.

(** [typeof h === 'number' ? h : parseInt(h)] on an optional number;
    [None] stands for [NaN]. *)
Definition numOrNaN (n : option Z) : option Z := n.

(** [b - a] on numbers that may be [NaN]. *)
Definition subNaN (b a : option Z) : option Z :=
  match b, a with
  | Some y, Some x => Some (y - x)
  | _, _ => None
  end.

(** [Array.prototype.sort(cmp)]: a stable sort; a comparator result that
    is [NaN] counts as [+0].  [insertBy x l] puts [x], which stood before
    every element of [l], behind exactly those leading elements it
    compares strictly greater than.  For a comparator that orders the
    elements consistently every stable sort gives this result; where it
    returns [NaN] for some pair the order is the engine's own, and nothing
    below is stated for such an array. *)
Section Sort.
Context {A : Type} (cmp : A -> A -> option Z).

Definition cmpPositive (x y : A) : bool :=
  match cmp x y with
  | Some v => 0 <? v
  | None => false
  end.

Fixpoint insertBy (x : A) (l : list A) : list A :=
  match l with
  | [] => [x]
  | y :: l' => if cmpPositive x y then y :: insertBy x l' else x :: l
  end.

Fixpoint sortBy (l : list A) : list A :=
  match l with
  | [] => []
  | x :: l' => insertBy x (sortBy l')
  end.
End Sort.

(** The comparator [(a, b) => key(b) - key(a)]: descending by key. *)
Definition byKeyDesc {A : Type} (key : A -> option Z) (a b : A) : option Z :=
  subNaN (key b) (key a).

(** [e1 || e2] on optional objects, [xs[0]] on arrays. *)
Definition orElse {A} (a b : option A) : option A :=
  match a with
  | Some _ => a
  | None => b
  end.

Definition first {A} (l : list A) : option A := hd_error l.

(** Decimal rendering of a non-negative integer in a template string. *)
Definition numToString (z : Z) : string :=
  NilZero.string_of_uint (N.to_uint (Z.to_N z)).

(** [path.join(dir, n)] for a plain file name [n]: one without a path
    separator, which [path.join] has nothing to normalise in. *)
Definition pathJoin (dir n : string) : string := (dir ++ "/" ++ n)%string.

(** [s.startsWith(p)]. *)
Definition startsWith (s p : string) : bool := String.prefix p s.

End JS.

(** ** Promises, the temporary directory and the event trace *)

Module Async.

(** A settled promise. [Reject] carries [error.message]. *)
Inductive Result (A : Type) :=
| Resolve (a : A)
| Reject (msg : string).
Arguments Resolve {A} a.
Arguments Reject {A} msg.

(** One entry of a cache directory: the name [readdirSync] lists and the
    modification time [stat] reports, in milliseconds. *)
Record File := mkFile { name : string; mtime : Z }.

(** The listing of a directory, in the order [readdirSync] returns it. *)
Definition FS := list File.

Definition existsSync (fs : FS) (n : string) : bool :=
  existsb (fun f => (name f =? n)%string) fs.

Definition unlinkSync (fs : FS) (n : string) : FS :=
  filter (fun f => negb (name f =? n)%string) fs.

(** [fs.createWriteStream] and ffmpeg's [-y] output: the file is created,
    or truncated and rewritten in place. *)
Definition writeFile (fs : FS) (n : string) (now : Z) : FS :=
  if existsSync fs n
  then map (fun f => if (name f =? n)%string then mkFile n now else f) fs
  else fs ++ [mkFile n now].

(** What an observer of the service sees, in order. *)
Inductive Event :=
| EvAttempt (attempt : nat)
| EvRequest (quality : Ytdl.Quality) (flt : Ytdl.Filter)
| EvDownloadStart (file : string) (itag : Z)
| EvDownloadEnd (file : string) (ok : bool)
| EvMergeStart (video audio output : string)
| EvMergeEnd (ok : bool)
| EvOnProgress (downloadedBytes totalBytes : Z)
| EvProgressLog (now downloadedBytes totalBytes : Z)
| EvBackoff (ms : Z)
| EvCropStart (highlightId : string)
| EvCropEnd (highlightId : string) (ok : bool).

(** An [async] body: it reads and updates the directory, appends to the
    trace, and settles. *)
Definition M (A : Type) := FS -> Result A * FS * list Event.

Definition ret {A} (a : A) : M A := fun fs => (Resolve a, fs, []).

Definition throw {A} (msg : string) : M A := fun fs => (Reject msg, fs, []).

Definition bind {A B} (c : M A) (k : A -> M B) : M B :=
  fun fs =>
    match c fs with
    | (Resolve a, fs1, t1) =>
        let '(r, fs2, t2) := k a fs1 in (r, fs2, t1 ++ t2)
    | (Reject msg, fs1, t1) => (Reject msg, fs1, t1)
    end.

Definition emit (e : Event) : M unit := fun fs => (Resolve tt, fs, [e]).

Definition modify (f : FS -> FS) : M unit := fun fs => (Resolve tt, f fs, []).

(** [try { c } finally { fin }] for a finaliser that cannot throw. *)
Definition tryFinally {A} (c : M A) (fin : M unit) : M A :=
  fun fs =>
    let '(r, fs1, t1) := c fs in
    let '(_, fs2, t2) := fin fs1 in
    (r, fs2, t1 ++ t2).

(** [try { c } catch (error) { h error.message }]. *)
Definition tryCatch {A} (c : M A) (h : string -> M A) : M A :=
  fun fs =>
    match c fs with
    | (Resolve a, fs1, t1) => (Resolve a, fs1, t1)
    | (Reject msg, fs1, t1) =>
        let '(r, fs2, t2) := h msg fs1 in (r, fs2, t1 ++ t2)
    end.

(** [cleanupFile], the private method both services define alike: unlink
    the file if it exists; errors are caught, it never throws. *)
Definition cleanupFile (n : string) : M unit :=
  fun fs =>
    if existsSync fs n
    then (Resolve tt, unlinkSync fs n, [])
    else (Resolve tt, fs, []).

(** The three parts of a finished run. *)
Definition settled {A} (x : Result A * FS * list Event) : Result A :=
  fst (fst x).

Definition directory {A} (x : Result A * FS * list Event) : FS :=
  snd (fst x).

Definition trace {A} (x : Result A * FS * list Event) : list Event :=
  snd x.

Declare Scope async_scope.
Delimit Scope async_scope with async.
Notation "x <- c ;; k" := (bind c (fun x => k))
  (at level 61, c at next level, right associativity) : async_scope.
Notation "c ;;; k" := (bind c (fun _ => k))
  (at level 61, right associativity) : async_scope.

End Async.

(** ** [VideoDownloadService] *)

Module Download.
Import Ytdl JS Async.
Local Open Scope async_scope.

(** [path.join(process.cwd(), 'tmp', 'videos')], written relative to the
    working directory. Files of this directory are identified by name. *)
Definition tempDir : string := "tmp/videos".

Definition maxFileAge : Z := 1000 * 60 * 60 * 2.

(** [VideoDownloadOptions]: [quality] defaults to ['highest'], [format] to
    ['mp4']; [onProgress] is present or not. *)
Inductive Format := mp4 | webm.

Definition formatExt (f : Format) : string :=
  match f with
  | mp4 => "mp4"
  | webm => "webm"
  end.

Record VideoDownloadOptions := mkOptions {
  quality : option Quality;
  format : option Format;
  onProgress : bool
}.

Definition qualityOf (o : VideoDownloadOptions) : Quality :=
  match quality o with
  | Some q => q
  | None => highest
  end.

Definition formatOf (o : VideoDownloadOptions) : Format :=
  match format o with
  | Some f => f
  | None => mp4
  end.

(** The names the service gives its files. *)
Definition fileName (videoId : string) (now : Z) (f : Format) : string :=
  (videoId ++ "_" ++ numToString now ++ "." ++ formatExt f)%string.

Definition tempVideoName (videoId : string) (now : Z) : string :=
  (videoId ++ "_video_" ++ numToString now ++ ".mp4")%string.

Definition tempAudioName (videoId : string) (now : Z) : string :=
  (videoId ++ "_audio_" ++ numToString now ++ ".webm")%string.

(** *** Format selection of [downloadAndMergeStreams] *)

Definition heightDesc (a b : videoFormat) : option Z :=
  subNaN (numOrNaN (height b)) (numOrNaN (height a)).

Definition bitrateDesc (a b : videoFormat) : option Z :=
  subNaN (numOrNaN (audioBitrate b)) (numOrNaN (audioBitrate a)).

Definition isMp4WithHeight (f : videoFormat) : bool :=
  (container f =? "mp4")%string && truthyNum (height f).

Definition isWebmOrM4a (f : videoFormat) : bool :=
  (container f =? "webm")%string || (container f =? "m4a")%string.

Definition bestVideoFormat (formats : list videoFormat) : option videoFormat :=
  let videoOnlyFormats := filterFormats formats videoonly in
  orElse
    (first (sortBy heightDesc (filter isMp4WithHeight videoOnlyFormats)))
    (first videoOnlyFormats).

Definition bestAudioFormat (formats : list videoFormat) : option videoFormat :=
  let audioOnlyFormats := filterFormats formats audioonly in
  orElse
    (first (sortBy bitrateDesc (filter isWebmOrM4a audioOnlyFormats)))
    (first audioOnlyFormats).

(** *** Single transfers and the merge *)

(** How a ytdl stream piped into a write stream ends: the write stream
    finishes, the download stream errors, the write stream errors, or the
    timer fires first.  [fs.createWriteStream] opens its file
    asynchronously, and a stream error does not destroy the write stream:
    [StreamFailedEarly] is the stream error that is delivered before the
    file has been opened; the open then completes after the promise has
    settled. *)
Inductive StreamOutcome :=
| StreamFinished
| StreamFailed (msg : string)
| WriteFailed (msg : string)
| TimedOut
| StreamFailedEarly (msg : string).

(** How the spawned ffmpeg ends: it closes with an exit code, it cannot be
    spawned, or the 15 minute timer kills it. [wroteOutput] tells whether
    it left an output file behind. *)
Inductive FfmpegOutcome :=
| Closed (code : Z) (wroteOutput : bool)
| SpawnFailed (msg : string)
| Killed (wroteOutput : bool).

(** Whether the file of the write stream is there when a handler runs. *)
Definition openedBeforeSettling (o : StreamOutcome) : bool :=
  match o with
  | StreamFailedEarly _ => false
  | _ => true
  end.

(** [fs.createWriteStream(path)] as far as it has got when the promise
    settles, and the open that is still in flight then. *)
Definition createWriteStream (n : string) (now : Z) (o : StreamOutcome)
  : M unit :=
  if openedBeforeSettling o
  then modify (fun fs => writeFile fs n now)
  else ret tt.

Definition pendingOpen (n : string) (now : Z) (o : StreamOutcome) : M unit :=
  if openedBeforeSettling o
  then ret tt
  else modify (fun fs => writeFile fs n now).

(** [downloadStream] up to the settling of its promise; the caller sees a
    pending open land afterwards. *)
Definition downloadStream (outputName : string) (itg : Z) (now : Z)
    (o : StreamOutcome) : M unit :=
  emit (EvDownloadStart outputName itg) ;;;
  createWriteStream outputName now o ;;;
  match o with
  | StreamFinished => emit (EvDownloadEnd outputName true)
  | StreamFailed msg | StreamFailedEarly msg =>
      cleanupFile outputName ;;;
      emit (EvDownloadEnd outputName false) ;;; throw msg
  | WriteFailed msg =>
      cleanupFile outputName ;;;
      emit (EvDownloadEnd outputName false) ;;; throw msg
  | TimedOut =>
      cleanupFile outputName ;;;
      emit (EvDownloadEnd outputName false) ;;;
      throw "Stream download timeout"
  end.

Definition leaveOutput (wrote : bool) (outputName : string) (now : Z)
  : M unit :=
  if wrote then modify (fun fs => writeFile fs outputName now) else ret tt.

Definition mergeStreamsWithFFmpeg (videoName audioName outputName : string)
    (now : Z) (o : FfmpegOutcome) : M unit :=
  emit (EvMergeStart videoName audioName outputName) ;;;
  match o with
  | Closed code wrote =>
      leaveOutput wrote outputName now ;;;
      if code =? 0
      then emit (EvMergeEnd true)
      else emit (EvMergeEnd false) ;;;
           throw ("FFmpeg merge failed with code " ++ numToString code)%string
  | SpawnFailed msg =>
      emit (EvMergeEnd false) ;;;
      throw ("FFmpeg spawn failed: " ++ msg)%string
  | Killed wrote =>
      leaveOutput wrote outputName now ;;;
      emit (EvMergeEnd false) ;;; throw "FFmpeg merge timeout"
  end.

(** What the world decides during one separate-stream acquisition: the two
    readings of [Date.now()] that name the temporary files, the time the
    merge writes its output, and how the three steps end. *)
Record SeparateEnv := mkSeparateEnv {
  tVideo : Z;
  tAudio : Z;
  tMerge : Z;
  videoOutcome : StreamOutcome;
  audioOutcome : StreamOutcome;
  mergeOutcome : FfmpegOutcome
}.

(** The opens still in flight when [downloadAndMergeStreams] has run its
    [finally]: that of the transfer which was started and whose stream
    erred before its file was opened. *)
Definition pendingOpens (videoId : string) (formats : list videoFormat)
    (env : SeparateEnv) : M unit :=
  match bestVideoFormat formats, bestAudioFormat formats with
  | Some _, Some _ =>
      pendingOpen (tempVideoName videoId (tVideo env)) (tVideo env)
        (videoOutcome env) ;;;
      match videoOutcome env with
      | StreamFinished =>
          pendingOpen (tempAudioName videoId (tAudio env)) (tAudio env)
            (audioOutcome env)
      | _ => ret tt
      end
  | _, _ => ret tt
  end.

(** [downloadAndMergeStreams]: the [try] with its [finally], and after
    them what the file system still does on its own. *)
Definition downloadAndMergeStreams (videoId : string)
    (formats : list videoFormat) (outputName : string) (env : SeparateEnv)
  : M string :=
  let tempVideoPath := tempVideoName videoId (tVideo env) in
  let tempAudioPath := tempAudioName videoId (tAudio env) in
  tryFinally
    (tryFinally
       (match bestVideoFormat formats with
        | None => throw "No suitable video-only format found"
        | Some bestVideo =>
            match bestAudioFormat formats with
            | None => throw "No suitable audio-only format found"
            | Some bestAudio =>
                downloadStream tempVideoPath (itag bestVideo) (tVideo env)
                  (videoOutcome env) ;;;
                downloadStream tempAudioPath (itag bestAudio) (tAudio env)
                  (audioOutcome env) ;;;
                mergeStreamsWithFFmpeg tempVideoPath tempAudioPath outputName
                  (tMerge env) (mergeOutcome env) ;;;
                ret (pathJoin tempDir outputName)
            end
        end)
       (cleanupFile tempVideoPath ;;; cleanupFile tempAudioPath))
    (pendingOpens videoId formats env).

(** *** The progress handler of the combined-stream download *)

(** One ['progress'] event of the ytdl stream: the reading of [Date.now()]
    in the handler and the two byte counts ytdl passes. *)
Record Chunk := mkChunk {
  arrival : Z;
  downloadedBytes : Z;
  totalBytes : Z
}.

(** [(downloaded / totalBytes) * 100 >= 100] on byte counts: for a positive
    total the quotient reaches 1 exactly when [downloaded >= totalBytes];
    for a zero total it is [Infinity] when bytes arrived and [NaN]
    otherwise. *)
Definition percentageReached100 (downloaded total : Z) : bool :=
  if total =? 0 then 0 <? downloaded else total <=? downloaded.

(** [(now - lastUpdate) / 1000 >= 2] on millisecond readings. *)
Definition twoSecondsSince (lastUpdate now : Z) : bool :=
  2000 <=? now - lastUpdate.

(** One run of the handler: the events it causes and the new value of
    [lastUpdate]. The callback is called whenever it is provided; the log
    line is what the two-second test guards. *)
Definition onChunk (hasOnProgress : bool) (lastUpdate : Z) (c : Chunk)
  : list Event * Z :=
  let callback :=
    if hasOnProgress
    then [EvOnProgress (downloadedBytes c) (totalBytes c)]
    else [] in
  if twoSecondsSince lastUpdate (arrival c)
     || percentageReached100 (downloadedBytes c) (totalBytes c)
  then (callback ++
        [EvProgressLog (arrival c) (downloadedBytes c) (totalBytes c)],
        arrival c)
  else (callback, lastUpdate).

Fixpoint progressEvents (hasOnProgress : bool) (lastUpdate : Z)
    (chunks : list Chunk) : list Event :=
  match chunks with
  | [] => []
  | c :: rest =>
      let '(evs, lastUpdate') := onChunk hasOnProgress lastUpdate c in
      evs ++ progressEvents hasOnProgress lastUpdate' rest
  end.

(** *** One attempt *)

(** The options object handed to [ytdl(videoUrl, streamOptions)];
    [requestHeaders] tells whether the User-Agent header is set. *)
Record StreamOptions := mkStreamOptions {
  optQuality : Quality;
  optFilter : Filter;
  requestHeaders : bool
}.

(** The three ways the body of an attempt can go once the catalog is
    known. *)
Inductive Plan :=
| NoFormats
| Separate
| Single (o : StreamOptions).

Definition isHighest (q : Quality) : bool :=
  match q with
  | highest => true
  | _ => false
  end.

(** [f.height && height >= 720]. *)
Definition isHighRes (f : videoFormat) : bool :=
  truthyNum (height f) &&
  match numOrNaN (height f) with
  | Some h => 720 <=? h
  | None => false
  end.

Definition choosePlan (formats : list videoFormat) (q : Quality)
    (attempt : nat) : Plan :=
  let combined := filterFormats formats videoandaudio in
  if ((List.length combined =? 0) &&
      (List.length (filterFormats formats videoonly) =? 0))%nat
  then NoFormats
  else
    let streamOptions :=
      mkStreamOptions q
        (if (0 <? List.length combined)%nat then videoandaudio else videoonly)
        true in
    if isHighest q &&
       (0 <? List.length (filter isHighRes (filterFormats formats videoonly)))%nat
    then Separate
    else if (1 <? attempt)%nat
         then Single (mkStreamOptions lowest videoandaudio false)
         else Single streamOptions.

(** What the world decides during one combined-stream download. *)
Record SingleEnv := mkSingleEnv {
  tStart : Z;
  chunks : list Chunk;
  outcome : StreamOutcome
}.

Definition emitAll (evs : list Event) : M unit :=
  fun fs => (Resolve tt, fs, evs).

(** The combined-stream download of [downloadVideo]; nothing follows the
    handler of a stream error here, so a pending open lands right after
    it. *)
Definition downloadSingle (outputName : string) (o : StreamOptions)
    (hasOnProgress : bool) (env : SingleEnv) : M string :=
  emit (EvRequest (optQuality o) (optFilter o)) ;;;
  createWriteStream outputName (tStart env) (outcome env) ;;;
  emitAll (progressEvents hasOnProgress (tStart env) (chunks env)) ;;;
  match outcome env with
  | StreamFinished => ret (pathJoin tempDir outputName)
  | StreamFailed msg | StreamFailedEarly msg =>
      cleanupFile outputName ;;;
      pendingOpen outputName (tStart env) (outcome env) ;;;
      throw ("Download failed: " ++ msg)%string
  | WriteFailed msg =>
      cleanupFile outputName ;;; throw ("File write failed: " ++ msg)%string
  | TimedOut =>
      cleanupFile outputName ;;;
      throw "Download timeout - video may be too large or connection is slow"
  end.

(** What the world decides during one attempt: what [ytdl.getInfo] settles
    to (the catalog is fetched anew on every attempt) and how the chosen
    path goes. *)
Record AttemptEnv := mkAttemptEnv {
  getInfo : Result (list videoFormat);
  separateEnv : SeparateEnv;
  singleEnv : SingleEnv
}.

Definition noFormatsMessage : string :=
  "No suitable video formats available. Video may be live stream or have restrictions.".

Definition attemptOnce (videoId outputName : string) (q : Quality)
    (hasOnProgress : bool) (attempt : nat) (env : AttemptEnv) : M string :=
  emit (EvAttempt attempt) ;;;
  match getInfo env with
  | Reject msg => throw msg
  | Resolve formats =>
      match choosePlan formats q attempt with
      | NoFormats => throw noFormatsMessage
      | Separate =>
          downloadAndMergeStreams videoId formats outputName
            (separateEnv env)
      | Single o => downloadSingle outputName o hasOnProgress (singleEnv env)
      end
  end.

(** *** The retry loop *)

Definition backoff (attempt : nat) : Z := 2 ^ Z.of_nat attempt * 1000.

(** [for (attempt = k; attempt <= maxRetries; attempt++)] with [remaining]
    iterations left; [lastError] is the message caught last. *)
Fixpoint retryLoop (videoId outputName : string) (q : Quality)
    (hasOnProgress : bool) (maxRetries : nat) (envs : nat -> AttemptEnv)
    (remaining attempt : nat) (lastError : option string) : M string :=
  match remaining with
  | O =>
      throw (match lastError with
             | Some msg => msg
             | None => "Failed to download video after all retries"
             end)
  | S remaining' =>
      tryCatch
        (attemptOnce videoId outputName q hasOnProgress attempt
           (envs attempt))
        (fun msg =>
           (if (attempt <? maxRetries)%nat
            then emit (EvBackoff (backoff attempt))
            else ret tt) ;;;
           retryLoop videoId outputName q hasOnProgress maxRetries envs
             remaining' (S attempt) (Some msg))
  end.

(** The body of [downloadVideo] that follows [await this.ensureTempDir()]:
    the file name is fixed once, at clock reading [now], and the loop
    runs. *)
Definition downloadVideo (videoId : string) (options : VideoDownloadOptions)
    (maxRetries : nat) (now : Z) (envs : nat -> AttemptEnv) : M string :=
  retryLoop videoId (fileName videoId now (formatOf options))
    (qualityOf options) (onProgress options) maxRetries envs
    maxRetries 1%nat None.

(** [ensureTempDir]: [access] finds the directory, or [mkdir] creates it or
    throws; [dir] is how that ends. *)
Definition ensureTempDir (dir : Result unit) : M unit :=
  fun fs => (dir, fs, []).

(** A call of [downloadVideo] from its first statement on:
    [await this.ensureTempDir()], which stands outside every [try], and
    then the body. *)
Definition downloadVideoCall (dir : Result unit) (videoId : string)
    (options : VideoDownloadOptions) (maxRetries : nat) (now : Z)
    (envs : nat -> AttemptEnv) : M string :=
  ensureTempDir dir ;;;
  downloadVideo videoId options maxRetries now envs.

(** *** The cache lookup *)

(** [hasVideoFile] at clock reading [now]: the first listed file whose
    name starts with [videoId]; it is returned if young enough and removed
    otherwise. Every listed file exists, so [stat] does not throw. *)
Definition hasVideoFile (now : Z) (videoId : string) : M (option string) :=
  fun fs =>
    match find (fun f => startsWith (name f) videoId) fs with
    | Some videoFile =>
        if now - mtime videoFile <? maxFileAge
        then (Resolve (Some (pathJoin tempDir (name videoFile))), fs, [])
        else
          let '(_, fs', t) := cleanupFile (name videoFile) fs in
          (Resolve None, fs', t)
    | None => (Resolve None, fs, [])
    end.

End Download.

(** ** [VideoCroppingService] *)

Module Crop.
Import JS Async.
Local Open Scope async_scope.

Definition outputDir : string := "tmp/highlights".

Inductive QualityTier := lossless | youtube | high | medium | low.

Inductive Resolution := original | r1080p | r720p | r480p | r360p.

Inductive OutputFormat := mp4 | webm.

(** [CropOptions]; the three fields [cropVideo] reads, each optional. *)
Record CropOptions := mkCropOptions {
  outputFormat : option OutputFormat;
  quality : option QualityTier;
  resolution : option Resolution
}.

Definition outputFormatOf (o : CropOptions) : OutputFormat :=
  match outputFormat o with
  | Some f => f
  | None => mp4
  end.

Definition tierOf (o : CropOptions) : QualityTier :=
  match quality o with
  | Some q => q
  | None => high
  end.

Definition resolutionOf (o : CropOptions) : Resolution :=
  match resolution o with
  | Some r => r
  | None => r720p
  end.

Definition formatName (f : OutputFormat) : string :=
  match f with
  | mp4 => "mp4"
  | webm => "webm"
  end.

(** [Highlight], the fields the cropper reads; seconds are whole. *)
Record Highlight := mkHighlight {
  id : string;
  title : string;
  startSeconds : Z;
  endSeconds : Z
}.

Record CropResult := mkCropResult {
  outputPath : string;
  fileSize : Z;
  duration : Z;
  format : string
}.

(** A fluent-ffmpeg command is the sequence of builder calls made on it. *)
Inductive Setting :=
| SeekInput (seconds : Z)
| Duration (seconds : Z)
| Output (path : string)
| VideoCodec (codec : string)
| AudioCodec (codec : string)
| AudioChannels (n : Z)
| AudioFrequency (hz : Z)
| AudioBitrate (rate : string)
| VideoBitrate (rate : string)
| Size (dimensions : string)
| AddOptions (opts : list string).

Record FfmpegCommand := mkCommand {
  input : string;
  settings : list Setting
}.

Definition ffmpeg (inputPath : string) : FfmpegCommand :=
  mkCommand inputPath [].

Definition call (s : Setting) (command : FfmpegCommand) : FfmpegCommand :=
  mkCommand (input command) (settings command ++ [s]).

Definition calls (ss : list Setting) (command : FfmpegCommand)
  : FfmpegCommand :=
  fold_left (fun c s => call s c) ss command.

(** The [switch (quality)] of [cropVideo]. *)
Definition codecSettings (q : QualityTier) (r : Resolution) : list Setting :=
  match q with
  | lossless =>
      [VideoCodec "copy"; AudioCodec "copy";
       AddOptions ["-avoid_negative_ts make_zero"; "-movflags +faststart"]]
  | youtube =>
      [VideoCodec "libx264"; AudioCodec "aac"; AudioChannels 2;
       AudioFrequency 48000; AudioBitrate "320k";
       VideoBitrate
         match r with
         | r1080p => "8000k"
         | r720p => "5000k"
         | _ => "3000k"
         end]
  | high =>
      [VideoCodec "libx264"; AudioCodec "aac"; AudioChannels 2;
       AudioFrequency 48000; VideoBitrate "4000k"; AudioBitrate "192k"]
  | medium =>
      [VideoCodec "libx264"; AudioCodec "aac"; AudioChannels 2;
       AudioFrequency 44100; VideoBitrate "2000k"; AudioBitrate "128k"]
  | low =>
      [VideoCodec "libx264"; AudioCodec "aac"; AudioChannels 2;
       AudioFrequency 44100; VideoBitrate "1000k"; AudioBitrate "96k"]
  end.

Definition resolutionMap (r : Resolution) : option string :=
  match r with
  | original => None
  | r1080p => Some "1920x1080"
  | r720p => Some "1280x720"
  | r480p => Some "854x480"
  | r360p => Some "640x360"
  end.

Definition isLossless (q : QualityTier) : bool :=
  match q with
  | lossless => true
  | _ => false
  end.

Definition isOriginal (r : Resolution) : bool :=
  match r with
  | original => true
  | _ => false
  end.

(** [if (quality !== 'lossless' && resolution !== 'original') ...]. *)
Definition sizeSettings (q : QualityTier) (r : Resolution) : list Setting :=
  if negb (isLossless q) && negb (isOriginal r)
  then match resolutionMap r with
       | Some dims => if negb (isOriginal r) then [Size dims] else []
       | None => []
       end
  else [].

(** The additional options by quality. *)
Definition extraSettings (q : QualityTier) : list Setting :=
  match q with
  | lossless => []
  | youtube =>
      [AddOptions
         ["-preset medium"; "-profile:v high"; "-level 4.0";
          "-pix_fmt yuv420p"; "-movflags +faststart";
          "-avoid_negative_ts make_zero"; "-g 30"; "-keyint_min 30";
          "-sc_threshold 0"; "-b_strategy 1"; "-bf 3"; "-refs 3"]]
  | _ =>
      [AddOptions
         ["-preset medium"; "-profile:v high"; "-pix_fmt yuv420p";
          "-movflags +faststart"; "-avoid_negative_ts make_zero"]]
  end.

(** The command [cropVideo] has built when it calls [run()]. *)
Definition buildCommand (inputPath : string) (startTime durationSec : Z)
    (outPath : string) (q : QualityTier) (r : Resolution) : FfmpegCommand :=
  calls (extraSettings q)
    (calls (sizeSettings q r)
       (calls (codecSettings q r)
          (calls [SeekInput startTime; Duration durationSec; Output outPath]
             (ffmpeg inputPath)))).








(** [sanitizeFilename] on a title whose characters are code units below
    256: drop every character that is not a letter, a digit, white space,
    [-] or [_]; turn every run of white space into one [_]; keep the first
    50 characters.  Of the characters [\s] matches, those below 256 are
    tab to carriage return, the space and the no-break space. *)
Definition isSpace (c : ascii) : bool :=
  let n := nat_of_ascii c in
  ((9 <=? n) && (n <=? 13) || (n =? 32) || (n =? 160))%nat.

Definition isWordChar (c : ascii) : bool :=
  let n := nat_of_ascii c in
  ((65 <=? n) && (n <=? 90) || (97 <=? n) && (n <=? 122)
   || (48 <=? n) && (n <=? 57))%nat.

Definition keptChar (c : ascii) : bool :=
  isWordChar c || isSpace c || (nat_of_ascii c =? 45)%nat
  || (nat_of_ascii c =? 95)%nat.

Fixpoint removeSpecial (s : string) : string :=
  match s with
  | EmptyString => EmptyString
  | String c rest =>
      if keptChar c then String c (removeSpecial rest) else removeSpecial rest
  end.

Fixpoint collapseSpaces (inRun : bool) (s : string) : string :=
  match s with
  | EmptyString => EmptyString
  | String c rest =>
      if isSpace c
      then if inRun then collapseSpaces true rest
           else String "_"%char (collapseSpaces true rest)
      else String c (collapseSpaces false rest)
  end.

Definition sanitizeFilename (filename : string) : string :=
  String.substring 0 50 (collapseSpaces false (removeSpecial filename)).

Definition outputFileName (videoId : string) (h : Highlight) (timestamp : Z)
    (f : OutputFormat) : string :=
  (videoId ++ "_" ++ id h ++ "_" ++ sanitizeFilename (title h) ++ "_"
   ++ numToString timestamp ++ "." ++ formatName f)%string.

(** How the run of a command ends: ['end'] fires and [stat] of the output
    gives a size or throws; ['error'] fires, with or without a partial
    output file; or building and starting the command throws. *)
Inductive CropOutcome :=
| Ended (statSize : option Z)
| Errored (msg : string) (wroteOutput : bool)
| StartThrew.

(** What the world decides during one crop: the reading of [Date.now()]
    and what ffmpeg does with the command. *)
Record CropEnv := mkCropEnv {
  timestamp : Z;
  run : FfmpegCommand -> CropOutcome
}.

Definition cropVideo (inputPath : string) (highlight : Highlight)
    (videoId : string) (options : CropOptions) (env : CropEnv)
  : M CropResult :=
  let startTime := startSeconds highlight in
  let endTime := endSeconds highlight in
  let durationSec := endTime - startTime in
  let outName :=
    outputFileName videoId highlight (timestamp env)
      (outputFormatOf options) in
  let outPath := pathJoin outputDir outName in
  let command :=
    buildCommand inputPath startTime durationSec outPath
      (tierOf options) (resolutionOf options) in
  emit (EvCropStart (id highlight)) ;;;
  match run env command with
  | Ended (Some size) =>
      modify (fun fs => writeFile fs outName (timestamp env)) ;;;
      emit (EvCropEnd (id highlight) true) ;;;
      ret (mkCropResult outPath size durationSec
             (formatName (outputFormatOf options)))
  | Ended None =>
      emit (EvCropEnd (id highlight) false) ;;;
      throw "Failed to get output file stats"
  | Errored msg wrote =>
      (if wrote
       then modify (fun fs => writeFile fs outName (timestamp env))
       else ret tt) ;;;
      cleanupFile outName ;;;
      emit (EvCropEnd (id highlight) false) ;;;
      throw ("Video cropping failed: " ++ msg)%string
  | StartThrew =>
      emit (EvCropEnd (id highlight) false) ;;;
      throw "Failed to start video cropping"
  end.


(** The [for ... of] loop of [cropMultipleHighlights]; [i] counts the
    calls made so far and [results] is the array being filled. *)
Fixpoint cropLoop (inputPath videoId : string) (options : CropOptions)
    (envs : nat -> CropEnv) (i : nat) (highlights : list Highlight)
    (results : list CropResult) : M (list CropResult) :=
  match highlights with
  | [] => ret results
  | highlight :: rest =>
      results' <-
        tryCatch
          (result <- cropVideo inputPath highlight videoId options (envs i) ;;
           ret (results ++ [result]))
          (fun _ => ret results) ;;
      cropLoop inputPath videoId options envs (S i) rest results'
  end.

Definition cropMultipleHighlights (inputPath : string)
    (highlights : list Highlight) (videoId : string) (options : CropOptions)
    (envs : nat -> CropEnv) : M (list CropResult) :=
  cropLoop inputPath videoId options envs 0%nat highlights [].

(** The crops of a batch taken one after the other: the crop of each
    highlight runs in the directory its predecessor left. *)
Fixpoint sequentialCrops (inputPath videoId : string) (options : CropOptions)
    (envs : nat -> CropEnv) (i : nat) (highlights : list Highlight)
    (fs : FS) : list (Result CropResult * FS * list Event) :=
  match highlights with
  | [] => []
  | highlight :: rest =>
      let x := cropVideo inputPath highlight videoId options (envs i) fs in
      x :: sequentialCrops inputPath videoId options envs (S i) rest
             (directory x)
  end.

Definition successes (runs : list (Result CropResult * FS * list Event))
  : list CropResult :=
  flat_map
    (fun x => match settled x with Resolve r => [r] | Reject _ => [] end)
    runs.

Definition succeeded (x : Result CropResult * FS * list Event) : bool :=
  match settled x with
  | Resolve _ => true
  | Reject _ => false
  end.

(** The size a resolution stands for, none for ['original']. *)
Definition scaledTo (r : Resolution) : list string :=
  match r with
  | original => []
  | r1080p => ["1920x1080"]
  | r720p => ["1280x720"]
  | r480p => ["854x480"]
  | r360p => ["640x360"]
  end.

End Crop.

(** ** Concrete catalogs, worlds and stated properties *)

Module Scenario.
Import Ytdl JS Async Download.

(** A source as YouTube serves it: a 360p combined stream, a 1080p mp4
    video-only stream and a 160 kbps webm audio-only stream. *)
Definition combined360 : videoFormat :=
  mkFormat 18 "mp4" true true (Some 360) (Some 96).

Definition video1080mp4 : videoFormat :=
  mkFormat 137 "mp4" true false (Some 1080) None.

Definition video2160webm : videoFormat :=
  mkFormat 313 "webm" true false (Some 2160) None.

Definition video480mp4 : videoFormat :=
  mkFormat 135 "mp4" true false (Some 480) None.

Definition audio160webm : videoFormat :=
  mkFormat 251 "webm" false true None (Some 160).

Definition audio256mp4 : videoFormat :=
  mkFormat 141 "mp4" false true None (Some 256).

Definition catalogHD : list videoFormat :=
  [combined360; video1080mp4; audio160webm].

(** A 4K webm video-only stream next to the 1080p mp4 one. *)
Definition catalog4K : list videoFormat :=
  [video2160webm; video1080mp4; audio160webm].

(** A 256 kbps audio-only stream in an mp4 container next to the webm
    one. *)
Definition catalogAudioMp4 : list videoFormat :=
  [video1080mp4; audio256mp4; audio160webm].

(** Only a low-resolution video-only stream: nothing combined, no audio. *)
Definition catalogVideoOnly : list videoFormat := [video480mp4].

Definition quietSeparate : SeparateEnv :=
  mkSeparateEnv 1700000003000 1700000003001 1700000012000
    StreamFinished StreamFinished (Closed 0 true).

Definition quietSingle : SingleEnv :=
  mkSingleEnv 1700000000000 [] StreamFinished.

(** Attempt 1 loses the video-only transfer; every later attempt goes
    through. The catalog is [catalogHD] every time. *)
Definition firstTransferFails (attempt : nat) : AttemptEnv :=
  match attempt with
  | 1%nat =>
      mkAttemptEnv (Resolve catalogHD)
        (mkSeparateEnv 1700000000001 1700000000002 1700000000900
           (StreamFailed "socket hang up") StreamFinished (Closed 0 true))
        quietSingle
  | _ => mkAttemptEnv (Resolve catalogHD) quietSeparate quietSingle
  end.

(** The video-only stream of attempt 1 errs before its file has been
    opened; every later attempt goes through. *)
Definition firstOpenOvertaken (attempt : nat) : AttemptEnv :=
  match attempt with
  | 1%nat =>
      mkAttemptEnv (Resolve catalogHD)
        (mkSeparateEnv 1700000000001 1700000000002 1700000000900
           (StreamFailedEarly "socket hang up") StreamFinished (Closed 0 true))
        quietSingle
  | _ => mkAttemptEnv (Resolve catalogHD) quietSeparate quietSingle
  end.

Definition videoOnlySource (attempt : nat) : AttemptEnv :=
  mkAttemptEnv (Resolve catalogVideoOnly) quietSeparate quietSingle.

Definition defaultOptions : VideoDownloadOptions :=
  mkOptions None None false.

(** Two progress events one millisecond apart, both short of the total. *)
Definition chunkA : Chunk := mkChunk 1700000000100 65536 1048576.

Definition chunkB : Chunk := mkChunk 1700000000101 131072 1048576.

Definition chunkLast : Chunk := mkChunk 1700000000102 1048576 1048576.

(** How often the callback fires in a trace. *)
Definition isOnProgress (e : Event) : bool :=
  match e with
  | EvOnProgress _ _ => true
  | _ => false
  end.

Definition callbackCount (tr : list Event) : nat :=
  List.length (filter isOnProgress tr).

(** The log lines of a trace, oldest first, and their spacing: each is at
    least two seconds after the one before it (after [last] for the
    first), or was written at 100%. *)
Definition logLines (tr : list Event) : list (Z * Z * Z) :=
  flat_map
    (fun e => match e with EvProgressLog t d n => [(t, d, n)] | _ => [] end)
    tr.

Fixpoint spaced (last : Z) (lines : list (Z * Z * Z)) : Prop :=
  match lines with
  | [] => True
  | (t, d, n) :: rest =>
      (2000 <= t - last \/ percentageReached100 d n = true) /\ spaced t rest
  end.

(** The throttle read as a statement about the callback: of two events
    less than two seconds apart, the later of which is short of 100%, at
    most one reaches the callback. *)
Definition callbackThrottled : Prop :=
  forall (t0 : Z) (c1 c2 : Chunk),
    arrival c2 - arrival c1 < 2000 ->
    percentageReached100 (downloadedBytes c2) (totalBytes c2) = false ->
    (callbackCount (progressEvents true t0 [c1; c2]) <= 1)%nat.

(** The selection read as a maximum over all video-only formats and over
    all audio-only formats. *)
Definition leOpt (a b : option Z) : Prop :=
  match a, b with
  | Some x, Some y => x <= y
  | Some _, None => False
  | None, _ => True
  end.

Definition picksGreatestHeight (formats : list videoFormat) : Prop :=
  exists v, bestVideoFormat formats = Some v /\
    forall w, In w (filterFormats formats videoonly) ->
      leOpt (height w) (height v).

Definition picksGreatestBitrate (formats : list videoFormat) : Prop :=
  exists a, bestAudioFormat formats = Some a /\
    forall w, In w (filterFormats formats audioonly) ->
      leOpt (audioBitrate w) (audioBitrate a).

(** The rejection read as: no combined format and no video-only plus
    audio-only pair. *)
Definition rejectsWithoutPair : Prop :=
  forall (formats : list videoFormat) (q : Quality) (attempt : nat),
    choosePlan formats q attempt = NoFormats <->
    filterFormats formats videoandaudio = [] /\
    (filterFormats formats videoonly = [] \/
     filterFormats formats audioonly = []).

(** The retry read as: from the second attempt on, the simplified
    combined-stream request and nothing else. *)
Definition simplified : StreamOptions :=
  mkStreamOptions lowest videoandaudio false.

Definition retriesSimplified : Prop :=
  forall (formats : list videoFormat) (q : Quality) (attempt : nat),
    (exists f, In f (filterFormats formats videoonly) /\ isHighRes f = true) ->
    (1 < attempt)%nat ->
    choosePlan formats q attempt = Single simplified.

(** A batch of three highlights whose second crop ffmpeg fails on. *)
Definition opening : Crop.Highlight :=
  Crop.mkHighlight "h1" "Cold open!" 30 45.

Definition middle : Crop.Highlight :=
  Crop.mkHighlight "h2" "The  drop" 100 130.

Definition finale : Crop.Highlight :=
  Crop.mkHighlight "h3" "Finale" 200 220.

Definition secondCropFails (i : nat) : Crop.CropEnv :=
  match i with
  | 1%nat =>
      Crop.mkCropEnv 1700000100000
        (fun _ => Crop.Errored "ffmpeg exited with code 1" true)
  | _ =>
      Crop.mkCropEnv (1700000000000 + 100000 * Z.of_nat i)
        (fun _ => Crop.Ended (Some 1048576))
  end.

Definition losslessOriginal : Crop.CropOptions :=
  Crop.mkCropOptions (Some Crop.mp4) (Some Crop.lossless)
    (Some Crop.original).

End Scenario.

(** ** The sweeps, the crop lookup and what a trace or a directory shows *)

Module Cache.
Import JS Async.
Local Open Scope async_scope.

(** [stat] of a name in the directory as it is now; [None] is the
    exception [stat] throws for a missing file. *)
Definition statSync (fs : FS) (n : string) : option File :=
  find (fun f => (name f =? n)%string) fs.

(** The [for ... of] loop of [cleanupOldFiles] over the names
    [readdirSync] returned; [nowAt i] is the reading of [Date.now()] in
    iteration [i]. *)
Fixpoint sweepLoop (maxFileAge : Z) (nowAt : nat -> Z) (i : nat)
    (files : list string) : M unit :=
  match files with
  | [] => ret tt
  | file :: rest =>
      fun fs =>
        match statSync fs file with
        | None => throw "ENOENT: no such file or directory" fs
        | Some stats =>
            ((if maxFileAge <? nowAt i - mtime stats
              then cleanupFile file
              else ret tt) ;;;
             sweepLoop maxFileAge nowAt (S i) rest) fs
        end
  end.

(** [cleanupOldFiles], the method both services define alike over their
    own directory and [maxFileAge]; an exception ends the loop and is
    logged. *)
Definition cleanupOldFiles (maxFileAge : Z) (nowAt : nat -> Z) : M unit :=
  tryCatch
    (fun fs => sweepLoop maxFileAge nowAt 0 (map name fs) fs)
    (fun _ => ret tt).

(** [maxFileAge] of [VideoCroppingService]. *)
Definition cropMaxFileAge : Z := 1000 * 60 * 60 * 4.

(** [s.includes(sub)]. *)
Fixpoint includes (s sub : string) : bool :=
  String.prefix sub s ||
  match s with
  | EmptyString => false
  | String _ s' => includes s' sub
  end.

Definition croppedKey (videoId highlightId : string) : string :=
  (videoId ++ "_" ++ highlightId ++ "_")%string.

(** [hasCroppedFile] at clock reading [now]. *)
Definition hasCroppedFile (now : Z) (videoId highlightId : string)
  : M (option string) :=
  fun fs =>
    match
      find (fun f => includes (name f) (croppedKey videoId highlightId)) fs
    with
    | Some croppedFile =>
        if now - mtime croppedFile <? cropMaxFileAge
        then (Resolve (Some (pathJoin Crop.outputDir (name croppedFile))),
              fs, [])
        else
          let '(_, fs', t) := cleanupFile (name croppedFile) fs in
          (Resolve None, fs', t)
    | None => (Resolve None, fs, [])
    end.

(** The files a sweep keeps, read off the listing: file number [i] stays
    unless it is older than [maxFileAge] at the reading of iteration
    [i]. *)
Fixpoint kept (maxFileAge : Z) (nowAt : nat -> Z) (i : nat) (fs : FS) : FS :=
  match fs with
  | [] => []
  | f :: rest =>
      if maxFileAge <? nowAt i - mtime f
      then kept maxFileAge nowAt (S i) rest
      else f :: kept maxFileAge nowAt (S i) rest
  end.

(** What a trace shows of the retry loop. *)
Definition attemptsOf (tr : list Event) : list nat :=
  flat_map (fun e => match e with EvAttempt a => [a] | _ => [] end) tr.

Definition backoffsOf (tr : list Event) : list Z :=
  flat_map (fun e => match e with EvBackoff ms => [ms] | _ => [] end) tr.

Definition isTransfer (e : Event) : bool :=
  match e with
  | EvRequest _ _ => true
  | EvDownloadStart _ _ => true
  | _ => false
  end.

(** The trace of [maxRetries] attempts that fail before anything is
    requested: the attempts in order, a delay after each but the last. *)
Fixpoint failures (maxRetries remaining attempt : nat) : list Event :=
  match remaining with
  | O => []
  | S remaining' =>
      EvAttempt attempt ::
      (if (attempt <? maxRetries)%nat
       then [EvBackoff (Download.backoff attempt)]
       else []) ++
      failures maxRetries remaining' (S attempt)
  end.

(** The attempts and the waits of a trace, in the order they happen. *)
Definition isLoopEvent (e : Event) : bool :=
  match e with
  | EvAttempt _ => true
  | EvBackoff _ => true
  | _ => false
  end.

Definition loopEvents (tr : list Event) : list Event := filter isLoopEvent tr.

(** [k] attempts numbered from [attempt] on, with the wait of
    [2 ^ attempt] seconds between each and the next and none before the
    first or after the last. *)
Fixpoint attemptsWithWaits (k attempt : nat) : list Event :=
  match k with
  | O => []
  | S k' =>
      EvAttempt attempt ::
      match k' with
      | O => []
      | S _ =>
          EvBackoff (2 ^ Z.of_nat attempt * 1000) ::
          attemptsWithWaits k' (S attempt)
      end
  end.

(** The temporary files of one separate-stream acquisition whose open was
    overtaken by the stream error. *)
Definition overtakenOpens (videoId : string) (env : Download.SeparateEnv)
  : list string :=
  match Download.videoOutcome env with
  | Download.StreamFailedEarly _ =>
      [Download.tempVideoName videoId (Download.tVideo env)]
  | Download.StreamFinished =>
      match Download.audioOutcome env with
      | Download.StreamFailedEarly _ =>
          [Download.tempAudioName videoId (Download.tAudio env)]
      | _ => []
      end
  | _ => []
  end.

(** A body that creates no file outside [names]. *)
Definition addsOnly {A : Type} (names : list string) (c : M A) : Prop :=
  forall (fs : FS) (n : string),
    existsSync (directory (c fs)) n = true ->
    In n names \/ existsSync fs n = true.

(** A body that starts no attempt and waits for no retry. *)
Definition silent {A : Type} (c : M A) : Prop :=
  forall fs : FS,
    attemptsOf (trace (c fs)) = [] /\ backoffsOf (trace (c fs)) = [].

(** Every character of a string passes a test. *)
Fixpoint allChars (p : ascii -> bool) (s : string) : bool :=
  match s with
  | EmptyString => true
  | String c rest => p c && allChars p rest
  end.

(** Letters, digits, [-] and [_]. *)
Definition isSafeChar (c : ascii) : bool :=
  Crop.isWordChar c || (nat_of_ascii c =? 45)%nat
  || (nat_of_ascii c =? 95)%nat.

(** A string without a path separator, [/] or [\]: as part of a file name
    it adds no path segment. *)
Definition isSeparator (c : ascii) : bool :=
  ((nat_of_ascii c =? 47) || (nat_of_ascii c =? 92))%nat.

Definition isPlain (s : string) : bool :=
  allChars (fun c => negb (isSeparator c)) s.

End Cache.

(** ** [extractVideoId] and its regular expressions *)

Module Config.
Import JS.

(** The regular expressions of [extractVideoId] use literals, one
    character class, optional non-capturing groups, an exact repetition
    and one capturing group. *)
Inductive Re :=
| Lit (s : string)
| Class (p : ascii -> bool)
| Opt (r : Re)
| Cat (r1 r2 : Re)
| Times (n : nat) (r : Re)
| Group (r : Re).

Fixpoint matchLit (l s : string) : option string :=
  match l with
  | EmptyString => Some s
  | String c l' =>
      match s with
      | String d s' => if Ascii.eqb c d then matchLit l' s' else None
      | EmptyString => None
      end
  end.

(** The backtracking matcher: [run r s cap k] matches [r] at the start of
    [s] and hands the rest of the input and the capture to [k]; an
    optional group is tried first and skipped if what follows fails. *)
Fixpoint run (r : Re) (s : string) (cap : option string)
    (k : string -> option string -> option string) {struct r}
  : option string :=
  match r with
  | Lit l =>
      match matchLit l s with
      | Some s' => k s' cap
      | None => None
      end
  | Class p =>
      match s with
      | String c s' => if p c then k s' cap else None
      | EmptyString => None
      end
  | Opt r' =>
      match run r' s cap k with
      | Some x => Some x
      | None => k s cap
      end
  | Cat r1 r2 => run r1 s cap (fun s' cap' => run r2 s' cap' k)
  | Times n r' =>
      (fix rep (n : nat) (s : string) (cap : option string)
         : option string :=
         match n with
         | O => k s cap
         | S n' => run r' s cap (fun s' cap' => rep n' s' cap')
         end) n s cap
  | Group r' =>
      run r' s cap
        (fun s' _ =>
           k s' (Some (String.substring 0
                         (String.length s - String.length s') s)))
  end.

(** [url.match(pattern)[1]]: the capture of the match that starts
    leftmost; [None] when there is no match. Every pattern here has its
    group on every path, so a match always carries a capture. *)
Fixpoint search (r : Re) (s : string) : option string :=
  match run r s None (fun _ cap => cap) with
  | Some c => Some c
  | None =>
      match s with
      | EmptyString => None
      | String _ s' => search r s'
      end
  end.

(** [[a-zA-Z0-9_-]]. *)
Definition idChar (c : ascii) : bool :=
  let n := nat_of_ascii c in
  ((97 <=? n) && (n <=? 122) || (65 <=? n) && (n <=? 90)
   || (48 <=? n) && (n <=? 57) || (n =? 95) || (n =? 45))%nat.

Definition idGroup : Re := Group (Times 11 (Class idChar)).

Definition scheme : Re :=
  Opt (Cat (Lit "http") (Cat (Opt (Lit "s")) (Lit "://"))).

Definition www : Re := Opt (Lit "www.").

Definition patterns : list Re :=
  [Cat scheme (Cat www (Cat (Lit "youtube.com/watch?v=") idGroup));
   Cat scheme (Cat (Lit "youtu.be/") idGroup);
   Cat scheme (Cat www (Cat (Lit "youtube.com/embed/") idGroup));
   Cat scheme (Cat (Lit "m.youtube.com/watch?v=") idGroup)].

Fixpoint firstMatch (ps : list Re) (url : string) : option string :=
  match ps with
  | [] => None
  | pattern :: rest =>
      match search pattern url with
      | Some id => Some id
      | None => firstMatch rest url
      end
  end.

Definition extractVideoId (url : string) : option string :=
  firstMatch patterns url.

End Config.

(** ** The download route's reading of a failed acquisition *)

Module Route.
Import Cache.

(** The message the download route shows for the [error.message] of a
    failed [downloadVideo]. *)
Definition downloadErrorMessage (message : string) : string :=
  if includes message "functions"
  then "YouTube format extraction failed. The video may be new or have changed format."
  else if includes message "private" || includes message "unavailable"
  then "This video is private, unlisted, or has been removed."
  else if includes message "restricted"
  then "This video is age-restricted or region-blocked."
  else if includes message "live"
  then "Live streams and premieres cannot be downloaded."
  else if includes message "timeout"
  then "Download timed out. The video may be too large or your connection is slow."
  else if includes message "No suitable"
  then "No downloadable video formats found. This may be a live stream or restricted video."
  else "Unable to download the YouTube video.".

(** The checks the download route makes before it touches a file. The
    body carries an optional URL and an optional highlight; an empty
    string and the number 0 are falsy. *)
Inductive Validation :=
| BadRequest (error : string)
| Accepted (videoId : string).

Definition truthyString (s : string) : bool := negb (s =? "")%string.

Definition validateDownloadRequest (youtubeUrl : option string)
    (highlight : option Crop.Highlight) : Validation :=
  match youtubeUrl, highlight with
  | Some url, Some h =>
      if truthyString url
      then
        match Config.extractVideoId url with
        | None => BadRequest "Invalid YouTube URL format"
        | Some videoId =>
            if negb (truthyString (Crop.id h))
               || negb (JS.truthyNum (Some (Crop.startSeconds h)))
               || negb (JS.truthyNum (Some (Crop.endSeconds h)))
            then BadRequest "Invalid highlight data"
            else Accepted videoId
        end
      else BadRequest "YouTube URL and highlight data are required"
  | _, _ => BadRequest "YouTube URL and highlight data are required"
  end.

End Route.

(** * Properties *)

Import Ytdl JS Async.

(** ** The sort and the selection *)

Section SortFacts.
Context {A : Type} (key : A -> option Z).

Lemma insertBy_In (cmp : A -> A -> option Z) (x y : A) (l : list A) :
  In y (insertBy cmp x l) <-> y = x \/ In y l.
Proof.
  induction l as [|z l IH]; simpl.
  - intuition congruence.
  - destruct (cmpPositive cmp x z); simpl; rewrite ?IH; intuition congruence.
Qed.

Lemma sortBy_In (cmp : A -> A -> option Z) (y : A) (l : list A) :
  In y (sortBy cmp l) <-> In y l.
Proof.
  induction l as [|x l IH]; simpl.
  - tauto.
  - rewrite insertBy_In, IH. intuition congruence.
Qed.

(** When every element has a key, the sorted array starts with an element
    of greatest key. *)
Lemma sortBy_first_greatest (l : list A) :
  (forall x, In x l -> key x <> None) ->
  l <> [] ->
  exists v kv, first (sortBy (byKeyDesc key) l) = Some v /\ In v l /\
    key v = Some kv /\
    forall w, In w l -> exists kw, key w = Some kw /\ kw <= kv.
Proof.
  induction l as [|x l IH]; intros Hkey Hne; [congruence|].
  destruct (key x) as [kx|] eqn:Hkx.
  2:{ exfalso. apply (Hkey x); simpl; auto. }
  destruct l as [|y l'].
  - exists x, kx. simpl. repeat split; auto.
    intros w [<-|[]]. exists kx. split; [assumption|lia].
  - destruct IH as (v & kv & Hfirst & Hin & Hkv & Hmax).
    + intros z Hz. apply Hkey. right. exact Hz.
    + discriminate.
    + change (sortBy (byKeyDesc key) (x :: y :: l'))
        with (insertBy (byKeyDesc key) x (sortBy (byKeyDesc key) (y :: l'))).
      destruct (sortBy (byKeyDesc key) (y :: l')) as [|h t] eqn:Hsorted;
        [discriminate|].
      simpl in Hfirst. injection Hfirst as ->.
      simpl. unfold cmpPositive, byKeyDesc. rewrite Hkv, Hkx. simpl.
      destruct (0 <? kv - kx) eqn:Hcmp.
      * exists v, kv. simpl. repeat split; auto.
        intros w [<-|Hw].
        -- exists kx. split; [assumption|]. apply Z.ltb_lt in Hcmp. lia.
        -- apply Hmax. exact Hw.
      * exists x, kx. simpl. repeat split; auto.
        apply Z.ltb_ge in Hcmp.
        intros w [<-|Hw].
        -- exists kx. split; [assumption|lia].
        -- destruct (Hmax w Hw) as (kw & Hkw & Hle).
           exists kw. split; [assumption|lia].
Qed.

(** [candidates.sort(...)[0] || l[0]] where the candidates are the
    elements of [l] that pass [keep]. *)
Lemma best_or_first (keep : A -> bool) (l : list A) :
  l <> [] ->
  (forall x, In x l -> keep x = true -> key x <> None) ->
  exists v,
    orElse (first (sortBy (byKeyDesc key) (filter keep l))) (first l) = Some v /\
    In v l /\
    (forall w, In w l -> keep w = true ->
       keep v = true /\
       exists kw kv, key w = Some kw /\ key v = Some kv /\ kw <= kv) /\
    ((forall w, In w l -> keep w = false) -> first l = Some v).
Proof.
  intros Hne Hkey.
  destruct (filter keep l) as [|c cs] eqn:Hcands.
  - destruct l as [|x l']; [congruence|].
    exists x. simpl.
    split; [reflexivity|]. split; [left; reflexivity|].
    split; [|reflexivity].
    intros w Hw Hkeep.
    assert (Hin : In w (filter keep (x :: l'))) by (apply filter_In; auto).
    rewrite Hcands in Hin. destruct Hin.
  - destruct (sortBy_first_greatest (c :: cs)) as (v & kv & Hfirst & Hin & Hkv & Hmax).
    + intros x Hx. rewrite <- Hcands in Hx. apply filter_In in Hx.
      apply Hkey; tauto.
    + discriminate.
    + rewrite <- Hcands in Hin. apply filter_In in Hin.
      destruct Hin as [Hin Hkeep].
      exists v. rewrite Hfirst. simpl.
      split; [reflexivity|]. split; [assumption|]. split.
      * intros w Hw Hkw. split; [assumption|].
        destruct (Hmax w) as (kw & Hkey_w & Hle).
        { rewrite <- Hcands. apply filter_In. auto. }
        exists kw, kv. auto.
      * intros Hnone. rewrite (Hnone v Hin) in Hkeep. discriminate.
Qed.

End SortFacts.

Import Download Scenario.

(** ** How runs compose *)

Lemma bind_parts {A B : Type} (c : M A) (k : A -> M B) (fs : FS) :
  match settled (c fs) with
  | Resolve a =>
      settled (bind c k fs) = settled (k a (directory (c fs))) /\
      directory (bind c k fs) = directory (k a (directory (c fs))) /\
      trace (bind c k fs) = trace (c fs) ++ trace (k a (directory (c fs)))
  | Reject msg =>
      settled (bind c k fs) = Reject msg /\
      directory (bind c k fs) = directory (c fs) /\
      trace (bind c k fs) = trace (c fs)
  end.
Proof.
  unfold bind, settled, directory, trace.
  destruct (c fs) as [[[a|msg] fs1] t1]; simpl.
  - destruct (k a fs1) as [[r fs2] t2]; simpl. auto.
  - auto.
Qed.

Lemma tryCatch_parts {A : Type} (c : M A) (h : string -> M A) (fs : FS) :
  match settled (c fs) with
  | Resolve a =>
      settled (tryCatch c h fs) = Resolve a /\
      directory (tryCatch c h fs) = directory (c fs) /\
      trace (tryCatch c h fs) = trace (c fs)
  | Reject msg =>
      settled (tryCatch c h fs) = settled (h msg (directory (c fs))) /\
      directory (tryCatch c h fs) = directory (h msg (directory (c fs))) /\
      trace (tryCatch c h fs) = trace (c fs) ++ trace (h msg (directory (c fs)))
  end.
Proof.
  unfold tryCatch, settled, directory, trace.
  destruct (c fs) as [[[a|msg] fs1] t1]; simpl.
  - auto.
  - destruct (h msg fs1) as [[r fs2] t2]; simpl. auto.
Qed.

Lemma tryFinally_parts {A : Type} (c : M A) (fin : M unit) (fs : FS) :
  settled (tryFinally c fin fs) = settled (c fs) /\
  directory (tryFinally c fin fs) = directory (fin (directory (c fs))) /\
  trace (tryFinally c fin fs) = trace (c fs) ++ trace (fin (directory (c fs))).
Proof.
  unfold tryFinally, settled, directory, trace.
  destruct (c fs) as [[r fs1] t1]; simpl.
  destruct (fin fs1) as [[r2 fs2] t2]; simpl. auto.
Qed.

Lemma emit_bind_parts {B : Type} (e : Event) (k : unit -> M B) (fs : FS) :
  settled (bind (emit e) k fs) = settled (k tt fs) /\
  directory (bind (emit e) k fs) = directory (k tt fs) /\
  trace (bind (emit e) k fs) = [e] ++ trace (k tt fs).
Proof.
  unfold bind, emit, settled, directory, trace. simpl.
  destruct (k tt fs) as [[r fs2] t2]. auto.
Qed.

Lemma ret_bind_parts {A B : Type} (a : A) (k : A -> M B) (fs : FS) :
  bind (ret a) k fs = k a fs.
Proof.
  unfold bind, ret. simpl. destruct (k a fs) as [[r fs2] t2]. reflexivity.
Qed.

Lemma cleanupFile_parts (n : string) (fs : FS) :
  settled (cleanupFile n fs) = Resolve tt /\
  trace (cleanupFile n fs) = [].
Proof.
  unfold cleanupFile, settled, trace.
  destruct (existsSync fs n); auto.
Qed.

(** Once the directory is there, a call of [downloadVideo] is its body. *)
Lemma downloadVideoCall_created
    (u : unit) (videoId : string) (options : VideoDownloadOptions)
    (maxRetries : nat) (now : Z) (envs : nat -> AttemptEnv) (fs : FS) :
  downloadVideoCall (Resolve u) videoId options maxRetries now envs fs =
  downloadVideo videoId options maxRetries now envs fs.
Proof.
  unfold downloadVideoCall, bind, ensureTempDir.
  destruct (downloadVideo videoId options maxRetries now envs fs)
    as [[r d] t].
  reflexivity.
Qed.

Lemma highRes_videoonly_nonempty (formats : list videoFormat) :
  (exists f, In f (filterFormats formats videoonly) /\ isHighRes f = true) ->
  filterFormats formats videoonly <> [].
Proof.
  intros (f & Hin & _) Hnil. rewrite Hnil in Hin. destruct Hin.
Qed.

Lemma truthyNum_defined (n : option Z) : truthyNum n = true -> n <> None.
Proof. destruct n; simpl; congruence. Qed.

(** C2, as stated, fails: with a 2160p webm video-only stream in the
    catalog, the separate-stream selection still takes the 1080p mp4 one,
    so it does not pick the greatest height over all video-only
    formats. *)
Lemma selection_not_greatest_height :
  (exists f, In f (filterFormats catalog4K videoonly) /\ isHighRes f = true)
  /\ ~ picksGreatestHeight catalog4K.
Proof.
  split.
  - exists video2160webm. split; [left; reflexivity|reflexivity].
  - intros (v & Hbest & Hmax).
    vm_compute in Hbest. injection Hbest as <-.
    specialize (Hmax video2160webm (or_introl eq_refl)).
    simpl in Hmax. lia.
Qed.

(** The same on the audio side: a 256 kbps audio-only stream in an mp4
    container loses to the 160 kbps webm one. *)
Lemma selection_not_greatest_bitrate : ~ picksGreatestBitrate catalogAudioMp4.
Proof.
  intros (a & Hbest & Hmax).
  vm_compute in Hbest. injection Hbest as <-.
  specialize (Hmax audio256mp4 (or_introl eq_refl)).
  simpl in Hmax. lia.
Qed.

(** C2, amended: when some video-only format has height >= 720 and an
    audio-only format exists, the separate-stream path picks a video-only
    format [v] and an audio-only format [a] such that
    - if any video-only format is mp4 with a height, [v] is one of those
      and has the greatest height among them; otherwise [v] is the first
      video-only format of the catalog;
    - if any audio-only format is webm or m4a, [a] is one of those and,
      their bitrates being declared, has the greatest bitrate among them;
      otherwise [a] is the first audio-only format of the catalog.
    The container comes first: it is a filter, not a tie-break. *)
Theorem separate_selection_best_within_container
    (formats : list videoFormat) :
  (exists f, In f (filterFormats formats videoonly) /\ isHighRes f = true) ->
  filterFormats formats audioonly <> [] ->
  (forall a, In a (filterFormats formats audioonly) ->
     isWebmOrM4a a = true -> audioBitrate a <> None) ->
  exists v a,
    bestVideoFormat formats = Some v /\
    bestAudioFormat formats = Some a /\
    In v (filterFormats formats videoonly) /\
    In a (filterFormats formats audioonly) /\
    (forall w, In w (filterFormats formats videoonly) ->
       isMp4WithHeight w = true ->
       isMp4WithHeight v = true /\
       exists hw hv, height w = Some hw /\ height v = Some hv /\ hw <= hv) /\
    ((forall w, In w (filterFormats formats videoonly) ->
        isMp4WithHeight w = false) ->
     first (filterFormats formats videoonly) = Some v) /\
    (forall w, In w (filterFormats formats audioonly) ->
       isWebmOrM4a w = true ->
       isWebmOrM4a a = true /\
       exists bw ba,
         audioBitrate w = Some bw /\ audioBitrate a = Some ba /\ bw <= ba) /\
    ((forall w, In w (filterFormats formats audioonly) ->
        isWebmOrM4a w = false) ->
     first (filterFormats formats audioonly) = Some a).
Proof.
  intros Hhigh Haudio Hrates.
  destruct (best_or_first height isMp4WithHeight
              (filterFormats formats videoonly))
    as (v & Hv & Hvin & Hvmax & Hvfirst).
  { apply highRes_videoonly_nonempty. exact Hhigh. }
  { intros x _ Hx. unfold isMp4WithHeight in Hx.
    apply andb_true_iff in Hx. apply truthyNum_defined. tauto. }
  destruct (best_or_first audioBitrate isWebmOrM4a
              (filterFormats formats audioonly))
    as (a & Ha & Hain & Hamax & Hafirst); [assumption|assumption|].
  exists v, a.
  exact (conj Hv (conj Ha (conj Hvin (conj Hain
           (conj Hvmax (conj Hvfirst (conj Hamax Hafirst))))))).
Qed.

Lemma separate_selection_best_within_container_witness :
  exists v a,
    bestVideoFormat catalog4K = Some v /\
    bestAudioFormat catalog4K = Some a /\
    itag v = 137 /\ itag a = 251.
Proof.
  destruct (separate_selection_best_within_container catalog4K)
    as (v & a & Hv & Ha & _).
  - exists video2160webm. split; [left; reflexivity|reflexivity].
  - discriminate.
  - intros x Hx _. simpl in Hx. destruct Hx as [<-|[]]. discriminate.
  - exists v, a. vm_compute in Hv, Ha.
    injection Hv as <-. injection Ha as <-.
    repeat split; reflexivity.
Defined.

(** ** The plan of an attempt *)

Lemma length_zero_iff_nil {A : Type} (l : list A) :
  (List.length l =? 0)%nat = true <-> l = [].
Proof.
  destruct l; simpl; split; intro H; congruence.
Qed.

Lemma highRes_filter_positive (formats : list videoFormat) :
  (exists f, In f (filterFormats formats videoonly) /\ isHighRes f = true) ->
  (0 <? List.length (filter isHighRes (filterFormats formats videoonly)))%nat
  = true.
Proof.
  intros (f & Hin & Hhigh).
  assert (Hf : In f (filter isHighRes (filterFormats formats videoonly)))
    by (apply filter_In; auto).
  destruct (filter isHighRes (filterFormats formats videoonly));
    [destruct Hf|reflexivity].
Qed.

(** [f.height && height >= 720] holds of the formats that declare a height
    of 720 or more. *)
Lemma isHighRes_height (f : videoFormat) :
  isHighRes f = true <-> exists h, height f = Some h /\ 720 <= h.
Proof.
  unfold isHighRes, truthyNum, numOrNaN.
  destruct (height f) as [h|]; simpl.
  - split.
    + intros H. apply andb_true_iff in H. destruct H as [_ H].
      exists h. split; [reflexivity|]. apply Z.leb_le. exact H.
    + intros (h' & Heq & Hle). injection Heq as <-.
      apply andb_true_iff. split.
      * apply negb_true_iff. apply Z.eqb_neq. lia.
      * apply Z.leb_le. exact Hle.
  - split; [discriminate|]. intros (h & Habs & _). discriminate Habs.
Qed.

Lemma isHighRes_none (l : list videoFormat) :
  (forall f, In f l -> isHighRes f = false) ->
  (0 <? List.length (filter isHighRes l))%nat = false.
Proof.
  intros Hnone.
  assert (Hnil : filter isHighRes l = []).
  { induction l as [|x l IH]; [reflexivity|]. simpl.
    rewrite (Hnone x (or_introl eq_refl)). apply IH.
    intros f Hf. apply Hnone. right. exact Hf. }
  rewrite Hnil. reflexivity.
Qed.

(** C1: for a catalog that offers a high-resolution video-only format and
    a request for the highest quality, every attempt, whatever its number,
    takes the separate-stream path again. The branch that replaces the
    stream options on a retry stands after the [return] of the
    separate-stream branch and is not reached. *)
Theorem retry_repeats_separate_streams
    (formats : list videoFormat) (attempt : nat) :
  (exists f, In f (filterFormats formats videoonly) /\ isHighRes f = true) ->
  choosePlan formats highest attempt = Separate.
Proof.
  intros Hhigh. unfold choosePlan.
  destruct (List.length (filterFormats formats videoonly) =? 0)%nat eqn:Hlen.
  - apply length_zero_iff_nil in Hlen.
    destruct (highRes_videoonly_nonempty formats Hhigh Hlen).
  - rewrite andb_false_r. simpl isHighest.
    rewrite (highRes_filter_positive formats Hhigh). reflexivity.
Qed.

Lemma retry_repeats_separate_streams_witness :
  choosePlan catalogHD highest 2 = Separate.
Proof.
  apply (retry_repeats_separate_streams catalogHD 2).
  exists video1080mp4. split; [simpl; auto|reflexivity].
Defined.

(** The run behind it: attempt 1 loses the video-only transfer, attempt 2
    requests the same two separate streams and merges them; no request for
    the lowest combined stream is ever made. *)
Example retry_trace_of_failed_transfer :
  downloadVideo "dQw4w9WgXcQ" defaultOptions 3 1700000000000
    firstTransferFails [] =
  (Resolve "tmp/videos/dQw4w9WgXcQ_1700000000000.mp4",
   [mkFile "dQw4w9WgXcQ_1700000000000.mp4" 1700000012000],
   [EvAttempt 1;
    EvDownloadStart "dQw4w9WgXcQ_video_1700000000001.mp4" 137;
    EvDownloadEnd "dQw4w9WgXcQ_video_1700000000001.mp4" false;
    EvBackoff 2000;
    EvAttempt 2;
    EvDownloadStart "dQw4w9WgXcQ_video_1700000003000.mp4" 137;
    EvDownloadEnd "dQw4w9WgXcQ_video_1700000003000.mp4" true;
    EvDownloadStart "dQw4w9WgXcQ_audio_1700000003001.webm" 251;
    EvDownloadEnd "dQw4w9WgXcQ_audio_1700000003001.webm" true;
    EvMergeStart "dQw4w9WgXcQ_video_1700000003000.mp4"
      "dQw4w9WgXcQ_audio_1700000003001.webm"
      "dQw4w9WgXcQ_1700000000000.mp4";
    EvMergeEnd true]).
Proof. vm_compute. reflexivity. Qed.

Lemma retries_not_simplified : ~ retriesSimplified.
Proof.
  intros H.
  assert (Hplan : choosePlan catalogHD highest 2 = Single simplified).
  { apply H; [|lia].
    exists video1080mp4. split; [simpl; auto|reflexivity]. }
  vm_compute in Hplan. discriminate.
Qed.

(** Where the retry does simplify: whenever the separate-stream path is
    not taken, an attempt after the first requests the lowest combined
    stream. *)
Lemma retry_simplifies_single_stream
    (formats : list videoFormat) (q : Quality) (attempt : nat)
    (o : StreamOptions) :
  (1 < attempt)%nat ->
  choosePlan formats q attempt = Single o ->
  o = simplified.
Proof.
  intros Hretry. unfold choosePlan.
  destruct (_ && _)%bool; [discriminate|].
  destruct (_ && _)%bool; [discriminate|].
  apply Nat.ltb_lt in Hretry. rewrite Hretry.
  intros Heq. injection Heq as <-. reflexivity.
Qed.

(** C5, as stated, fails: a catalog with one video-only format, no
    audio-only format and no combined format is not rejected; the first
    attempt requests the video-only stream and the acquisition resolves
    with the downloaded file. *)
Lemma video_only_source_not_rejected :
  ~ rejectsWithoutPair /\
  filterFormats catalogVideoOnly videoandaudio = [] /\
  filterFormats catalogVideoOnly audioonly = [] /\
  downloadVideo "dQw4w9WgXcQ" defaultOptions 3 1700000000000
    videoOnlySource [] =
  (Resolve "tmp/videos/dQw4w9WgXcQ_1700000000000.mp4",
   [mkFile "dQw4w9WgXcQ_1700000000000.mp4" 1700000000000],
   [EvAttempt 1; EvRequest highest videoonly]).
Proof.
  split; [|repeat split; vm_compute; reflexivity].
  intros H.
  destruct (H catalogVideoOnly highest 1%nat) as [_ Hback].
  assert (Hplan : choosePlan catalogVideoOnly highest 1 = NoFormats).
  { apply Hback. split; [reflexivity|right; reflexivity]. }
  vm_compute in Hplan. discriminate.
Qed.

(** C5, amended: an attempt is rejected with the no-suitable-format error
    exactly when the catalog holds neither a combined format nor a
    video-only format; audio-only formats are not looked at. The rejection
    leaves the directory as it was and requests nothing. A catalog with
    video-only formats but nothing else is not rejected: its first attempt
    takes the separate-stream path when the highest quality is asked for
    and some video-only format has a height of 720 or more, and requests a
    single video-only stream of the asked quality in every other case. *)
Theorem rejects_iff_no_video_formats
    (formats : list videoFormat) (q : Quality) (attempt : nat) :
  (choosePlan formats q attempt = NoFormats <->
   filterFormats formats videoandaudio = [] /\
   filterFormats formats videoonly = []) /\
  (forall (videoId outputName : string) (hasOnProgress : bool)
          (env : AttemptEnv) (fs : FS),
     getInfo env = Resolve formats ->
     filterFormats formats videoandaudio = [] ->
     filterFormats formats videoonly = [] ->
     attemptOnce videoId outputName q hasOnProgress attempt env fs =
     (Reject noFormatsMessage, fs, [EvAttempt attempt])) /\
  (filterFormats formats videoandaudio = [] ->
   filterFormats formats videoonly <> [] ->
   (q = highest ->
    (exists f, In f (filterFormats formats videoonly) /\
               exists h, height f = Some h /\ 720 <= h) ->
    choosePlan formats q 1 = Separate) /\
   (q <> highest \/
    (forall f h, In f (filterFormats formats videoonly) ->
                 height f = Some h -> h < 720) ->
    choosePlan formats q 1 = Single (mkStreamOptions q videoonly true))).
Proof.
  assert (Hiff : choosePlan formats q attempt = NoFormats <->
                 filterFormats formats videoandaudio = [] /\
                 filterFormats formats videoonly = []).
  { unfold choosePlan.
    destruct (_ && _)%bool eqn:Htest.
    - apply andb_true_iff in Htest.
      rewrite !length_zero_iff_nil in Htest. tauto.
    - split.
      + destruct (isHighest q && _)%bool; [intro Habs; discriminate Habs|].
        destruct (1 <? attempt)%nat; intro Habs; discriminate Habs.
      + intros [Hc Hv]. rewrite Hc, Hv in Htest. discriminate. }
  split; [exact Hiff|]. split.
  - intros videoId outputName hasOnProgress env fs Hinfo Hc Hv.
    unfold attemptOnce. rewrite Hinfo.
    destruct Hiff as [_ Hplan]. rewrite (Hplan (conj Hc Hv)).
    reflexivity.
  - intros Hc Hv.
    assert (Hlen : (List.length (filterFormats formats videoonly) =? 0)%nat
                   = false).
    { destruct (filterFormats formats videoonly); [congruence|reflexivity]. }
    split.
    + intros -> (f & Hin & h & Hheight & Hhigh).
      assert (Hpos : (0 <? List.length
                             (filter isHighRes
                                (filterFormats formats videoonly)))%nat
                     = true).
      { apply highRes_filter_positive.
        exists f. split; [exact Hin|].
        apply isHighRes_height. exists h. split; [exact Hheight|exact Hhigh]. }
      unfold choosePlan. rewrite Hc, Hlen, Hpos. reflexivity.
    + intros Hlow.
      assert (Hnot : isHighest q &&
                     (0 <? List.length
                             (filter isHighRes
                                (filterFormats formats videoonly)))%nat
                     = false).
      { destruct Hlow as [Hq|Hlow].
        - destruct q; [congruence|reflexivity..].
        - rewrite isHighRes_none, andb_false_r; [reflexivity|].
          intros f Hf. destruct (isHighRes f) eqn:Hhigh; [|reflexivity].
          apply isHighRes_height in Hhigh.
          destruct Hhigh as (h & Hheight & Hhigh).
          specialize (Hlow f h Hf Hheight). lia. }
      unfold choosePlan. rewrite Hc, Hlen, Hnot. reflexivity.
Qed.

Lemma rejects_iff_no_video_formats_witness :
  attemptOnce "dQw4w9WgXcQ" "dQw4w9WgXcQ_1700000000000.mp4" highest false 1
    (mkAttemptEnv (Resolve [audio160webm]) quietSeparate quietSingle) [] =
  (Reject noFormatsMessage, [], [EvAttempt 1]) /\
  choosePlan [video1080mp4] highest 1 = Separate /\
  choosePlan catalogVideoOnly highest 1 =
  Single (mkStreamOptions highest videoonly true) /\
  choosePlan [video1080mp4] lowest 1 =
  Single (mkStreamOptions lowest videoonly true).
Proof.
  destruct (rejects_iff_no_video_formats [audio160webm] highest 1)
    as (_ & Hreject & _).
  destruct (rejects_iff_no_video_formats [video1080mp4] highest 1)
    as (_ & _ & Hhigh).
  destruct (rejects_iff_no_video_formats catalogVideoOnly highest 1)
    as (_ & _ & Hlow).
  destruct (rejects_iff_no_video_formats [video1080mp4] lowest 1)
    as (_ & _ & Hother).
  split; [|split; [|split]].
  - apply Hreject; reflexivity.
  - apply Hhigh; [reflexivity|discriminate|reflexivity|].
    exists video1080mp4. split; [left; reflexivity|].
    exists 1080. split; [reflexivity|lia].
  - apply Hlow; [reflexivity|discriminate|].
    right. intros f h [<-|[]] Hheight. injection Hheight as <-. lia.
  - apply Hother; [reflexivity|discriminate|].
    left. discriminate.
Defined.

(** ** The separate-stream acquisition *)

Ltac break_ifs :=
  repeat (cbn -[existsSync unlinkSync writeFile tempVideoName tempAudioName
                numToString String.append Z.eqb];
          match goal with
          | |- context [if ?b then _ else _] => destruct b eqn:?
          end);
  cbn -[existsSync unlinkSync writeFile tempVideoName tempAudioName
        numToString String.append Z.eqb].

Lemma append_cancel_l (p s1 s2 : string) :
  (p ++ s1)%string = (p ++ s2)%string -> s1 = s2.
Proof.
  induction p as [|c p IH]; simpl; intros H; [exact H|].
  injection H as H. exact (IH H).
Qed.

Lemma tempVideoName_not_tempAudioName (videoId : string) (t1 t2 : Z) :
  tempVideoName videoId t1 <> tempAudioName videoId t2.
Proof.
  unfold tempVideoName, tempAudioName. intros H.
  apply append_cancel_l in H. simpl in H. discriminate H.
Qed.

(** The trace of one acquisition has one of three shapes: nothing was
    requested, the video transfer was lost, or the video transfer ended
    well and only then the audio transfer was started. *)
Lemma downloadAndMergeStreams_trace_shape
    (videoId : string) (formats : list videoFormat) (outputName : string)
    (env : SeparateEnv) (fs : FS) :
  let tr := trace (downloadAndMergeStreams videoId formats outputName env fs) in
  let tv := tempVideoName videoId (tVideo env) in
  let ta := tempAudioName videoId (tAudio env) in
  tr = [] \/
  (exists iv, tr = [EvDownloadStart tv iv; EvDownloadEnd tv false]) \/
  (exists iv ia rest,
     tr = EvDownloadStart tv iv :: EvDownloadEnd tv true
          :: EvDownloadStart ta ia :: rest).
Proof.
  intros tr tv ta. subst tr tv ta.
  unfold downloadAndMergeStreams, pendingOpens, tryFinally, trace.
  destruct (bestVideoFormat formats) as [bv|].
  2:{ left. unfold throw, bind, cleanupFile, ret. break_ifs; reflexivity. }
  destruct (bestAudioFormat formats) as [ba|].
  2:{ left. unfold throw, bind, cleanupFile, ret. break_ifs; reflexivity. }
  unfold downloadStream, createWriteStream, pendingOpen,
    mergeStreamsWithFFmpeg, leaveOutput, bind, emit, modify, throw, ret,
    cleanupFile.
  destruct (videoOutcome env).
  - right; right.
    destruct (audioOutcome env); [destruct (mergeOutcome env)| | | |];
      break_ifs; eauto.
  - right; left. break_ifs; eauto.
  - right; left. break_ifs; eauto.
  - right; left. break_ifs; eauto.
  - right; left. break_ifs; eauto.
Qed.

(** C3: in every run of the separate-stream acquisition the audio transfer
    is started only after the video transfer has ended successfully; the
    two transfers never overlap. The two [await]s stand one after the
    other. *)
Theorem audio_download_starts_after_video_ends
    (videoId : string) (formats : list videoFormat) (outputName : string)
    (env : SeparateEnv) (fs : FS) (i : nat) (itg : Z) :
  nth_error (trace (downloadAndMergeStreams videoId formats outputName env fs))
    i = Some (EvDownloadStart (tempAudioName videoId (tAudio env)) itg) ->
  exists j, (j < i)%nat /\
    nth_error (trace (downloadAndMergeStreams videoId formats outputName env fs))
      j = Some (EvDownloadEnd (tempVideoName videoId (tVideo env)) true).
Proof.
  intros Hstart.
  destruct (downloadAndMergeStreams_trace_shape videoId formats outputName
              env fs) as [Hnil|[(iv & Hlost)|(iv & ia & rest & Hboth)]];
    rewrite ?Hnil, ?Hlost, ?Hboth in *.
  - destruct i; discriminate Hstart.
  - destruct i as [|[|[|i]]]; simpl in Hstart; try discriminate Hstart.
    injection Hstart as Hname _.
    destruct (tempVideoName_not_tempAudioName _ _ _ Hname).
  - destruct i as [|[|i]]; simpl in Hstart.
    + injection Hstart as Hname _.
      destruct (tempVideoName_not_tempAudioName _ _ _ Hname).
    + discriminate Hstart.
    + exists 1%nat. split; [lia|reflexivity].
Qed.

Lemma audio_download_starts_after_video_ends_witness :
  exists j, (j < 2)%nat /\
    nth_error
      (trace (downloadAndMergeStreams "dQw4w9WgXcQ" catalogHD
                "dQw4w9WgXcQ_1700000000000.mp4" quietSeparate []))
      j = Some (EvDownloadEnd "dQw4w9WgXcQ_video_1700000003000.mp4" true).
Proof.
  apply (audio_download_starts_after_video_ends "dQw4w9WgXcQ" catalogHD
           "dQw4w9WgXcQ_1700000000000.mp4" quietSeparate [] 2 251).
  vm_compute. reflexivity.
Defined.

Lemma existsSync_unlinkSync (fs : FS) (m n : string) :
  existsSync (unlinkSync fs m) n = existsSync fs n && negb (n =? m)%string.
Proof.
  unfold existsSync, unlinkSync.
  induction fs as [|f fs IH]; simpl; [reflexivity|].
  destruct (name f =? m)%string eqn:Hm; simpl.
  - rewrite IH. destruct (name f =? n)%string eqn:Hn; simpl; [|reflexivity].
    apply String.eqb_eq in Hm, Hn. subst m n.
    rewrite String.eqb_refl. simpl. apply andb_false_r.
  - rewrite IH. destruct (name f =? n)%string eqn:Hn; simpl; [|reflexivity].
    apply String.eqb_eq in Hn. subst n. rewrite Hm. reflexivity.
Qed.

Lemma cleanupFile_directory (fs : FS) (m n : string) :
  existsSync (directory (cleanupFile m fs)) n =
  existsSync fs n && negb (n =? m)%string.
Proof.
  unfold cleanupFile, directory.
  destruct (existsSync fs m) eqn:Hm; simpl.
  - apply existsSync_unlinkSync.
  - destruct (n =? m)%string eqn:Hn; simpl.
    + apply String.eqb_eq in Hn. subst n. rewrite Hm. reflexivity.
    + rewrite andb_true_r. reflexivity.
Qed.

Lemma tryFinally_directory {A : Type} (c : M A) (fin : M unit) (fs : FS) :
  directory (tryFinally c fin fs) = directory (fin (directory (c fs))).
Proof.
  unfold tryFinally, directory.
  destruct (c fs) as [[r fs1] t1]. simpl.
  destruct (fin fs1) as [[r2 fs2] t2]. reflexivity.
Qed.

Lemma cleanup_twice_directory (a b : string) (fs : FS) :
  directory (bind (cleanupFile a)
               (fun _ => cleanupFile b) fs) =
  directory (cleanupFile b (directory (cleanupFile a fs))).
Proof.
  unfold bind, directory, cleanupFile.
  destruct (existsSync fs a); simpl;
    match goal with
    | |- context [existsSync ?d b] => destruct (existsSync d b)
    end; reflexivity.
Qed.

Lemma existsSync_same_names (g : File -> File) (fs : FS) (m : string) :
  (forall f, name (g f) = name f) ->
  existsSync (map g fs) m = existsSync fs m.
Proof.
  intros Hg. unfold existsSync.
  induction fs as [|f fs IH]; simpl; [reflexivity|].
  rewrite Hg, IH. reflexivity.
Qed.

Lemma existsSync_writeFile (fs : FS) (n m : string) (t : Z) :
  existsSync (writeFile fs n t) m = existsSync fs m || (m =? n)%string.
Proof.
  unfold writeFile. destruct (existsSync fs n) eqn:Hn.
  - rewrite existsSync_same_names.
    + destruct (m =? n)%string eqn:Hm.
      * apply String.eqb_eq in Hm. subst m. rewrite Hn. reflexivity.
      * rewrite orb_false_r. reflexivity.
    + intros f. destruct (name f =? n)%string eqn:Hf; [|reflexivity].
      apply String.eqb_eq in Hf. simpl. congruence.
  - unfold existsSync. rewrite existsb_app. simpl.
    rewrite orb_false_r, (String.eqb_sym n m). reflexivity.
Qed.

Lemma pendingOpens_directory (videoId : string)
    (formats : list videoFormat) (env : SeparateEnv) (fs : FS) :
  directory (pendingOpens videoId formats env fs) =
  match bestVideoFormat formats, bestAudioFormat formats with
  | Some _, Some _ =>
      match videoOutcome env with
      | StreamFailedEarly _ =>
          writeFile fs (tempVideoName videoId (tVideo env)) (tVideo env)
      | StreamFinished =>
          match audioOutcome env with
          | StreamFailedEarly _ =>
              writeFile fs (tempAudioName videoId (tAudio env)) (tAudio env)
          | _ => fs
          end
      | _ => fs
      end
  | _, _ => fs
  end.
Proof.
  unfold pendingOpens, pendingOpen.
  destruct (bestVideoFormat formats); [|reflexivity].
  destruct (bestAudioFormat formats); [|reflexivity].
  destruct (videoOutcome env); try reflexivity.
  destruct (audioOutcome env); reflexivity.
Qed.

(** The directory a separate-stream acquisition leaves: what the [try]
    left, without the two temporary names, and with what the pending
    opens add. *)
Lemma downloadAndMergeStreams_directory
    (videoId : string) (formats : list videoFormat) (outputName : string)
    (env : SeparateEnv) (fs : FS) (n : string) :
  exists tried : FS,
    existsSync
      (directory (downloadAndMergeStreams videoId formats outputName env fs))
      n =
    existsSync
      (directory
         (pendingOpens videoId formats env
            (directory
               (cleanupFile (tempAudioName videoId (tAudio env))
                  (directory
                     (cleanupFile (tempVideoName videoId (tVideo env))
                        tried))))))
      n.
Proof.
  unfold downloadAndMergeStreams.
  rewrite tryFinally_directory, tryFinally_directory, cleanup_twice_directory.
  eexists. reflexivity.
Qed.

(** C6: the separate-stream acquisition does not remove both temporary
    input files on every path.  When the stream of the video transfer errs
    before the write stream has opened its file, the acquisition rejects
    with that error after the one failed transfer, and the temporary video
    file it was started on exists in the directory it leaves: the handler
    and the [finally] ran their cleanup before the open completed.  The same holds of the temporary audio file when the video
    transfer finished and the stream of the audio transfer errs that
    early.  On every other path (a selection that fails, a transfer lost
    after its file was opened, a write error, a timeout, a merge that
    fails, is killed or succeeds) neither temporary file exists
    afterwards. *)
Theorem early_stream_error_leaves_temporary_input
    (videoId : string) (formats : list videoFormat) (outputName : string)
    (env : SeparateEnv) (fs : FS) :
  let x := downloadAndMergeStreams videoId formats outputName env fs in
  let tv := tempVideoName videoId (tVideo env) in
  let ta := tempAudioName videoId (tAudio env) in
  (forall (bv ba : videoFormat) (msg : string),
     bestVideoFormat formats = Some bv ->
     bestAudioFormat formats = Some ba ->
     videoOutcome env = StreamFailedEarly msg ->
     settled x = Reject msg /\
     trace x = [EvDownloadStart tv (itag bv); EvDownloadEnd tv false] /\
     existsSync (directory x) tv = true) /\
  (forall (bv ba : videoFormat) (msg : string),
     bestVideoFormat formats = Some bv ->
     bestAudioFormat formats = Some ba ->
     videoOutcome env = StreamFinished ->
     audioOutcome env = StreamFailedEarly msg ->
     settled x = Reject msg /\
     trace x = [EvDownloadStart tv (itag bv); EvDownloadEnd tv true;
                EvDownloadStart ta (itag ba); EvDownloadEnd ta false] /\
     existsSync (directory x) ta = true /\
     existsSync (directory x) tv = false) /\
  (bestVideoFormat formats = None \/ bestAudioFormat formats = None \/
   (openedBeforeSettling (videoOutcome env) = true /\
    (videoOutcome env = StreamFinished ->
     openedBeforeSettling (audioOutcome env) = true)) ->
   existsSync (directory x) tv = false /\
   existsSync (directory x) ta = false).
Proof.
  cbv zeta. split; [|split].
  - intros bv ba msg Hv Ha Hearly. split; [|split].
    + unfold downloadAndMergeStreams, pendingOpens, tryFinally, settled.
      rewrite Hv, Ha, Hearly.
      unfold downloadStream, createWriteStream, pendingOpen, bind, emit,
        modify, throw, ret, cleanupFile.
      break_ifs; reflexivity.
    + unfold downloadAndMergeStreams, pendingOpens, tryFinally, trace.
      rewrite Hv, Ha, Hearly.
      unfold downloadStream, createWriteStream, pendingOpen, bind, emit,
        modify, throw, ret, cleanupFile.
      break_ifs; reflexivity.
    + destruct (downloadAndMergeStreams_directory videoId formats outputName
                  env fs (tempVideoName videoId (tVideo env)))
        as [tried ->].
      rewrite pendingOpens_directory, Hv, Ha, Hearly.
      rewrite existsSync_writeFile, String.eqb_refl. apply orb_true_r.
  - intros bv ba msg Hv Ha Hfinished Hearly. split; [|split; [|split]].
    + unfold downloadAndMergeStreams, pendingOpens, tryFinally, settled.
      rewrite Hv, Ha, Hfinished, Hearly.
      unfold downloadStream, createWriteStream, pendingOpen, bind, emit,
        modify, throw, ret, cleanupFile.
      break_ifs; reflexivity.
    + unfold downloadAndMergeStreams, pendingOpens, tryFinally, trace.
      rewrite Hv, Ha, Hfinished, Hearly.
      unfold downloadStream, createWriteStream, pendingOpen, bind, emit,
        modify, throw, ret, cleanupFile.
      break_ifs; reflexivity.
    + destruct (downloadAndMergeStreams_directory videoId formats outputName
                  env fs (tempAudioName videoId (tAudio env)))
        as [tried ->].
      rewrite pendingOpens_directory, Hv, Ha, Hfinished, Hearly.
      rewrite existsSync_writeFile, String.eqb_refl. apply orb_true_r.
    + destruct (downloadAndMergeStreams_directory videoId formats outputName
                  env fs (tempVideoName videoId (tVideo env)))
        as [tried ->].
      rewrite pendingOpens_directory, Hv, Ha, Hfinished, Hearly.
      rewrite existsSync_writeFile, !cleanupFile_directory, String.eqb_refl.
      simpl. rewrite !andb_false_r. simpl.
      apply String.eqb_neq. apply tempVideoName_not_tempAudioName.
  - intros Hpath.
    assert (Hsame : forall tried : FS,
              directory
                (pendingOpens videoId formats env
                   (directory
                      (cleanupFile (tempAudioName videoId (tAudio env))
                         (directory
                            (cleanupFile (tempVideoName videoId (tVideo env))
                               tried))))) =
              directory
                (cleanupFile (tempAudioName videoId (tAudio env))
                   (directory
                      (cleanupFile (tempVideoName videoId (tVideo env))
                         tried)))).
    { intros tried. rewrite pendingOpens_directory.
      destruct (bestVideoFormat formats); [|reflexivity].
      destruct (bestAudioFormat formats); [|reflexivity].
      destruct Hpath as [Habs|[Habs|[Hvideo Haudio]]];
        [discriminate Habs|discriminate Habs|].
      destruct (videoOutcome env); try reflexivity; [|discriminate Hvideo].
      specialize (Haudio eq_refl).
      destruct (audioOutcome env); try reflexivity. discriminate Haudio. }
    split.
    + destruct (downloadAndMergeStreams_directory videoId formats outputName
                  env fs (tempVideoName videoId (tVideo env)))
        as [tried ->].
      rewrite Hsame, !cleanupFile_directory, String.eqb_refl.
      simpl. rewrite andb_false_r. reflexivity.
    + destruct (downloadAndMergeStreams_directory videoId formats outputName
                  env fs (tempAudioName videoId (tAudio env)))
        as [tried ->].
      rewrite Hsame, !cleanupFile_directory, String.eqb_refl.
      simpl. apply andb_false_r.
Qed.

Lemma early_stream_error_leaves_temporary_input_witness :
  settled
    (downloadAndMergeStreams "dQw4w9WgXcQ" catalogHD
       "dQw4w9WgXcQ_1700000000000.mp4"
       (separateEnv (firstOpenOvertaken 1)) []) = Reject "socket hang up" /\
  trace
    (downloadAndMergeStreams "dQw4w9WgXcQ" catalogHD
       "dQw4w9WgXcQ_1700000000000.mp4"
       (separateEnv (firstOpenOvertaken 1)) []) =
  [EvDownloadStart "dQw4w9WgXcQ_video_1700000000001.mp4" 137;
   EvDownloadEnd "dQw4w9WgXcQ_video_1700000000001.mp4" false] /\
  existsSync
    (directory
       (downloadAndMergeStreams "dQw4w9WgXcQ" catalogHD
          "dQw4w9WgXcQ_1700000000000.mp4"
          (separateEnv (firstOpenOvertaken 1)) []))
    "dQw4w9WgXcQ_video_1700000000001.mp4" = true.
Proof.
  destruct (early_stream_error_leaves_temporary_input "dQw4w9WgXcQ" catalogHD
              "dQw4w9WgXcQ_1700000000000.mp4"
              (separateEnv (firstOpenOvertaken 1)) [])
    as (Hvideo & _ & _).
  apply (Hvideo video1080mp4 audio160webm "socket hang up"); reflexivity.
Defined.

(** The run behind it: the temporary file of the overtaken open is still
    there when the second attempt has succeeded and [downloadVideo] has
    resolved. *)
Example temporary_file_survives_the_retry :
  downloadVideo "dQw4w9WgXcQ" defaultOptions 3 1700000000000
    firstOpenOvertaken [] =
  (Resolve "tmp/videos/dQw4w9WgXcQ_1700000000000.mp4",
   [mkFile "dQw4w9WgXcQ_video_1700000000001.mp4" 1700000000001;
    mkFile "dQw4w9WgXcQ_1700000000000.mp4" 1700000012000],
   [EvAttempt 1;
    EvDownloadStart "dQw4w9WgXcQ_video_1700000000001.mp4" 137;
    EvDownloadEnd "dQw4w9WgXcQ_video_1700000000001.mp4" false;
    EvBackoff 2000;
    EvAttempt 2;
    EvDownloadStart "dQw4w9WgXcQ_video_1700000003000.mp4" 137;
    EvDownloadEnd "dQw4w9WgXcQ_video_1700000003000.mp4" true;
    EvDownloadStart "dQw4w9WgXcQ_audio_1700000003001.webm" 251;
    EvDownloadEnd "dQw4w9WgXcQ_audio_1700000003001.webm" true;
    EvMergeStart "dQw4w9WgXcQ_video_1700000003000.mp4"
      "dQw4w9WgXcQ_audio_1700000003001.webm"
      "dQw4w9WgXcQ_1700000000000.mp4";
    EvMergeEnd true]).
Proof. vm_compute. reflexivity. Qed.

(** ** The cache lookup *)

Lemma prefix_append (p s : string) : String.prefix p (p ++ s)%string = true.
Proof.
  induction p as [|c p IH]; simpl.
  - destruct s; reflexivity.
  - destruct (ascii_dec c c) as [_|Hne]; [exact IH|congruence].
Qed.

Lemma startsWith_tempVideoName (videoId : string) (t : Z) :
  startsWith (tempVideoName videoId t) videoId = true.
Proof. apply prefix_append. Qed.

(** C9: while a separate-stream acquisition for [videoId] is under way and
    its video-only transfer has written the temporary file, a lookup for
    [videoId] returns that temporary file as the cached source: the lookup
    takes the first name that starts with [videoId], and the temporary
    name does. *)
Theorem lookup_returns_temporary_stream
    (videoId : string) (itg t now : Z) :
  now - t < maxFileAge ->
  let during :=
    directory (downloadStream (tempVideoName videoId t) itg t
                 StreamFinished []) in
  during = [mkFile (tempVideoName videoId t) t] /\
  hasVideoFile now videoId during =
  (Resolve (Some (pathJoin tempDir (tempVideoName videoId t))), during, []).
Proof.
  intros Hyoung. cbv zeta.
  assert (Hdir : directory (downloadStream (tempVideoName videoId t) itg t
                              StreamFinished []) =
                 [mkFile (tempVideoName videoId t) t]) by reflexivity.
  rewrite Hdir. split; [reflexivity|].
  unfold hasVideoFile. simpl find.
  rewrite startsWith_tempVideoName. simpl name. simpl mtime.
  apply Z.ltb_lt in Hyoung. rewrite Hyoung. reflexivity.
Qed.

Lemma lookup_returns_temporary_stream_witness :
  hasVideoFile 1700000001000 "dQw4w9WgXcQ"
    [mkFile "dQw4w9WgXcQ_video_1700000000000.mp4" 1700000000000] =
  (Resolve (Some "tmp/videos/dQw4w9WgXcQ_video_1700000000000.mp4"),
   [mkFile "dQw4w9WgXcQ_video_1700000000000.mp4" 1700000000000], []).
Proof.
  apply (lookup_returns_temporary_stream "dQw4w9WgXcQ" 137
           1700000000000 1700000001000).
  vm_compute. reflexivity.
Defined.

(** ** The progress handler *)

Lemma callbackCount_app (a b : list Event) :
  callbackCount (a ++ b) = (callbackCount a + callbackCount b)%nat.
Proof.
  unfold callbackCount. rewrite filter_app, length_app. reflexivity.
Qed.

Lemma logLines_app (a b : list Event) :
  logLines (a ++ b) = logLines a ++ logLines b.
Proof. unfold logLines. apply flat_map_app. Qed.

(** C4, as stated, fails: two progress events one millisecond apart, both
    short of the total, both reach the callback. *)
Lemma callback_not_throttled : ~ callbackThrottled.
Proof.
  intros H.
  specialize (H 1700000000000 chunkA chunkB).
  vm_compute in H.
  assert (Hle : (2 <= 1)%nat) by (apply H; reflexivity).
  lia.
Qed.

(** The handler run over the progress events of a stream: one callback
    for each event when a callback is given, and log lines two seconds
    apart or at 100%. *)
Lemma progressEvents_callbacks_and_lines
    (hasOnProgress : bool) (t0 : Z) (chunks : list Chunk) :
  callbackCount (progressEvents hasOnProgress t0 chunks) =
    (if hasOnProgress then List.length chunks else 0%nat) /\
  spaced t0 (logLines (progressEvents hasOnProgress t0 chunks)).
Proof.
  revert t0. induction chunks as [|c chunks IH]; intros t0.
  - simpl. destruct hasOnProgress; split; simpl; auto.
  - simpl progressEvents. unfold onChunk.
    destruct (twoSecondsSince t0 (arrival c)
              || percentageReached100 (downloadedBytes c) (totalBytes c))
      eqn:Hlog.
    + destruct (IH (arrival c)) as [Hcount Hspaced].
      rewrite callbackCount_app, logLines_app, Hcount.
      split.
      * destruct hasOnProgress; reflexivity.
      * assert (Hline :
          logLines
            ((if hasOnProgress
              then [EvOnProgress (downloadedBytes c) (totalBytes c)]
              else []) ++
             [EvProgressLog (arrival c) (downloadedBytes c) (totalBytes c)])
          = [(arrival c, downloadedBytes c, totalBytes c)])
          by (destruct hasOnProgress; reflexivity).
        rewrite Hline. simpl. split; [|exact Hspaced].
        apply orb_true_iff in Hlog. unfold twoSecondsSince in Hlog.
        rewrite Z.leb_le in Hlog. exact Hlog.
    + destruct (IH t0) as [Hcount Hspaced].
      rewrite callbackCount_app, logLines_app, Hcount.
      split.
      * destruct hasOnProgress; reflexivity.
      * destruct hasOnProgress; exact Hspaced.
Qed.

Lemma downloadSingle_trace (outputName : string) (o : StreamOptions)
    (hasOnProgress : bool) (env : SingleEnv) (fs : FS) :
  trace (downloadSingle outputName o hasOnProgress env fs) =
  EvRequest (optQuality o) (optFilter o)
  :: progressEvents hasOnProgress (tStart env) (chunks env).
Proof.
  unfold downloadSingle, createWriteStream, pendingOpen, trace, bind, emit,
    modify, emitAll, ret, throw, cleanupFile.
  destruct (outcome env);
    cbn -[existsSync writeFile unlinkSync progressEvents];
    repeat match goal with
      | |- context [existsSync ?d ?n] =>
          destruct (existsSync d n);
          cbn -[existsSync writeFile unlinkSync progressEvents]
      end;
    rewrite ?app_nil_r; reflexivity.
Qed.

Lemma downloadSingle_finished (outputName : string) (o : StreamOptions)
    (hasOnProgress : bool) (env : SingleEnv) (fs : FS) :
  outcome env = StreamFinished ->
  settled (downloadSingle outputName o hasOnProgress env fs) =
  Resolve (pathJoin tempDir outputName).
Proof.
  intros Hfinished.
  unfold downloadSingle, createWriteStream, settled, bind, emit, modify,
    emitAll, ret.
  rewrite Hfinished. reflexivity.
Qed.

(** C4, amended: in every combined-stream download the callback, when one
    is given, is invoked once for every progress event of the stream,
    however close together the events are, and not at all when none is
    given.  What is limited to once per two seconds, with the exception at
    100%, is the progress line written to the log: every log line is at
    least two seconds after the previous one (after the start of the
    download for the first) or was written at 100%.  The callback is the
    one of the options [downloadVideo] was called with: when the directory
    is there and the first attempt is a combined-stream download that
    finishes, the trace of the call counts one callback per progress event
    exactly when [options.onProgress] is set. *)
Theorem callback_on_every_progress_event
    (outputName : string) (o : StreamOptions) (hasOnProgress : bool)
    (env : SingleEnv) (fs : FS) :
  let tr := trace (downloadSingle outputName o hasOnProgress env fs) in
  callbackCount tr =
    (if hasOnProgress then List.length (chunks env) else 0%nat) /\
  spaced (tStart env) (logLines tr) /\
  forall (u : unit) (videoId : string) (options : VideoDownloadOptions)
         (maxRetries : nat) (now : Z) (envs : nat -> AttemptEnv)
         (formats : list videoFormat),
    getInfo (envs 1%nat) = Resolve formats ->
    choosePlan formats (qualityOf options) 1 = Single o ->
    singleEnv (envs 1%nat) = env ->
    outcome env = StreamFinished ->
    callbackCount
      (trace (downloadVideoCall (Resolve u) videoId options (S maxRetries)
                now envs fs)) =
    (if onProgress options then List.length (chunks env) else 0%nat).
Proof.
  cbv zeta.
  destruct (progressEvents_callbacks_and_lines hasOnProgress (tStart env)
              (chunks env)) as [Hcount Hspaced].
  split; [|split].
  - rewrite downloadSingle_trace. exact Hcount.
  - rewrite downloadSingle_trace. exact Hspaced.
  - intros u videoId options maxRetries now envs formats Hinfo Hplan Henv
      Hfinished.
    rewrite downloadVideoCall_created.
    unfold downloadVideo. cbn [retryLoop].
    match goal with
    | |- context [tryCatch ?c ?h fs] =>
        pose proof (tryCatch_parts c h fs) as Hcatch
    end.
    assert (Hattempt :
      settled (attemptOnce videoId (fileName videoId now (formatOf options))
                 (qualityOf options) (onProgress options) 1 (envs 1%nat) fs)
      = Resolve (pathJoin tempDir (fileName videoId now (formatOf options)))
      /\
      trace (attemptOnce videoId (fileName videoId now (formatOf options))
               (qualityOf options) (onProgress options) 1 (envs 1%nat) fs)
      = EvAttempt 1
        :: trace (downloadSingle (fileName videoId now (formatOf options)) o
                    (onProgress options) env fs)).
    { unfold attemptOnce. rewrite Hinfo, Hplan, Henv.
      pose proof (emit_bind_parts (EvAttempt 1)
        (fun _ => downloadSingle (fileName videoId now (formatOf options)) o
                    (onProgress options) env) fs) as (Hs & _ & Ht).
      rewrite Hs, Ht, downloadSingle_finished by exact Hfinished.
      split; reflexivity. }
    destruct Hattempt as [Hresolved Htrace].
    rewrite Hresolved in Hcatch. destruct Hcatch as (_ & _ & Hsame).
    rewrite Hsame, Htrace, downloadSingle_trace.
    destruct (progressEvents_callbacks_and_lines (onProgress options)
                (tStart env) (chunks env)) as [Hcount' _].
    exact Hcount'.
Qed.

Lemma callback_on_every_progress_event_witness :
  callbackCount
    (trace (downloadVideoCall (Resolve tt) "dQw4w9WgXcQ"
              (mkOptions (Some lowest) None true) 3 1700000000000
              (fun _ => mkAttemptEnv (Resolve [combined360]) quietSeparate
                          (mkSingleEnv 1700000000000
                             [chunkA; chunkB; chunkLast] StreamFinished))
              [])) = 3%nat.
Proof.
  destruct (callback_on_every_progress_event "dQw4w9WgXcQ_1700000000000.mp4"
              (mkStreamOptions lowest videoandaudio true) true
              (mkSingleEnv 1700000000000 [chunkA; chunkB; chunkLast]
                 StreamFinished) [])
    as (_ & _ & Hcall).
  apply (Hcall tt "dQw4w9WgXcQ" (mkOptions (Some lowest) None true) 2%nat
           1700000000000
           (fun _ => mkAttemptEnv (Resolve [combined360]) quietSeparate
                       (mkSingleEnv 1700000000000
                          [chunkA; chunkB; chunkLast] StreamFinished))
           [combined360]); reflexivity.
Defined.

Example callback_trace_of_close_chunks :
  progressEvents true 1700000000000 [chunkA; chunkB; chunkLast] =
  [EvOnProgress 65536 1048576; EvOnProgress 131072 1048576;
   EvOnProgress 1048576 1048576;
   EvProgressLog 1700000000102 1048576 1048576].
Proof. reflexivity. Qed.

(** ** The crop encoding policy *)




(** ** The crop batch *)

Lemma last_cons_default {A : Type} (l : list A) :
  forall a d : A, last (a :: l) d = last l a.
Proof.
  induction l as [|b l IH]; intros a d; [reflexivity|].
  change (last (a :: b :: l) d) with (last (b :: l) d).
  rewrite (IH b d), (IH b a). reflexivity.
Qed.

Lemma cropLoop_accumulates
    (inputPath videoId : string) (options : Crop.CropOptions)
    (envs : nat -> Crop.CropEnv) (highlights : list Crop.Highlight) :
  forall (i : nat) (results : list Crop.CropResult) (fs : FS),
    let runs :=
      Crop.sequentialCrops inputPath videoId options envs i highlights fs in
    Crop.cropLoop inputPath videoId options envs i highlights results fs =
    (Resolve (results ++ Crop.successes runs),
     last (map directory runs) fs,
     List.concat (map trace runs)).
Proof.
  induction highlights as [|h rest IH]; intros i results fs.
  - simpl. unfold ret. rewrite app_nil_r. reflexivity.
  - cbv zeta. simpl Crop.cropLoop. simpl Crop.sequentialCrops.
    unfold bind at 1. unfold tryCatch, bind at 1.
    destruct (Crop.cropVideo inputPath h videoId options (envs i) fs)
      as [[r fs1] t1] eqn:Hrun.
    destruct r as [result|msg].
    + unfold ret at 1. rewrite IH.
      cbn [map]. rewrite last_cons_default.
      unfold Crop.successes, directory, trace, settled. simpl.
      rewrite app_nil_r, <- app_assoc. reflexivity.
    + unfold ret at 1. rewrite IH.
      cbn [map]. rewrite last_cons_default.
      unfold Crop.successes, directory, trace, settled. simpl.
      rewrite app_nil_r. reflexivity.
Qed.

Lemma cropVideo_trace
    (inputPath : string) (h : Crop.Highlight) (videoId : string)
    (options : Crop.CropOptions) (env : Crop.CropEnv) (fs : FS) :
  let x := Crop.cropVideo inputPath h videoId options env fs in
  trace x = [EvCropStart (Crop.id h); EvCropEnd (Crop.id h) (Crop.succeeded x)].
Proof.
  cbv zeta. unfold Crop.cropVideo, Crop.succeeded, settled, trace.
  destruct (Crop.run env _) as [[size|]|msg wrote|];
    unfold bind, emit, modify, ret, throw, cleanupFile;
    try destruct wrote;
    cbn -[existsSync writeFile unlinkSync];
    repeat match goal with
      | |- context [existsSync ?d ?n] =>
          destruct (existsSync d n); cbn -[existsSync writeFile unlinkSync]
      end; reflexivity.
Qed.

Lemma sequentialCrops_length
    (inputPath videoId : string) (options : Crop.CropOptions)
    (envs : nat -> Crop.CropEnv) (highlights : list Crop.Highlight) :
  forall (i : nat) (fs : FS),
    List.length
      (Crop.sequentialCrops inputPath videoId options envs i highlights fs)
    = List.length highlights.
Proof.
  induction highlights as [|h rest IH]; intros i fs; simpl;
    [reflexivity|rewrite IH; reflexivity].
Qed.

Lemma sequentialCrops_traces
    (inputPath videoId : string) (options : Crop.CropOptions)
    (envs : nat -> Crop.CropEnv) (highlights : list Crop.Highlight) :
  forall (i : nat) (fs : FS),
    Forall2
      (fun h x =>
         trace x =
         [EvCropStart (Crop.id h);
          EvCropEnd (Crop.id h) (Crop.succeeded x)])
      highlights
      (Crop.sequentialCrops inputPath videoId options envs i highlights fs).
Proof.
  induction highlights as [|h rest IH]; intros i fs; simpl; constructor.
  - apply cropVideo_trace.
  - apply IH.
Qed.

(** C10: a batch never rejects. Its crops are those of the highlights
    taken one after the other in list order, each in the directory the
    previous one left, whether that one succeeded or failed; the returned
    list holds the results of the crops that succeeded, in that order; and
    the trace is the traces of the single crops one after the other, each
    a start followed by its own end. *)
Theorem crop_batch_sequential_and_tolerant
    (inputPath : string) (highlights : list Crop.Highlight)
    (videoId : string) (options : Crop.CropOptions)
    (envs : nat -> Crop.CropEnv) (fs : FS) :
  let runs :=
    Crop.sequentialCrops inputPath videoId options envs 0 highlights fs in
  Crop.cropMultipleHighlights inputPath highlights videoId options envs fs =
    (Resolve (Crop.successes runs),
     last (map directory runs) fs,
     List.concat (map trace runs)) /\
  List.length runs = List.length highlights /\
  Forall2
    (fun h x =>
       trace x =
       [EvCropStart (Crop.id h); EvCropEnd (Crop.id h) (Crop.succeeded x)])
    highlights runs.
Proof.
  cbv zeta. split; [|split].
  - unfold Crop.cropMultipleHighlights.
    rewrite cropLoop_accumulates. reflexivity.
  - apply sequentialCrops_length.
  - apply sequentialCrops_traces.
Qed.

Example crop_batch_with_failed_middle :
  Crop.cropMultipleHighlights "tmp/videos/dQw4w9WgXcQ_1700000000000.mp4"
    [opening; middle; finale] "dQw4w9WgXcQ" losslessOriginal secondCropFails []
  =
  (Resolve
     [Crop.mkCropResult
        "tmp/highlights/dQw4w9WgXcQ_h1_Cold_open_1700000000000.mp4"
        1048576 15 "mp4";
      Crop.mkCropResult
        "tmp/highlights/dQw4w9WgXcQ_h3_Finale_1700000200000.mp4"
        1048576 20 "mp4"],
   [mkFile "dQw4w9WgXcQ_h1_Cold_open_1700000000000.mp4" 1700000000000;
    mkFile "dQw4w9WgXcQ_h3_Finale_1700000200000.mp4" 1700000200000],
   [EvCropStart "h1"; EvCropEnd "h1" true;
    EvCropStart "h2"; EvCropEnd "h2" false;
    EvCropStart "h3"; EvCropEnd "h3" true]).
Proof. vm_compute. reflexivity. Qed.

(** * Further properties of the two services *)

Import Cache.

(** ** Which files a run can leave *)

Lemma addsOnly_ret {A : Type} (names : list string) (a : A) :
  addsOnly names (ret a).
Proof. intros fs n H. right. exact H. Qed.

Lemma addsOnly_throw {A : Type} (names : list string) (msg : string) :
  addsOnly names (@throw A msg).
Proof. intros fs n H. right. exact H. Qed.

Lemma addsOnly_emit (names : list string) (e : Event) :
  addsOnly names (emit e).
Proof. intros fs n H. right. exact H. Qed.

Lemma addsOnly_emitAll (names : list string) (evs : list Event) :
  addsOnly names (emitAll evs).
Proof. intros fs n H. right. exact H. Qed.

Lemma addsOnly_cleanupFile (names : list string) (m : string) :
  addsOnly names (cleanupFile m).
Proof.
  intros fs n H. right. rewrite cleanupFile_directory in H.
  apply andb_true_iff in H. tauto.
Qed.

Lemma addsOnly_write (names : list string) (m : string) (t : Z) :
  In m names ->
  addsOnly names (modify (fun fs => writeFile fs m t)).
Proof.
  intros Hin fs n H. unfold modify, directory in H. simpl in H.
  rewrite existsSync_writeFile in H. apply orb_true_iff in H.
  destruct H as [H|H]; [right; exact H|left].
  apply String.eqb_eq in H. subst n. exact Hin.
Qed.

Lemma addsOnly_bind {A B : Type} (names : list string)
    (c : M A) (k : A -> M B) :
  addsOnly names c -> (forall a, addsOnly names (k a)) ->
  addsOnly names (bind c k).
Proof.
  intros Hc Hk fs n H.
  pose proof (bind_parts c k fs) as Hparts.
  destruct (settled (c fs)) as [a|msg];
    destruct Hparts as (_ & Hdir & _); rewrite Hdir in H.
  - destruct (Hk a _ _ H) as [Hin|Hbefore]; [left; exact Hin|].
    exact (Hc fs n Hbefore).
  - exact (Hc fs n H).
Qed.

Lemma addsOnly_tryCatch {A : Type} (names : list string)
    (c : M A) (h : string -> M A) :
  addsOnly names c -> (forall msg, addsOnly names (h msg)) ->
  addsOnly names (tryCatch c h).
Proof.
  intros Hc Hh fs n H.
  pose proof (tryCatch_parts c h fs) as Hparts.
  destruct (settled (c fs)) as [a|msg];
    destruct Hparts as (_ & Hdir & _); rewrite Hdir in H.
  - exact (Hc fs n H).
  - destruct (Hh msg _ _ H) as [Hin|Hbefore]; [left; exact Hin|].
    exact (Hc fs n Hbefore).
Qed.

Lemma addsOnly_tryFinally {A : Type} (names : list string)
    (c : M A) (fin : M unit) :
  addsOnly names c -> addsOnly names fin ->
  addsOnly names (tryFinally c fin).
Proof.
  intros Hc Hfin fs n H.
  destruct (tryFinally_parts c fin fs) as (_ & Hdir & _). rewrite Hdir in H.
  destruct (Hfin _ _ H) as [Hin|Hbefore]; [left; exact Hin|].
  exact (Hc fs n Hbefore).
Qed.

Ltac adds_only :=
  repeat first
    [ apply addsOnly_ret
    | apply addsOnly_throw
    | apply addsOnly_emit
    | apply addsOnly_emitAll
    | apply addsOnly_cleanupFile
    | apply addsOnly_write; simpl; tauto
    | apply addsOnly_bind; [|intros ?]
    | apply addsOnly_tryFinally
    | apply addsOnly_tryCatch; [|intros ?] ].

Lemma addsOnly_weaken {A : Type} (names names' : list string) (c : M A) :
  (forall n, In n names -> In n names') ->
  addsOnly names c -> addsOnly names' c.
Proof.
  intros Hsub Hc fs n H.
  destruct (Hc fs n H) as [Hin|Hbefore]; [left; apply Hsub; exact Hin|].
  right. exact Hbefore.
Qed.

Lemma addsOnly_downloadStream (names : list string) (n : string)
    (itg now : Z) (o : StreamOutcome) :
  In n names -> addsOnly names (downloadStream n itg now o).
Proof.
  intros Hin. unfold downloadStream, createWriteStream.
  destruct o; cbn [openedBeforeSettling]; adds_only;
    apply addsOnly_write; exact Hin.
Qed.

Lemma addsOnly_merge (names : list string) (v a out : string) (now : Z)
    (o : FfmpegOutcome) :
  In out names -> addsOnly names (mergeStreamsWithFFmpeg v a out now o).
Proof.
  intros Hin. unfold mergeStreamsWithFFmpeg, leaveOutput.
  destruct o as [code wrote|msg|wrote]; try destruct wrote;
    try destruct (code =? 0); adds_only; apply addsOnly_write; exact Hin.
Qed.

Lemma addsOnly_downloadSingle (names : list string) (out : string)
    (o : StreamOptions) (hasOnProgress : bool) (env : SingleEnv) :
  In out names -> addsOnly names (downloadSingle out o hasOnProgress env).
Proof.
  intros Hin. unfold downloadSingle, createWriteStream, pendingOpen.
  destruct (outcome env); cbn [openedBeforeSettling]; adds_only;
    apply addsOnly_write; exact Hin.
Qed.

(** The two temporary names are unlinked by the [finally], so what the
    [try] and its [finally] leave of their own is the output at most. *)
Lemma addsOnly_separate_try (videoId : string)
    (formats : list videoFormat) (out : string) (env : SeparateEnv) :
  addsOnly [out]
    (tryFinally
       (match bestVideoFormat formats with
        | None => throw "No suitable video-only format found"
        | Some bestVideo =>
            match bestAudioFormat formats with
            | None => throw "No suitable audio-only format found"
            | Some bestAudio =>
                bind (downloadStream (tempVideoName videoId (tVideo env))
                        (itag bestVideo) (tVideo env) (videoOutcome env))
                  (fun _ =>
                     bind (downloadStream (tempAudioName videoId (tAudio env))
                             (itag bestAudio) (tAudio env) (audioOutcome env))
                       (fun _ =>
                          bind (mergeStreamsWithFFmpeg
                                  (tempVideoName videoId (tVideo env))
                                  (tempAudioName videoId (tAudio env)) out
                                  (tMerge env) (mergeOutcome env))
                            (fun _ => ret (pathJoin tempDir out))))
            end
        end)
       (bind (cleanupFile (tempVideoName videoId (tVideo env)))
          (fun _ => cleanupFile (tempAudioName videoId (tAudio env))))).
Proof.
  intros fs n H.
  rewrite tryFinally_directory, cleanup_twice_directory in H.
  rewrite !cleanupFile_directory in H.
  apply andb_true_iff in H. destruct H as [H Haudio].
  apply andb_true_iff in H. destruct H as [H Hvideo].
  apply negb_true_iff, String.eqb_neq in Haudio, Hvideo.
  match type of H with
  | existsSync (directory (?body fs)) n = true =>
      assert (Hbody :
        addsOnly [tempVideoName videoId (tVideo env);
                  tempAudioName videoId (tAudio env); out] body)
  end.
  { destruct (bestVideoFormat formats); [|apply addsOnly_throw].
    destruct (bestAudioFormat formats); [|apply addsOnly_throw].
    apply addsOnly_bind; [apply addsOnly_downloadStream; simpl; tauto|].
    intros _.
    apply addsOnly_bind; [apply addsOnly_downloadStream; simpl; tauto|].
    intros _.
    apply addsOnly_bind; [apply addsOnly_merge; simpl; tauto|].
    intros _. apply addsOnly_ret. }
  destruct (Hbody fs n H) as [[Hv|[Ha|[Ho|[]]]]|Hbefore].
  - congruence.
  - congruence.
  - left. left. exact Ho.
  - right. exact Hbefore.
Qed.

(** What a separate-stream acquisition can leave is its output and the
    temporary file of an open that the stream error overtook. *)
Lemma addsOnly_downloadAndMergeStreams (videoId : string)
    (formats : list videoFormat) (out : string) (env : SeparateEnv) :
  addsOnly (out :: overtakenOpens videoId env)
    (downloadAndMergeStreams videoId formats out env).
Proof.
  intros fs n H. unfold downloadAndMergeStreams in H.
  rewrite tryFinally_directory, pendingOpens_directory in H.
  assert (Htry :
    forall m,
      existsSync
        (directory
           (tryFinally
              (match bestVideoFormat formats with
               | None => throw "No suitable video-only format found"
               | Some bestVideo =>
                   match bestAudioFormat formats with
                   | None => throw "No suitable audio-only format found"
                   | Some bestAudio =>
                       bind (downloadStream
                               (tempVideoName videoId (tVideo env))
                               (itag bestVideo) (tVideo env)
                               (videoOutcome env))
                         (fun _ =>
                            bind (downloadStream
                                    (tempAudioName videoId (tAudio env))
                                    (itag bestAudio) (tAudio env)
                                    (audioOutcome env))
                              (fun _ =>
                                 bind (mergeStreamsWithFFmpeg
                                         (tempVideoName videoId (tVideo env))
                                         (tempAudioName videoId (tAudio env))
                                         out (tMerge env) (mergeOutcome env))
                                   (fun _ => ret (pathJoin tempDir out))))
                   end
               end)
              (bind (cleanupFile (tempVideoName videoId (tVideo env)))
                 (fun _ => cleanupFile (tempAudioName videoId (tAudio env))))
              fs)) m = true ->
      In m (out :: overtakenOpens videoId env) \/ existsSync fs m = true).
  { intros m Hm.
    destruct (addsOnly_separate_try videoId formats out env fs m Hm)
      as [[Hout|[]]|Hbefore]; [left; left; exact Hout|right; exact Hbefore]. }
  unfold overtakenOpens in *.
  destruct (bestVideoFormat formats); [|exact (Htry n H)].
  destruct (bestAudioFormat formats); [|exact (Htry n H)].
  destruct (videoOutcome env); try exact (Htry n H).
  - destruct (audioOutcome env); try exact (Htry n H).
    rewrite existsSync_writeFile in H. apply orb_true_iff in H.
    destruct H as [H|H]; [exact (Htry n H)|].
    apply String.eqb_eq in H. left. right. left. symmetry. exact H.
  - rewrite existsSync_writeFile in H. apply orb_true_iff in H.
    destruct H as [H|H]; [exact (Htry n H)|].
    apply String.eqb_eq in H. left. right. left. symmetry. exact H.
Qed.

Lemma addsOnly_attemptOnce (videoId out : string) (q : Quality)
    (hasOnProgress : bool) (attempt : nat) (env : AttemptEnv) :
  addsOnly (out :: overtakenOpens videoId (separateEnv env))
    (attemptOnce videoId out q hasOnProgress attempt env).
Proof.
  unfold attemptOnce.
  apply addsOnly_bind; [apply addsOnly_emit|]. intros _.
  destruct (getInfo env) as [formats|msg]; [|apply addsOnly_throw].
  destruct (choosePlan formats q attempt) as [| |o].
  - apply addsOnly_throw.
  - apply addsOnly_downloadAndMergeStreams.
  - apply addsOnly_downloadSingle. simpl. tauto.
Qed.

Lemma addsOnly_retryLoop (videoId out : string) (q : Quality)
    (hasOnProgress : bool) (maxRetries : nat) (envs : nat -> AttemptEnv)
    (remaining : nat) :
  forall (attempt : nat) (lastError : option string),
    (1 <= attempt)%nat ->
    (attempt + remaining = S maxRetries)%nat ->
    addsOnly
      (out :: flat_map (fun a => overtakenOpens videoId (separateEnv (envs a)))
                (seq 1 maxRetries))
      (retryLoop videoId out q hasOnProgress maxRetries envs remaining
         attempt lastError).
Proof.
  induction remaining as [|remaining IH];
    intros attempt lastError Hpos Hsum; simpl.
  - apply addsOnly_throw.
  - apply addsOnly_tryCatch.
    + apply (addsOnly_weaken
               (out :: overtakenOpens videoId (separateEnv (envs attempt))));
        [|apply addsOnly_attemptOnce].
      intros n [Hn|Hn]; [left; exact Hn|right].
      apply in_flat_map. exists attempt. split; [|exact Hn].
      apply in_seq. lia.
    + intros msg. apply addsOnly_bind; [|intros _; apply IH; lia].
      destruct (attempt <? maxRetries)%nat;
        [apply addsOnly_emit|apply addsOnly_ret].
Qed.

(** A call leaves its output, what was there, and overtaken opens. *)
Lemma downloadVideoCall_leaves
    (dir : Result unit) (videoId : string) (options : VideoDownloadOptions)
    (maxRetries : nat) (now : Z) (envs : nat -> AttemptEnv) (fs : FS)
    (n : string) :
  existsSync
    (directory
       (downloadVideoCall dir videoId options maxRetries now envs fs)) n
  = true ->
  n = fileName videoId now (formatOf options) \/
  existsSync fs n = true \/
  exists attempt : nat,
    (1 <= attempt <= maxRetries)%nat /\
    In n (overtakenOpens videoId (separateEnv (envs attempt))).
Proof.
  intros H.
  assert (Hcall :
    addsOnly
      (fileName videoId now (formatOf options)
       :: flat_map (fun a => overtakenOpens videoId (separateEnv (envs a)))
            (seq 1 maxRetries))
      (downloadVideoCall dir videoId options maxRetries now envs)).
  { unfold downloadVideoCall, downloadVideo. apply addsOnly_bind.
    - intros d m Hm. right. exact Hm.
    - intros _. apply addsOnly_retryLoop; lia. }
  destruct (Hcall fs n H) as [[Hout|Hleft]|Hold].
  - left. symmetry. exact Hout.
  - right. right. apply in_flat_map in Hleft.
    destruct Hleft as (attempt & Hrange & Hin).
    exists attempt. split; [|exact Hin]. apply in_seq in Hrange. lia.
  - right. left. exact Hold.
Qed.

(** X1: whatever happens during a call of [downloadVideo] (a directory that
    cannot be created, lost transfers, failed merges, retries), every file
    in the directory afterwards was there before, or is the call's own
    output file, or is the temporary file of a separate-stream transfer of
    one of the attempts whose stream erred before the file was opened.
    Nothing else is left behind: no temporary file of a transfer that
    finished, timed out, or failed once its file was there. *)
Theorem acquisition_leaves_output_and_overtaken_opens
    (dir : Result unit) (videoId : string) (options : VideoDownloadOptions)
    (maxRetries : nat) (now : Z) (envs : nat -> AttemptEnv) (fs : FS)
    (n : string) :
  existsSync
    (directory
       (downloadVideoCall dir videoId options maxRetries now envs fs)) n
  = true ->
  n = fileName videoId now (formatOf options) \/
  existsSync fs n = true \/
  exists attempt : nat,
    (1 <= attempt <= maxRetries)%nat /\
    exists msg : string,
      (videoOutcome (separateEnv (envs attempt)) = StreamFailedEarly msg /\
       n = tempVideoName videoId (tVideo (separateEnv (envs attempt)))) \/
      (videoOutcome (separateEnv (envs attempt)) = StreamFinished /\
       audioOutcome (separateEnv (envs attempt)) = StreamFailedEarly msg /\
       n = tempAudioName videoId (tAudio (separateEnv (envs attempt)))).
Proof.
  intros H.
  destruct (downloadVideoCall_leaves dir videoId options maxRetries now envs
              fs n H) as [Hout|[Hold|(attempt & Hrange & Hin)]].
  - left. exact Hout.
  - right. left. exact Hold.
  - right. right. exists attempt. split; [exact Hrange|].
    unfold overtakenOpens in Hin.
    destruct (videoOutcome (separateEnv (envs attempt))) as [|m|m| |m].
    + destruct (audioOutcome (separateEnv (envs attempt))) as [|m|m| |m].
      1,2,3,4: destruct Hin.
      destruct Hin as [Hin|[]].
      exists m. right. split; [reflexivity|]. split; [reflexivity|].
      symmetry. exact Hin.
    + destruct Hin.
    + destruct Hin.
    + destruct Hin.
    + destruct Hin as [Hin|[]].
      exists m. left. split; [reflexivity|]. symmetry. exact Hin.
Qed.

Lemma acquisition_leaves_output_and_overtaken_opens_witness :
  "dQw4w9WgXcQ_video_1700000000001.mp4" =
    fileName "dQw4w9WgXcQ" 1700000000000 (formatOf defaultOptions) \/
  existsSync [] "dQw4w9WgXcQ_video_1700000000001.mp4" = true \/
  exists attempt : nat,
    (1 <= attempt <= 3)%nat /\
    exists msg : string,
      (videoOutcome (separateEnv (firstOpenOvertaken attempt)) =
         StreamFailedEarly msg /\
       "dQw4w9WgXcQ_video_1700000000001.mp4" =
         tempVideoName "dQw4w9WgXcQ"
           (tVideo (separateEnv (firstOpenOvertaken attempt)))) \/
      (videoOutcome (separateEnv (firstOpenOvertaken attempt)) =
         StreamFinished /\
       audioOutcome (separateEnv (firstOpenOvertaken attempt)) =
         StreamFailedEarly msg /\
       "dQw4w9WgXcQ_video_1700000000001.mp4" =
         tempAudioName "dQw4w9WgXcQ"
           (tAudio (separateEnv (firstOpenOvertaken attempt)))).
Proof.
  apply (acquisition_leaves_output_and_overtaken_opens (Resolve tt)
           "dQw4w9WgXcQ" defaultOptions 3 1700000000000 firstOpenOvertaken
           []).
  vm_compute. reflexivity.
Defined.

(** ** What the trace shows of the retry loop *)

Lemma attemptsOf_app (a b : list Event) :
  attemptsOf (a ++ b) = attemptsOf a ++ attemptsOf b.
Proof. unfold attemptsOf. apply flat_map_app. Qed.

Lemma backoffsOf_app (a b : list Event) :
  backoffsOf (a ++ b) = backoffsOf a ++ backoffsOf b.
Proof. unfold backoffsOf. apply flat_map_app. Qed.

Lemma silent_ret {A : Type} (a : A) : silent (ret a).
Proof. intros fs. split; reflexivity. Qed.

Lemma silent_throw {A : Type} (msg : string) : silent (@throw A msg).
Proof. intros fs. split; reflexivity. Qed.

Lemma silent_modify (f : FS -> FS) : silent (modify f).
Proof. intros fs. split; reflexivity. Qed.

Lemma silent_cleanupFile (n : string) : silent (cleanupFile n).
Proof.
  intros fs. destruct (cleanupFile_parts n fs) as [_ Htrace].
  rewrite Htrace. split; reflexivity.
Qed.

Lemma silent_emitAll (evs : list Event) :
  attemptsOf evs = [] -> backoffsOf evs = [] -> silent (emitAll evs).
Proof. intros Ha Hb fs. split; assumption. Qed.

Lemma silent_emit (e : Event) :
  attemptsOf [e] = [] -> backoffsOf [e] = [] -> silent (emit e).
Proof. intros Ha Hb fs. split; assumption. Qed.

Lemma silent_bind {A B : Type} (c : M A) (k : A -> M B) :
  silent c -> (forall a, silent (k a)) -> silent (bind c k).
Proof.
  intros Hc Hk fs.
  pose proof (bind_parts c k fs) as Hparts.
  destruct (Hc fs) as [Hca Hcb].
  destruct (settled (c fs)) as [a|msg];
    destruct Hparts as (_ & _ & Htrace); rewrite Htrace.
  - destruct (Hk a (directory (c fs))) as [Hka Hkb].
    rewrite attemptsOf_app, backoffsOf_app, Hca, Hcb, Hka, Hkb.
    split; reflexivity.
  - split; assumption.
Qed.

Lemma silent_tryFinally {A : Type} (c : M A) (fin : M unit) :
  silent c -> silent fin -> silent (tryFinally c fin).
Proof.
  intros Hc Hfin fs.
  destruct (tryFinally_parts c fin fs) as (_ & _ & Htrace). rewrite Htrace.
  destruct (Hc fs) as [Hca Hcb].
  destruct (Hfin (directory (c fs))) as [Hfa Hfb].
  rewrite attemptsOf_app, backoffsOf_app, Hca, Hcb, Hfa, Hfb.
  split; reflexivity.
Qed.

Lemma progressEvents_silent (hasOnProgress : bool) (chunks : list Chunk) :
  forall t0 : Z,
    attemptsOf (progressEvents hasOnProgress t0 chunks) = [] /\
    backoffsOf (progressEvents hasOnProgress t0 chunks) = [].
Proof.
  induction chunks as [|c chunks IH]; intros t0; [split; reflexivity|].
  simpl progressEvents. unfold onChunk.
  destruct (twoSecondsSince t0 (arrival c)
            || percentageReached100 (downloadedBytes c) (totalBytes c)).
  - destruct (IH (arrival c)) as [Ha Hb].
    rewrite attemptsOf_app, backoffsOf_app, Ha, Hb.
    destruct hasOnProgress; split; reflexivity.
  - destruct (IH t0) as [Ha Hb].
    rewrite attemptsOf_app, backoffsOf_app, Ha, Hb.
    destruct hasOnProgress; split; reflexivity.
Qed.

Ltac be_silent :=
  repeat first
    [ apply silent_ret
    | apply silent_throw
    | apply silent_modify
    | apply silent_cleanupFile
    | apply silent_emit; reflexivity
    | apply silent_bind; [|intros ?]
    | apply silent_tryFinally ].

Lemma silent_createWriteStream (n : string) (now : Z) (o : StreamOutcome) :
  silent (createWriteStream n now o).
Proof.
  unfold createWriteStream. destruct (openedBeforeSettling o); be_silent.
Qed.

Lemma silent_pendingOpen (n : string) (now : Z) (o : StreamOutcome) :
  silent (pendingOpen n now o).
Proof.
  unfold pendingOpen. destruct (openedBeforeSettling o); be_silent.
Qed.

Lemma silent_downloadStream (n : string) (itg now : Z) (o : StreamOutcome) :
  silent (downloadStream n itg now o).
Proof.
  unfold downloadStream.
  apply silent_bind; [apply silent_emit; reflexivity|intros _].
  apply silent_bind; [apply silent_createWriteStream|intros _].
  destruct o; be_silent.
Qed.

Lemma silent_merge (v a out : string) (now : Z) (o : FfmpegOutcome) :
  silent (mergeStreamsWithFFmpeg v a out now o).
Proof.
  unfold mergeStreamsWithFFmpeg, leaveOutput.
  destruct o as [code wrote|msg|wrote]; try destruct wrote;
    try destruct (code =? 0); be_silent.
Qed.

Lemma silent_downloadAndMergeStreams (videoId : string)
    (formats : list videoFormat) (out : string) (env : SeparateEnv) :
  silent (downloadAndMergeStreams videoId formats out env).
Proof.
  unfold downloadAndMergeStreams.
  apply silent_tryFinally; [apply silent_tryFinally; [|be_silent]|].
  - destruct (bestVideoFormat formats); [|apply silent_throw].
    destruct (bestAudioFormat formats); [|apply silent_throw].
    apply silent_bind; [apply silent_downloadStream|intros _].
    apply silent_bind; [apply silent_downloadStream|intros _].
    apply silent_bind; [apply silent_merge|intros _].
    apply silent_ret.
  - unfold pendingOpens.
    destruct (bestVideoFormat formats); [|apply silent_ret].
    destruct (bestAudioFormat formats); [|apply silent_ret].
    apply silent_bind; [apply silent_pendingOpen|intros _].
    destruct (videoOutcome env); try apply silent_ret.
    apply silent_pendingOpen.
Qed.

Lemma silent_downloadSingle (out : string) (o : StreamOptions)
    (hasOnProgress : bool) (env : SingleEnv) :
  silent (downloadSingle out o hasOnProgress env).
Proof.
  unfold downloadSingle.
  apply silent_bind; [apply silent_emit; reflexivity|intros _].
  apply silent_bind; [apply silent_createWriteStream|intros _].
  apply silent_bind;
    [apply silent_emitAll; apply progressEvents_silent|intros _].
  destruct (outcome env); be_silent; apply silent_pendingOpen.
Qed.

Lemma loopEvents_app (a b : list Event) :
  loopEvents (a ++ b) = loopEvents a ++ loopEvents b.
Proof. unfold loopEvents. apply filter_app. Qed.

Lemma loopEvents_silent (tr : list Event) :
  attemptsOf tr = [] -> backoffsOf tr = [] -> loopEvents tr = [].
Proof.
  induction tr as [|e tr IH]; [reflexivity|].
  destruct e; simpl; intros Ha Hb; try discriminate Ha; try discriminate Hb;
    apply IH; assumption.
Qed.

(** One attempt shows in the trace as its own number and nothing else of
    the loop. *)
Lemma attemptOnce_shows (videoId out : string) (q : Quality)
    (hasOnProgress : bool) (attempt : nat) (env : AttemptEnv) (fs : FS) :
  loopEvents (trace (attemptOnce videoId out q hasOnProgress attempt env fs))
  = [EvAttempt attempt].
Proof.
  unfold attemptOnce.
  match goal with
  | |- context [bind (emit ?e) ?k] =>
      destruct (emit_bind_parts e k fs) as (_ & _ & Htrace);
      assert (Hrest : silent (k tt))
  end.
  { cbv beta.
    destruct (getInfo env) as [formats|msg]; [|apply silent_throw].
    destruct (choosePlan formats q attempt) as [| |o].
    - apply silent_throw.
    - apply silent_downloadAndMergeStreams.
    - apply silent_downloadSingle. }
  rewrite Htrace, loopEvents_app.
  destruct (Hrest fs) as [Ha Hb].
  rewrite (loopEvents_silent _ Ha Hb). reflexivity.
Qed.

Lemma retryLoop_interleaved (videoId out : string) (q : Quality)
    (hasOnProgress : bool) (maxRetries : nat) (envs : nat -> AttemptEnv)
    (remaining : nat) :
  forall (attempt : nat) (lastError : option string) (fs : FS),
    (attempt + remaining = S maxRetries)%nat ->
    exists j : nat,
      (j <= remaining)%nat /\
      (1 <= remaining -> 1 <= j)%nat /\
      loopEvents
        (trace (retryLoop videoId out q hasOnProgress maxRetries envs
                  remaining attempt lastError fs))
      = attemptsWithWaits j attempt /\
      (forall msg,
         settled (retryLoop videoId out q hasOnProgress maxRetries envs
                    remaining attempt lastError fs) = Reject msg ->
         j = remaining).
Proof.
  induction remaining as [|remaining IH]; intros attempt lastError fs Hsum.
  - exists 0%nat. simpl. repeat split; auto; lia.
  - simpl retryLoop.
    match goal with
    | |- context [tryCatch ?c ?h fs] =>
        pose proof (tryCatch_parts c h fs) as Hparts;
        pose proof (attemptOnce_shows videoId out q hasOnProgress attempt
                      (envs attempt) fs) as Hatt
    end.
    destruct (settled (attemptOnce videoId out q hasOnProgress attempt
                         (envs attempt) fs)) as [path|msg1].
    + destruct Hparts as (Hset & _ & Htrace).
      exists 1%nat. rewrite Htrace, Hatt, Hset.
      repeat split; auto; try lia. intros msg Habs. discriminate Habs.
    + destruct Hparts as (Hset & _ & Htrace).
      rewrite Htrace, Hset, loopEvents_app, Hatt.
      clear Hset Htrace.
      destruct (attempt <? maxRetries)%nat eqn:Hmore.
      * apply Nat.ltb_lt in Hmore.
        match goal with
        | |- context [bind (emit ?e) ?k ?d] =>
            destruct (emit_bind_parts e k d) as (Hset & _ & Htrace)
        end.
        rewrite Htrace, Hset. clear Htrace Hset.
        destruct (IH (S attempt) (Some msg1)
                    (directory (attemptOnce videoId out q hasOnProgress
                                  attempt (envs attempt) fs)))
          as (j & Hle & Hpos & Hloop & Hrej); [lia|].
        exists (S j).
        rewrite loopEvents_app, Hloop.
        assert (Hj : (1 <= j)%nat) by (apply Hpos; lia).
        destruct j as [|j']; [lia|].
        repeat split; try lia.
        intros msg Hmsg. rewrite (Hrej msg Hmsg). reflexivity.
      * apply Nat.ltb_ge in Hmore.
        assert (Hlast : remaining = 0%nat) by lia. subst remaining.
        rewrite ret_bind_parts. simpl.
        exists 1%nat. repeat split; auto; lia.
Qed.

(** X2: a call of [downloadVideo] whose directory cannot be created rejects
    with that error before any attempt and without touching a file.
    Otherwise it makes at most [maxRetries] attempts, numbered 1, 2, ... in
    order, and what the trace shows of the loop is exactly: attempt 1, the
    wait of 2 s, attempt 2, the wait of 4 s, ..., the last attempt made;
    the wait after failed attempt [k] is [2^k] seconds, there is one
    between every two consecutive attempts and none before the first or
    after the last.  The call rejects only after all [maxRetries] attempts
    were made, and resolves only after at least one. *)
Theorem attempts_and_waits_interleave
    (dir : Result unit) (videoId : string) (options : VideoDownloadOptions)
    (maxRetries : nat) (now : Z) (envs : nat -> AttemptEnv) (fs : FS) :
  let x := downloadVideoCall dir videoId options maxRetries now envs fs in
  match dir with
  | Reject msg => x = (Reject msg, fs, [])
  | Resolve _ =>
      exists attempts : nat,
        (attempts <= maxRetries)%nat /\
        loopEvents (trace x) = attemptsWithWaits attempts 1 /\
        match settled x with
        | Reject _ => attempts = maxRetries
        | Resolve _ => (1 <= attempts)%nat
        end
  end.
Proof.
  cbv zeta. destruct dir as [u|msg]; [|reflexivity].
  rewrite downloadVideoCall_created. unfold downloadVideo.
  destruct (retryLoop_interleaved videoId
              (fileName videoId now (formatOf options)) (qualityOf options)
              (onProgress options) maxRetries envs maxRetries 1 None fs)
    as (j & Hle & Hpos & Hloop & Hrej); [lia|].
  exists j. split; [assumption|]. split; [assumption|].
  destruct (settled _) as [path|msg] eqn:Hset.
  - destruct maxRetries as [|m]; [discriminate Hset|]. apply Hpos. lia.
  - apply (Hrej msg). reflexivity.
Qed.

(** The loop of a call whose first two attempts lose a transfer. *)
Example attempts_and_waits_of_three_attempts :
  loopEvents
    (trace (downloadVideoCall (Resolve tt) "dQw4w9WgXcQ" defaultOptions 3
              1700000000000
              (fun attempt =>
                 match attempt with
                 | 3%nat => firstTransferFails 2
                 | _ => firstTransferFails 1
                 end) []))
  = [EvAttempt 1; EvBackoff 2000; EvAttempt 2; EvBackoff 4000; EvAttempt 3].
Proof. vm_compute. reflexivity. Qed.

Lemma retryLoop_last_error (videoId out : string) (q : Quality)
    (hasOnProgress : bool) (maxRetries : nat) (envs : nat -> AttemptEnv)
    (remaining : nat) :
  forall (attempt : nat) (lastError : option string) (fs : FS) (msg : string),
    (attempt + remaining = S maxRetries)%nat ->
    settled (retryLoop videoId out q hasOnProgress maxRetries envs
               remaining attempt lastError fs) = Reject msg ->
    (remaining = 0%nat /\
     msg = match lastError with
           | Some m => m
           | None => "Failed to download video after all retries"
           end) \/
    exists fs',
      settled (attemptOnce videoId out q hasOnProgress maxRetries
                 (envs maxRetries) fs') = Reject msg.
Proof.
  induction remaining as [|remaining IH];
    intros attempt lastError fs msg Hsum Hrej.
  - left. split; [reflexivity|]. simpl in Hrej. injection Hrej as <-.
    reflexivity.
  - right. simpl retryLoop in Hrej.
    match type of Hrej with
    | context [tryCatch ?c ?h fs] =>
        pose proof (tryCatch_parts c h fs) as Hparts
    end.
    destruct (settled (attemptOnce videoId out q hasOnProgress attempt
                         (envs attempt) fs)) as [path|msg1] eqn:Hattempt.
    + destruct Hparts as (Hset & _). rewrite Hset in Hrej. discriminate Hrej.
    + destruct Hparts as (Hset & _). rewrite Hset in Hrej. clear Hset.
      assert (Hloop :
        settled (retryLoop videoId out q hasOnProgress maxRetries envs
                   remaining (S attempt) (Some msg1)
                   (directory (attemptOnce videoId out q hasOnProgress
                                 attempt (envs attempt) fs))) = Reject msg).
      { destruct (attempt <? maxRetries)%nat.
        - match type of Hrej with
          | context [bind (emit ?e) ?k ?d] =>
              destruct (emit_bind_parts e k d) as (Hset & _)
          end.
          rewrite Hset in Hrej. exact Hrej.
        - rewrite ret_bind_parts in Hrej. exact Hrej. }
      assert (Hnext : (S attempt + remaining = S maxRetries)%nat) by lia.
      destruct (IH _ _ _ _ Hnext Hloop) as [[Hzero Hmsg]|Hlater].
      * subst remaining msg.
        assert (attempt = maxRetries) by lia. subst attempt.
        exists fs. exact Hattempt.
      * exact Hlater.
Qed.

(** X3: the error a call of [downloadVideo] rejects with is the error of
    creating the directory, when that fails (no attempt is made then and no
    file is touched), and otherwise the error of its last attempt, attempt
    number [maxRetries]; what earlier attempts failed with is dropped. With
    [maxRetries = 0] no attempt is made, the directory is not touched and
    the error is the fixed message. *)
Theorem final_error_is_last_attempt
    (dir : Result unit) (videoId : string) (options : VideoDownloadOptions)
    (maxRetries : nat) (now : Z) (envs : nat -> AttemptEnv) (fs : FS)
    (msg : string) :
  settled (downloadVideoCall dir videoId options maxRetries now envs fs)
  = Reject msg ->
  match dir, maxRetries with
  | Reject m, _ =>
      m = msg /\
      downloadVideoCall dir videoId options maxRetries now envs fs =
      (Reject msg, fs, [])
  | Resolve _, O =>
      downloadVideoCall dir videoId options maxRetries now envs fs =
      (Reject "Failed to download video after all retries", fs, [])
  | Resolve _, S _ =>
      exists fs',
        settled (attemptOnce videoId
                   (fileName videoId now (formatOf options))
                   (qualityOf options) (onProgress options) maxRetries
                   (envs maxRetries) fs') = Reject msg
  end.
Proof.
  intros Hrej. destruct dir as [u|m].
  - rewrite downloadVideoCall_created in Hrej |- *.
    destruct maxRetries as [|k]; [reflexivity|].
    unfold downloadVideo in Hrej.
    destruct (retryLoop_last_error videoId
                (fileName videoId now (formatOf options)) (qualityOf options)
                (onProgress options) (S k) envs (S k) 1 None fs msg
                eq_refl Hrej)
      as [[Hzero _]|Hlast]; [discriminate Hzero|exact Hlast].
  - injection Hrej as ->. split; reflexivity.
Qed.

Lemma final_error_is_last_attempt_witness :
  (exists fs',
     settled (attemptOnce "dQw4w9WgXcQ" "dQw4w9WgXcQ_1700000000000.mp4"
                highest false 2
                (mkAttemptEnv (Reject "Status code: 429") quietSeparate
                   quietSingle) fs')
     = Reject "Status code: 429") /\
  downloadVideoCall (Reject "EACCES: permission denied, mkdir 'tmp/videos'")
    "dQw4w9WgXcQ" defaultOptions 2 1700000000000
    (fun _ => mkAttemptEnv (Resolve catalogHD) quietSeparate quietSingle) []
  = (Reject "EACCES: permission denied, mkdir 'tmp/videos'", [], []).
Proof.
  split.
  - apply (final_error_is_last_attempt (Resolve tt) "dQw4w9WgXcQ"
             defaultOptions 2 1700000000000
             (fun _ => mkAttemptEnv (Reject "Status code: 429") quietSeparate
                         quietSingle) []).
    vm_compute. reflexivity.
  - apply (final_error_is_last_attempt
             (Reject "EACCES: permission denied, mkdir 'tmp/videos'")
             "dQw4w9WgXcQ" defaultOptions 2 1700000000000
             (fun _ => mkAttemptEnv (Resolve catalogHD) quietSeparate
                         quietSingle) []
             "EACCES: permission denied, mkdir 'tmp/videos'").
    reflexivity.
Defined.

(** ** Attempts that fail before anything is requested *)

Lemma retryLoop_failures (videoId out : string) (q : Quality)
    (hasOnProgress : bool) (maxRetries : nat) (envs : nat -> AttemptEnv)
    (msg : string) :
  (forall attempt fs,
     settled (attemptOnce videoId out q hasOnProgress attempt
                (envs attempt) fs) = Reject msg /\
     trace (attemptOnce videoId out q hasOnProgress attempt
              (envs attempt) fs) = [EvAttempt attempt]) ->
  forall (remaining attempt : nat) (lastError : option string) (fs : FS),
    (1 <= remaining)%nat ->
    settled (retryLoop videoId out q hasOnProgress maxRetries envs
               remaining attempt lastError fs) = Reject msg /\
    trace (retryLoop videoId out q hasOnProgress maxRetries envs
             remaining attempt lastError fs)
    = failures maxRetries remaining attempt.
Proof.
  intros Hfail remaining.
  induction remaining as [|remaining IH]; intros attempt lastError fs Hpos;
    [lia|].
  simpl retryLoop.
  match goal with
  | |- context [tryCatch ?c ?h fs] =>
      pose proof (tryCatch_parts c h fs) as Hparts
  end.
  destruct (Hfail attempt fs) as [Hset Htrace].
  rewrite Hset in Hparts. destruct Hparts as (Hs & _ & Ht).
  rewrite Hs, Ht, Htrace. clear Hs Ht.
  assert (Hrest :
    forall d,
      settled (retryLoop videoId out q hasOnProgress maxRetries envs
                 remaining (S attempt) (Some msg) d) = Reject msg /\
      trace (retryLoop videoId out q hasOnProgress maxRetries envs
               remaining (S attempt) (Some msg) d)
      = failures maxRetries remaining (S attempt)).
  { intros d. destruct remaining as [|r].
    - split; reflexivity.
    - apply IH. lia. }
  simpl failures.
  destruct (attempt <? maxRetries)%nat.
  - match goal with
    | |- context [bind (emit ?e) ?k ?d] =>
        destruct (emit_bind_parts e k d) as (Hs & _ & Ht);
        destruct (Hrest d) as [Hrs Hrt]
    end.
    rewrite Hs, Ht, Hrs, Hrt. split; reflexivity.
  - rewrite ret_bind_parts.
    match goal with
    | |- context [retryLoop _ _ _ _ _ _ _ _ _ ?d] =>
        destruct (Hrest d) as [Hrs Hrt]
    end.
    rewrite Hrs, Hrt. split; reflexivity.
Qed.

Lemma bestVideoFormat_exists (formats : list videoFormat) :
  filterFormats formats videoonly <> [] ->
  exists v, bestVideoFormat formats = Some v.
Proof.
  intros Hne. unfold bestVideoFormat.
  destruct (filterFormats formats videoonly) as [|x l]; [congruence|].
  destruct (first (sortBy heightDesc (filter isMp4WithHeight (x :: l))))
    as [v|]; simpl; eauto.
Qed.

Lemma choosePlan_separate (formats : list videoFormat) (attempt : nat) :
  (exists f, In f (filterFormats formats videoonly) /\ isHighRes f = true) ->
  choosePlan formats highest attempt = Separate.
Proof.
  intros Hhigh. unfold choosePlan.
  destruct (List.length (filterFormats formats videoonly) =? 0)%nat eqn:Hlen.
  - apply length_zero_iff_nil in Hlen.
    destruct (highRes_videoonly_nonempty formats Hhigh Hlen).
  - rewrite andb_false_r. simpl isHighest.
    rewrite (highRes_filter_positive formats Hhigh). reflexivity.
Qed.

Lemma cleanup_twice_trace (a b : string) (fs : FS) :
  trace (bind (cleanupFile a) (fun _ => cleanupFile b) fs) = [].
Proof.
  unfold bind, cleanupFile, trace.
  destruct (existsSync fs a); simpl;
    match goal with
    | |- context [existsSync ?d b] => destruct (existsSync d b)
    end; reflexivity.
Qed.

Lemma pendingOpens_trace (videoId : string) (formats : list videoFormat)
    (env : SeparateEnv) (fs : FS) :
  trace (pendingOpens videoId formats env fs) = [].
Proof.
  unfold pendingOpens, pendingOpen.
  destruct (bestVideoFormat formats); [|reflexivity].
  destruct (bestAudioFormat formats); [|reflexivity].
  destruct (videoOutcome env); try reflexivity.
  destruct (audioOutcome env); reflexivity.
Qed.

(** A [finally] that shows nothing in the trace leaves the result and the
    trace of the [try]. *)
Lemma tryFinally_quiet {A : Type} (c : M A) (fin : M unit) (fs : FS) :
  (forall d, trace (fin d) = []) ->
  settled (tryFinally c fin fs) = settled (c fs) /\
  trace (tryFinally c fin fs) = trace (c fs).
Proof.
  intros Hquiet.
  destruct (tryFinally_parts c fin fs) as (Hs & _ & Ht).
  rewrite Hs, Ht, Hquiet, app_nil_r. split; reflexivity.
Qed.

Ltac through_finally d :=
  unfold downloadAndMergeStreams;
  match goal with
  | |- context [tryFinally (tryFinally ?c ?fin) ?late d] =>
      let Hs := fresh "Hs" in
      let Ht := fresh "Ht" in
      destruct (tryFinally_quiet (tryFinally c fin) late d
                  (pendingOpens_trace _ _ _)) as [Hs Ht];
      rewrite ?Hs, ?Ht; clear Hs Ht;
      destruct (tryFinally_quiet c fin d (cleanup_twice_trace _ _))
        as [Hs Ht];
      rewrite ?Hs, ?Ht; clear Hs Ht
  end.

(** X4: when the catalog has a video-only format of height >= 720 but no
    audio-only format, a request for the highest quality cannot succeed,
    whether or not a combined format exists: every attempt takes the
    separate-stream path and stops at the missing audio format, no stream
    is ever requested, and after [maxRetries] attempts the acquisition
    rejects with the missing-audio error. *)
Theorem no_audio_format_never_tries_combined
    (videoId : string) (options : VideoDownloadOptions) (maxRetries : nat)
    (now : Z) (envs : nat -> AttemptEnv) (formats : list videoFormat)
    (fs : FS) :
  qualityOf options = highest ->
  (exists f, In f (filterFormats formats videoonly) /\ isHighRes f = true) ->
  filterFormats formats audioonly = [] ->
  (forall attempt, getInfo (envs attempt) = Resolve formats) ->
  (1 <= maxRetries)%nat ->
  settled (downloadVideo videoId options maxRetries now envs fs)
  = Reject "No suitable audio-only format found" /\
  trace (downloadVideo videoId options maxRetries now envs fs)
  = failures maxRetries maxRetries 1.
Proof.
  intros Hq Hhigh Haudio Hinfo Hpos. unfold downloadVideo. rewrite Hq.
  apply retryLoop_failures; [|exact Hpos].
  intros attempt d. unfold attemptOnce.
  match goal with
  | |- context [bind (emit ?e) ?k] =>
      destruct (emit_bind_parts e k d) as (Hs & _ & Ht)
  end.
  rewrite Hs, Ht. clear Hs Ht.
  rewrite Hinfo, (choosePlan_separate formats attempt Hhigh).
  through_finally d.
  destruct (bestVideoFormat_exists formats
              (highRes_videoonly_nonempty formats Hhigh)) as [v Hv].
  rewrite Hv. unfold bestAudioFormat. rewrite Haudio. simpl.
  split; reflexivity.
Qed.

Lemma no_audio_format_never_tries_combined_witness :
  settled (downloadVideo "dQw4w9WgXcQ" defaultOptions 2 1700000000000
             (fun _ => mkAttemptEnv (Resolve [combined360; video1080mp4])
                         quietSeparate quietSingle) [])
  = Reject "No suitable audio-only format found" /\
  trace (downloadVideo "dQw4w9WgXcQ" defaultOptions 2 1700000000000
           (fun _ => mkAttemptEnv (Resolve [combined360; video1080mp4])
                       quietSeparate quietSingle) [])
  = [EvAttempt 1; EvBackoff 2000; EvAttempt 2].
Proof.
  apply (no_audio_format_never_tries_combined "dQw4w9WgXcQ" defaultOptions 2
           1700000000000
           (fun _ => mkAttemptEnv (Resolve [combined360; video1080mp4])
                       quietSeparate quietSingle)
           [combined360; video1080mp4] []).
  - reflexivity.
  - exists video1080mp4. split; [simpl; auto|reflexivity].
  - reflexivity.
  - reflexivity.
  - lia.
Defined.

(** X5: when every catalog the attempts see holds neither a combined nor a
    video-only format, the acquisition rejects with the no-suitable-format
    error after [maxRetries] attempts without requesting anything, and the
    download route tells the user that live streams cannot be downloaded:
    the error text contains "live", which the route tests before
    "No suitable". *)
Theorem no_formats_reported_as_live_stream
    (videoId : string) (options : VideoDownloadOptions) (maxRetries : nat)
    (now : Z) (envs : nat -> AttemptEnv) (fs : FS) :
  (forall attempt, exists formats,
     getInfo (envs attempt) = Resolve formats /\
     filterFormats formats videoandaudio = [] /\
     filterFormats formats videoonly = []) ->
  (1 <= maxRetries)%nat ->
  exists msg,
    settled (downloadVideo videoId options maxRetries now envs fs)
    = Reject msg /\
    trace (downloadVideo videoId options maxRetries now envs fs)
    = failures maxRetries maxRetries 1 /\
    Route.downloadErrorMessage msg
    = "Live streams and premieres cannot be downloaded.".
Proof.
  intros Hinfo Hpos. exists noFormatsMessage.
  assert (Hrun :
    settled (downloadVideo videoId options maxRetries now envs fs)
    = Reject noFormatsMessage /\
    trace (downloadVideo videoId options maxRetries now envs fs)
    = failures maxRetries maxRetries 1).
  { unfold downloadVideo. apply retryLoop_failures; [|exact Hpos].
    intros attempt d. unfold attemptOnce.
    match goal with
    | |- context [bind (emit ?e) ?k] =>
        destruct (emit_bind_parts e k d) as (Hs & _ & Ht)
    end.
    rewrite Hs, Ht. clear Hs Ht.
    destruct (Hinfo attempt) as (formats & Hget & Hc & Hv).
    rewrite Hget. unfold choosePlan. rewrite Hc, Hv. simpl.
    split; reflexivity. }
  destruct Hrun as [Hset Htrace].
  split; [exact Hset|]. split; [exact Htrace|].
  vm_compute. reflexivity.
Qed.

Lemma no_formats_reported_as_live_stream_witness :
  exists msg,
    settled (downloadVideo "dQw4w9WgXcQ" defaultOptions 2 1700000000000
               (fun _ => mkAttemptEnv (Resolve [audio160webm])
                           quietSeparate quietSingle) [])
    = Reject msg /\
    trace (downloadVideo "dQw4w9WgXcQ" defaultOptions 2 1700000000000
             (fun _ => mkAttemptEnv (Resolve [audio160webm])
                         quietSeparate quietSingle) [])
    = [EvAttempt 1; EvBackoff 2000; EvAttempt 2] /\
    Route.downloadErrorMessage msg
    = "Live streams and premieres cannot be downloaded.".
Proof.
  apply (no_formats_reported_as_live_stream "dQw4w9WgXcQ" defaultOptions 2
           1700000000000
           (fun _ => mkAttemptEnv (Resolve [audio160webm])
                       quietSeparate quietSingle) []).
  - intros attempt. exists [audio160webm]. repeat split; reflexivity.
  - lia.
Defined.

(** ** Transfers that fail *)

Ltac absent_after_cleanup :=
  unfold directory, settled; break_ifs;
  repeat match goal with
    | H : existsSync (writeFile _ _ _) _ = false |- _ =>
        rewrite existsSync_writeFile, String.eqb_refl, orb_true_r in H;
        discriminate H
    end;
  rewrite ?existsSync_unlinkSync, ?String.eqb_refl, ?andb_false_r;
  split; eauto.

(** X6: a transfer that does not finish rejects.  When its stream failed
    once the file was there, its write stream failed, or the timer fired,
    no file is left under the destination name, for the transfers of the
    separate-stream path and for the combined-stream download alike.  When
    the stream of a combined-stream download errs before the file has been
    opened (as when ytdl finds no format for the options of the retry), the
    rejected download leaves its output file behind. *)
Theorem failed_transfer_leaves_file_when_overtaken
    (n : string) (itg now : Z) (o : StreamOutcome)
    (out : string) (opts : StreamOptions) (hasOnProgress : bool)
    (env : SingleEnv) (fs : FS) :
  (o <> StreamFinished ->
   openedBeforeSettling o = true ->
   existsSync (directory (downloadStream n itg now o fs)) n = false /\
   exists msg, settled (downloadStream n itg now o fs) = Reject msg) /\
  (outcome env <> StreamFinished ->
   existsSync (directory (downloadSingle out opts hasOnProgress env fs)) out
   = negb (openedBeforeSettling (outcome env)) /\
   exists msg,
     settled (downloadSingle out opts hasOnProgress env fs) = Reject msg).
Proof.
  split.
  - intros Ho Hopened.
    unfold downloadStream, createWriteStream, bind, emit, modify, throw, ret,
      cleanupFile.
    destruct o; [congruence| | | |discriminate Hopened];
      absent_after_cleanup.
  - intros Henv.
    unfold downloadSingle, createWriteStream, pendingOpen, bind, emit,
      emitAll, modify, throw, ret, cleanupFile.
    destruct (outcome env); [congruence| | | |].
    1,2,3: absent_after_cleanup.
    unfold directory, settled; break_ifs;
      rewrite existsSync_writeFile, String.eqb_refl, orb_true_r;
      split; eauto.
Qed.

Lemma failed_transfer_leaves_file_when_overtaken_witness :
  (existsSync
     (directory (downloadStream "dQw4w9WgXcQ_video_1700000000001.mp4" 137
                   1700000000001 TimedOut []))
     "dQw4w9WgXcQ_video_1700000000001.mp4" = false /\
   exists msg,
     settled (downloadStream "dQw4w9WgXcQ_video_1700000000001.mp4" 137
                1700000000001 TimedOut []) = Reject msg) /\
  (existsSync
     (directory (downloadSingle "dQw4w9WgXcQ_1700000000000.mp4" simplified
                   false
                   (mkSingleEnv 1700000000000 []
                      (StreamFailedEarly "No such format found: lowest"))
                   []))
     "dQw4w9WgXcQ_1700000000000.mp4" = true /\
   exists msg,
     settled (downloadSingle "dQw4w9WgXcQ_1700000000000.mp4" simplified
                false
                (mkSingleEnv 1700000000000 []
                   (StreamFailedEarly "No such format found: lowest")) [])
     = Reject msg).
Proof.
  destruct (failed_transfer_leaves_file_when_overtaken
              "dQw4w9WgXcQ_video_1700000000001.mp4" 137 1700000000001 TimedOut
              "dQw4w9WgXcQ_1700000000000.mp4" simplified false
              (mkSingleEnv 1700000000000 []
                 (StreamFailedEarly "No such format found: lowest")) [])
    as [Hstream Hsingle].
  split.
  - apply Hstream; [discriminate|reflexivity].
  - apply Hsingle. discriminate.
Defined.

(** ** The lookup *)

Lemma existsSync_In (fs : FS) (n : string) :
  existsSync fs n = true <-> exists f, In f fs /\ name f = n.
Proof.
  unfold existsSync. rewrite existsb_exists.
  split; intros (f & Hin & Hname); exists f; split; auto.
  - apply String.eqb_eq. exact Hname.
  - apply String.eqb_eq. exact Hname.
Qed.

(** X7: a lookup that returns a path returns the path of a listed file
    whose name starts with the id and which is younger than two hours, and
    it leaves the directory as it was. *)
Theorem lookup_hit_is_listed_and_young
    (now : Z) (videoId : string) (fs : FS) (p : string) :
  settled (hasVideoFile now videoId fs) = Resolve (Some p) ->
  directory (hasVideoFile now videoId fs) = fs /\
  exists f,
    In f fs /\ p = pathJoin tempDir (name f) /\
    startsWith (name f) videoId = true /\
    now - mtime f < maxFileAge.
Proof.
  unfold hasVideoFile.
  destruct (find (fun f => startsWith (name f) videoId) fs) as [f|] eqn:Hfind.
  - apply find_some in Hfind. destruct Hfind as [Hin Hstarts].
    destruct (now - mtime f <? maxFileAge) eqn:Hyoung.
    + intros Hset. injection Hset as <-.
      split; [reflexivity|]. exists f. apply Z.ltb_lt in Hyoung. auto.
    + destruct (cleanupFile (name f) fs) as [[r fs'] t].
      intros Hset. discriminate Hset.
  - intros Hset. discriminate Hset.
Qed.

Lemma lookup_hit_is_listed_and_young_witness :
  directory
    (hasVideoFile 1700000001000 "dQw4w9WgXcQ"
       [mkFile "other_1.mp4" 0;
        mkFile "dQw4w9WgXcQ_1700000000000.mp4" 1700000000900]) =
  [mkFile "other_1.mp4" 0;
   mkFile "dQw4w9WgXcQ_1700000000000.mp4" 1700000000900] /\
  exists f,
    In f [mkFile "other_1.mp4" 0;
          mkFile "dQw4w9WgXcQ_1700000000000.mp4" 1700000000900] /\
    "tmp/videos/dQw4w9WgXcQ_1700000000000.mp4" = pathJoin tempDir (name f) /\
    startsWith (name f) "dQw4w9WgXcQ" = true /\
    1700000001000 - mtime f < maxFileAge.
Proof.
  apply (lookup_hit_is_listed_and_young 1700000001000 "dQw4w9WgXcQ"
           [mkFile "other_1.mp4" 0;
            mkFile "dQw4w9WgXcQ_1700000000000.mp4" 1700000000900]
           "tmp/videos/dQw4w9WgXcQ_1700000000000.mp4").
  vm_compute. reflexivity.
Defined.

Lemma In_unlinkSync (fs : FS) (n : string) (g : File) :
  In g fs -> name g <> n -> In g (unlinkSync fs n).
Proof.
  intros Hin Hne. unfold unlinkSync. apply filter_In. split; [exact Hin|].
  apply negb_true_iff, String.eqb_neq. exact Hne.
Qed.

(** X8: the lookup looks at the first listed match only. When that file is
    two hours old or older, the lookup removes it and returns nothing,
    although a younger file for the same id is in the directory; that file
    stays where it is. *)
Theorem expired_first_match_hides_younger
    (now : Z) (videoId : string) (fs : FS) (old young : File) :
  find (fun f => startsWith (name f) videoId) fs = Some old ->
  maxFileAge <= now - mtime old ->
  In young fs ->
  startsWith (name young) videoId = true ->
  now - mtime young < maxFileAge ->
  name young <> name old ->
  settled (hasVideoFile now videoId fs) = Resolve None /\
  existsSync (directory (hasVideoFile now videoId fs)) (name old) = false /\
  In young (directory (hasVideoFile now videoId fs)).
Proof.
  intros Hfind Hold Hin _ _ Hne. unfold hasVideoFile. rewrite Hfind.
  apply Z.ltb_ge in Hold. rewrite Hold.
  assert (Hexists : existsSync fs (name old) = true).
  { apply existsSync_In. exists old. apply find_some in Hfind. tauto. }
  unfold cleanupFile. rewrite Hexists. unfold settled, directory. simpl.
  split; [reflexivity|]. split.
  - rewrite existsSync_unlinkSync, String.eqb_refl. apply andb_false_r.
  - apply In_unlinkSync; assumption.
Qed.

Lemma expired_first_match_hides_younger_witness :
  settled
    (hasVideoFile 1700007300000 "dQw4w9WgXcQ"
       [mkFile "dQw4w9WgXcQ_1700000000000.mp4" 1700000000000;
        mkFile "dQw4w9WgXcQ_1700007000000.mp4" 1700007000000])
  = Resolve None /\
  existsSync
    (directory
       (hasVideoFile 1700007300000 "dQw4w9WgXcQ"
          [mkFile "dQw4w9WgXcQ_1700000000000.mp4" 1700000000000;
           mkFile "dQw4w9WgXcQ_1700007000000.mp4" 1700007000000]))
    "dQw4w9WgXcQ_1700000000000.mp4" = false /\
  In (mkFile "dQw4w9WgXcQ_1700007000000.mp4" 1700007000000)
    (directory
       (hasVideoFile 1700007300000 "dQw4w9WgXcQ"
          [mkFile "dQw4w9WgXcQ_1700000000000.mp4" 1700000000000;
           mkFile "dQw4w9WgXcQ_1700007000000.mp4" 1700007000000])).
Proof.
  apply (expired_first_match_hides_younger 1700007300000 "dQw4w9WgXcQ"
           [mkFile "dQw4w9WgXcQ_1700000000000.mp4" 1700000000000;
            mkFile "dQw4w9WgXcQ_1700007000000.mp4" 1700007000000]
           (mkFile "dQw4w9WgXcQ_1700000000000.mp4" 1700000000000)
           (mkFile "dQw4w9WgXcQ_1700007000000.mp4" 1700007000000)).
  - reflexivity.
  - vm_compute. discriminate.
  - right. left. reflexivity.
  - reflexivity.
  - vm_compute. reflexivity.
  - simpl. discriminate.
Defined.

(** ** An acquisition followed by a lookup *)

Lemma numToString_head (z : Z) :
  exists c rest,
    numToString z = String c rest /\ c <> "v"%char /\ c <> "a"%char.
Proof.
  unfold numToString. destruct (N.to_uint (Z.to_N z)); simpl;
    eexists; eexists; (split; [reflexivity|split; discriminate]).
Qed.

Lemma fileName_not_tempVideoName (videoId : string) (t t' : Z) (f : Format) :
  fileName videoId t f <> tempVideoName videoId t'.
Proof.
  unfold fileName, tempVideoName. intros H.
  apply append_cancel_l in H. simpl in H.
  destruct (numToString_head t) as (c & rest & Hn & Hv & _).
  rewrite Hn in H. simpl in H. injection H as Hc _. congruence.
Qed.

Lemma fileName_not_tempAudioName (videoId : string) (t t' : Z) (f : Format) :
  fileName videoId t f <> tempAudioName videoId t'.
Proof.
  unfold fileName, tempAudioName. intros H.
  apply append_cancel_l in H. simpl in H.
  destruct (numToString_head t) as (c & rest & Hn & _ & Ha).
  rewrite Hn in H. simpl in H. injection H as Hc _. congruence.
Qed.

Lemma startsWith_fileName (videoId : string) (t : Z) (f : Format) :
  startsWith (fileName videoId t f) videoId = true.
Proof. apply prefix_append. Qed.

Lemma find_first_match {A : Type} (p : A -> bool) (l : list A) (x : A) :
  In x l -> p x = true -> exists y, find p l = Some y.
Proof.
  intros Hin Hp. destruct (find p l) as [y|] eqn:Hfind; [eauto|].
  rewrite (find_none _ _ Hfind x Hin) in Hp. discriminate Hp.
Qed.

(** When the only names that start with the id are the output's, the
    output is what the lookup returns. *)
Lemma lookup_finds_output (now : Z) (videoId out : string) (fs : FS) :
  existsSync fs out = true ->
  startsWith out videoId = true ->
  (forall n, existsSync fs n = true -> startsWith n videoId = true ->
             n = out) ->
  (forall f, In f fs -> name f = out -> now - mtime f < maxFileAge) ->
  hasVideoFile now videoId fs =
  (Resolve (Some (pathJoin tempDir out)), fs, []).
Proof.
  intros Hexists Hstarts Honly Hyoung. unfold hasVideoFile.
  apply existsSync_In in Hexists. destruct Hexists as (g & Hg & Hname).
  destruct (find_first_match (fun f => startsWith (name f) videoId) fs g)
    as [f Hfind]; [exact Hg|rewrite Hname; exact Hstarts|].
  rewrite Hfind. apply find_some in Hfind. destruct Hfind as [Hin Hf].
  assert (Hout : name f = out).
  { apply Honly; [|exact Hf]. apply existsSync_In. eauto. }
  pose proof (Hyoung f Hin Hout) as Hlt. apply Z.ltb_lt in Hlt.
  rewrite Hlt, Hout. reflexivity.
Qed.

Ltac present_after_cleanup Hv Ha :=
  unfold directory, settled; break_ifs;
  intros Hset; try discriminate Hset;
  injection Hset as <-; (split; [reflexivity|]);
  rewrite ?existsSync_unlinkSync, ?existsSync_writeFile, ?String.eqb_refl,
    ?orb_true_r, ?(proj2 (String.eqb_neq _ _) Hv),
    ?(proj2 (String.eqb_neq _ _) Ha);
  reflexivity.

Lemma attemptOnce_resolved (videoId out : string) (q : Quality)
    (hasOnProgress : bool) (attempt : nat) (env : AttemptEnv) (fs : FS)
    (p : string) :
  out <> tempVideoName videoId (tVideo (separateEnv env)) ->
  out <> tempAudioName videoId (tAudio (separateEnv env)) ->
  (forall wrote, mergeOutcome (separateEnv env) = Closed 0 wrote ->
                 wrote = true) ->
  settled (attemptOnce videoId out q hasOnProgress attempt env fs)
  = Resolve p ->
  p = pathJoin tempDir out /\
  existsSync
    (directory (attemptOnce videoId out q hasOnProgress attempt env fs)) out
  = true.
Proof.
  intros Hv Ha Hwrote. unfold attemptOnce.
  destruct (getInfo env) as [formats|msg];
    [|unfold bind, emit, throw, settled; simpl; intros H; discriminate H].
  destruct (choosePlan formats q attempt) as [| |o].
  - unfold bind, emit, throw, settled; simpl; intros H; discriminate H.
  - unfold downloadAndMergeStreams, pendingOpens, tryFinally.
    destruct (bestVideoFormat formats) as [bv|];
      [|unfold bind, emit, throw, ret, cleanupFile;
        present_after_cleanup Hv Ha].
    destruct (bestAudioFormat formats) as [ba|];
      [|unfold bind, emit, throw, ret, cleanupFile;
        present_after_cleanup Hv Ha].
    unfold downloadStream, createWriteStream, pendingOpen,
      mergeStreamsWithFFmpeg, leaveOutput, bind, emit, modify, throw, ret,
      cleanupFile.
    destruct (videoOutcome (separateEnv env));
      [|present_after_cleanup Hv Ha ..].
    destruct (audioOutcome (separateEnv env));
      [|present_after_cleanup Hv Ha ..].
    destruct (mergeOutcome (separateEnv env)) as [code wrote|msg|wrote]
      eqn:Hmerge; [|present_after_cleanup Hv Ha ..].
    destruct (code =? 0) eqn:Hcode.
    + apply Z.eqb_eq in Hcode. subst code.
      rewrite (Hwrote wrote eq_refl). present_after_cleanup Hv Ha.
    + destruct wrote; present_after_cleanup Hv Ha.
  - unfold downloadSingle, createWriteStream, pendingOpen, bind, emit,
      emitAll, modify, throw, ret, cleanupFile.
    destruct (outcome (singleEnv env)); present_after_cleanup Hv Ha.
Qed.

Lemma retryLoop_resolved (videoId out : string) (q : Quality)
    (hasOnProgress : bool) (maxRetries : nat) (envs : nat -> AttemptEnv)
    (p : string) (remaining : nat) :
  forall (attempt : nat) (lastError : option string) (fs : FS),
    settled (retryLoop videoId out q hasOnProgress maxRetries envs
               remaining attempt lastError fs) = Resolve p ->
    exists a fs0,
      settled (attemptOnce videoId out q hasOnProgress a (envs a) fs0)
      = Resolve p /\
      directory (retryLoop videoId out q hasOnProgress maxRetries envs
                   remaining attempt lastError fs)
      = directory (attemptOnce videoId out q hasOnProgress a (envs a) fs0).
Proof.
  induction remaining as [|remaining IH]; intros attempt lastError fs Hres.
  - discriminate Hres.
  - simpl retryLoop in Hres |- *.
    match goal with
    | |- context [tryCatch ?c ?h fs] =>
        pose proof (tryCatch_parts c h fs) as Hparts
    end.
    destruct (settled (attemptOnce videoId out q hasOnProgress attempt
                         (envs attempt) fs)) as [path|msg1] eqn:Hattempt.
    + destruct Hparts as (Hset & Hdir & _). rewrite Hset in Hres.
      injection Hres as ->. exists attempt, fs. split; assumption.
    + destruct Hparts as (Hset & Hdir & _). rewrite Hset in Hres.
      rewrite Hdir. clear Hset Hdir.
      destruct (attempt <? maxRetries)%nat.
      * match goal with
        | |- context [bind (emit ?e) ?k ?d] =>
            destruct (emit_bind_parts e k d) as (Hs & Hd & _)
        end.
        rewrite Hs in Hres. rewrite Hd. apply (IH _ _ _ Hres).
      * rewrite ret_bind_parts in Hres |- *. apply (IH _ _ _ Hres).
Qed.

(** X9: a successful call of [downloadVideo] is found by the next lookup,
    provided no stream of a separate-stream transfer erred before its file
    was opened.  Starting from a directory that holds no file for the id,
    if the call resolves with a path (ffmpeg having written its output
    whenever it exited with 0), then a lookup for the same id made while
    the files are younger than two hours returns exactly that path and
    changes nothing. *)
Theorem lookup_after_acquisition_returns_its_path
    (dir : Result unit) (videoId : string) (options : VideoDownloadOptions)
    (maxRetries : nat) (now later : Z) (envs : nat -> AttemptEnv) (fs : FS)
    (p : string) :
  (forall f, In f fs -> startsWith (name f) videoId = false) ->
  (forall attempt,
     openedBeforeSettling (videoOutcome (separateEnv (envs attempt))) = true /\
     openedBeforeSettling (audioOutcome (separateEnv (envs attempt))) = true) ->
  (forall attempt wrote,
     mergeOutcome (separateEnv (envs attempt)) = Closed 0 wrote ->
     wrote = true) ->
  settled (downloadVideoCall dir videoId options maxRetries now envs fs)
  = Resolve p ->
  (forall f,
     In f (directory
             (downloadVideoCall dir videoId options maxRetries now envs fs)) ->
     later - mtime f < maxFileAge) ->
  hasVideoFile later videoId
    (directory (downloadVideoCall dir videoId options maxRetries now envs fs))
  = (Resolve (Some p),
     directory (downloadVideoCall dir videoId options maxRetries now envs fs),
     []).
Proof.
  intros Hfresh Hopened Hwrote Hres Hyoung.
  destruct dir as [u|msg]; [|discriminate Hres].
  assert (Hout :
    p = pathJoin tempDir (fileName videoId now (formatOf options)) /\
    existsSync
      (directory
         (downloadVideoCall (Resolve u) videoId options maxRetries now envs
            fs))
      (fileName videoId now (formatOf options)) = true).
  { rewrite downloadVideoCall_created in Hres |- *.
    unfold downloadVideo in Hres |- *.
    destruct (retryLoop_resolved _ _ _ _ _ _ _ _ _ _ _ Hres)
      as (a & fs0 & Hatt & Hdir).
    rewrite Hdir.
    apply (attemptOnce_resolved _ _ _ _ _ _ _ _
             (fileName_not_tempVideoName _ _ _ _)
             (fileName_not_tempAudioName _ _ _ _)
             (Hwrote a) Hatt). }
  destruct Hout as [-> Hexists].
  apply lookup_finds_output.
  - exact Hexists.
  - apply startsWith_fileName.
  - intros n Hn Hstarts.
    destruct (downloadVideoCall_leaves _ _ _ _ _ _ _ _ Hn)
      as [Heq|[Hold|(attempt & _ & Hin)]].
    + exact Heq.
    + apply existsSync_In in Hold. destruct Hold as (f & Hin & Hname).
      rewrite <- Hname, (Hfresh f Hin) in Hstarts. discriminate Hstarts.
    + destruct (Hopened attempt) as [Hvideo Haudio].
      unfold overtakenOpens in Hin.
      destruct (videoOutcome (separateEnv (envs attempt)));
        try destruct Hin; try discriminate Hvideo.
      destruct (audioOutcome (separateEnv (envs attempt)));
        try destruct Hin; try discriminate Haudio.
  - intros f Hin _. apply Hyoung. exact Hin.
Qed.

Lemma lookup_after_acquisition_returns_its_path_witness :
  hasVideoFile 1700000013000 "dQw4w9WgXcQ"
    (directory
       (downloadVideoCall (Resolve tt) "dQw4w9WgXcQ" defaultOptions 3
          1700000000000 firstTransferFails []))
  = (Resolve (Some "tmp/videos/dQw4w9WgXcQ_1700000000000.mp4"),
     directory
       (downloadVideoCall (Resolve tt) "dQw4w9WgXcQ" defaultOptions 3
          1700000000000 firstTransferFails []), []).
Proof.
  apply (lookup_after_acquisition_returns_its_path (Resolve tt) "dQw4w9WgXcQ"
           defaultOptions 3 1700000000000 1700000013000 firstTransferFails
           [] "tmp/videos/dQw4w9WgXcQ_1700000000000.mp4").
  - intros f [].
  - intros attempt.
    destruct attempt as [|[|attempt]]; split; reflexivity.
  - intros attempt wrote H.
    destruct attempt as [|[|attempt]]; simpl in H; injection H as <-;
      reflexivity.
  - vm_compute. reflexivity.
  - intros f Hin. vm_compute in Hin. destruct Hin as [<-|[]].
    vm_compute. reflexivity.
Defined.

(** ** A merge that fails after writing *)

Lemma In_unlinkSync_before (fs : FS) (n : string) (f : File) :
  In f (unlinkSync fs n) -> In f fs.
Proof. unfold unlinkSync. intros H. apply filter_In in H. tauto. Qed.

Lemma writeFile_mtime (fs : FS) (n : string) (t : Z) (f : File) :
  In f (writeFile fs n t) -> name f = n -> mtime f = t.
Proof.
  unfold writeFile. destruct (existsSync fs n) eqn:Hexists; intros Hin Hname.
  - apply in_map_iff in Hin. destruct Hin as (x & Hx & _).
    destruct (name x =? n)%string eqn:Hxn.
    + subst f. reflexivity.
    + subst f. apply String.eqb_neq in Hxn. congruence.
  - apply in_app_or in Hin. destruct Hin as [Hin|[<-|[]]]; [|reflexivity].
    assert (Habs : existsSync fs n = true)
      by (apply existsSync_In; eauto).
    congruence.
Qed.

(** X10: the merge step does not remove its output when it fails. If
    ffmpeg exits with a non-zero code after both transfers finished and
    has left an output file, the separate-stream acquisition rejects, the
    two temporary inputs are removed, but the output file stays; a later
    lookup for the id (in a directory that held no other file for it, and
    within two hours of the merge) returns that file as the cached
    source. *)
Theorem failed_merge_output_is_served
    (videoId : string) (formats : list videoFormat) (now later : Z)
    (fmt : Format) (env : SeparateEnv) (fs : FS)
    (bestVideo bestAudio : videoFormat) (code : Z) :
  (forall f, In f fs -> startsWith (name f) videoId = false) ->
  bestVideoFormat formats = Some bestVideo ->
  bestAudioFormat formats = Some bestAudio ->
  videoOutcome env = StreamFinished ->
  audioOutcome env = StreamFinished ->
  mergeOutcome env = Closed code true ->
  code <> 0 ->
  later - tMerge env < maxFileAge ->
  settled
    (downloadAndMergeStreams videoId formats (fileName videoId now fmt)
       env fs)
  = Reject ("FFmpeg merge failed with code " ++ numToString code)%string /\
  hasVideoFile later videoId
    (directory
       (downloadAndMergeStreams videoId formats (fileName videoId now fmt)
          env fs))
  = (Resolve (Some (pathJoin tempDir (fileName videoId now fmt))),
     directory
       (downloadAndMergeStreams videoId formats (fileName videoId now fmt)
          env fs), []).
Proof.
  intros Hfresh Hbv Hba Hvo Hao Hmo Hcode Hlater.
  pose proof (fileName_not_tempVideoName videoId now (tVideo env) fmt) as Hv.
  pose proof (fileName_not_tempAudioName videoId now (tAudio env) fmt) as Ha.
  apply Z.eqb_neq in Hcode.
  assert (Hrun :
    settled
      (downloadAndMergeStreams videoId formats (fileName videoId now fmt)
         env fs)
    = Reject ("FFmpeg merge failed with code " ++ numToString code)%string /\
    existsSync
      (directory
         (downloadAndMergeStreams videoId formats (fileName videoId now fmt)
            env fs)) (fileName videoId now fmt) = true /\
    forall f,
      In f (directory
              (downloadAndMergeStreams videoId formats
                 (fileName videoId now fmt) env fs)) ->
      name f = fileName videoId now fmt -> mtime f = tMerge env).
  { unfold downloadAndMergeStreams, pendingOpens, tryFinally.
    rewrite Hbv, Hba.
    unfold downloadStream, createWriteStream, pendingOpen,
      mergeStreamsWithFFmpeg, leaveOutput, bind, emit, modify, throw, ret,
      cleanupFile.
    rewrite Hvo, Hao, Hmo, Hcode.
    unfold directory, settled; break_ifs;
      (split; [reflexivity|]); split;
      try (rewrite ?existsSync_unlinkSync, ?existsSync_writeFile,
             ?String.eqb_refl, ?orb_true_r,
             ?(proj2 (String.eqb_neq _ _) Hv),
             ?(proj2 (String.eqb_neq _ _) Ha); reflexivity);
      intros f Hin Hname;
      repeat match type of Hin with
        | In _ (unlinkSync _ _) => apply In_unlinkSync_before in Hin
        end;
      exact (writeFile_mtime _ _ _ _ Hin Hname). }
  destruct Hrun as (Hset & Hexists & Hmtime).
  split; [exact Hset|].
  apply lookup_finds_output.
  - exact Hexists.
  - apply startsWith_fileName.
  - intros n Hn Hstarts.
    destruct (addsOnly_downloadAndMergeStreams _ _ _ _ fs n Hn)
      as [[Heq|Hover]|Hold]; [symmetry; exact Heq| |].
    + unfold overtakenOpens in Hover. rewrite Hvo, Hao in Hover.
      destruct Hover.
    + apply existsSync_In in Hold. destruct Hold as (f & Hin & Hname).
      rewrite <- Hname, (Hfresh f Hin) in Hstarts. discriminate Hstarts.
  - intros f Hin Hname. rewrite (Hmtime f Hin Hname). exact Hlater.
Qed.

Lemma failed_merge_output_is_served_witness :
  settled
    (downloadAndMergeStreams "dQw4w9WgXcQ" catalogHD
       (fileName "dQw4w9WgXcQ" 1700000000000 mp4)
       (mkSeparateEnv 1700000003000 1700000003001 1700000012000
          StreamFinished StreamFinished (Closed 1 true)) [])
  = Reject "FFmpeg merge failed with code 1" /\
  hasVideoFile 1700000013000 "dQw4w9WgXcQ"
    (directory
       (downloadAndMergeStreams "dQw4w9WgXcQ" catalogHD
          (fileName "dQw4w9WgXcQ" 1700000000000 mp4)
          (mkSeparateEnv 1700000003000 1700000003001 1700000012000
             StreamFinished StreamFinished (Closed 1 true)) []))
  = (Resolve (Some "tmp/videos/dQw4w9WgXcQ_1700000000000.mp4"),
     directory
       (downloadAndMergeStreams "dQw4w9WgXcQ" catalogHD
          (fileName "dQw4w9WgXcQ" 1700000000000 mp4)
          (mkSeparateEnv 1700000003000 1700000003001 1700000012000
             StreamFinished StreamFinished (Closed 1 true)) []), []).
Proof.
  apply (failed_merge_output_is_served "dQw4w9WgXcQ" catalogHD
           1700000000000 1700000013000 mp4
           (mkSeparateEnv 1700000003000 1700000003001 1700000012000
              StreamFinished StreamFinished (Closed 1 true)) []
           video1080mp4 audio160webm 1).
  - intros f [].
  - reflexivity.
  - reflexivity.
  - reflexivity.
  - reflexivity.
  - reflexivity.
  - discriminate.
  - vm_compute. reflexivity.
Defined.

(** ** The sweeps *)

Lemma statSync_unique (before after : FS) (f : File) :
  ~ In (name f) (map name before) ->
  statSync (before ++ f :: after) (name f) = Some f.
Proof.
  unfold statSync. induction before as [|b before IH]; intros Hnot; simpl.
  - rewrite String.eqb_refl. reflexivity.
  - destruct (name b =? name f)%string eqn:Hb.
    + apply String.eqb_eq in Hb. exfalso. apply Hnot. left. exact Hb.
    + apply IH. intros Hin. apply Hnot. right. exact Hin.
Qed.

Lemma unlinkSync_absent (fs : FS) (n : string) :
  ~ In n (map name fs) -> unlinkSync fs n = fs.
Proof.
  unfold unlinkSync. induction fs as [|b fs IH]; intros Hnot; simpl;
    [reflexivity|].
  destruct (name b =? n)%string eqn:Hb.
  - apply String.eqb_eq in Hb. exfalso. apply Hnot. left. exact Hb.
  - simpl. f_equal. apply IH. intros Hin. apply Hnot. right. exact Hin.
Qed.

Lemma unlinkSync_unique (before after : FS) (f : File) :
  NoDup (map name (before ++ f :: after)) ->
  unlinkSync (before ++ f :: after) (name f) = before ++ after.
Proof.
  intros Hnodup. rewrite map_app in Hnodup. simpl in Hnodup.
  pose proof (NoDup_remove_2 _ _ _ Hnodup) as Hnot.
  assert (Hb : ~ In (name f) (map name before))
    by (intros H; apply Hnot, in_or_app; left; exact H).
  assert (Ha : ~ In (name f) (map name after))
    by (intros H; apply Hnot, in_or_app; right; exact H).
  unfold unlinkSync. rewrite filter_app. simpl.
  rewrite String.eqb_refl. simpl.
  fold (unlinkSync before (name f)). fold (unlinkSync after (name f)).
  rewrite (unlinkSync_absent _ _ Hb), (unlinkSync_absent _ _ Ha).
  reflexivity.
Qed.

Lemma sweepLoop_kept (maxAge : Z) (nowAt : nat -> Z) (after : FS) :
  forall (before : FS) (i : nat),
    NoDup (map name (before ++ after)) ->
    sweepLoop maxAge nowAt i (map name after) (before ++ after) =
    (Resolve tt, before ++ kept maxAge nowAt i after, []).
Proof.
  induction after as [|f after IH]; intros before i Hnodup.
  - reflexivity.
  - simpl sweepLoop. simpl kept.
    assert (Hnot : ~ In (name f) (map name before)).
    { rewrite map_app in Hnodup. simpl in Hnodup.
      pose proof (NoDup_remove_2 _ _ _ Hnodup) as Hnot.
      intros H. apply Hnot, in_or_app. left. exact H. }
    rewrite (statSync_unique before after f Hnot).
    destruct (maxAge <? nowAt i - mtime f).
    + unfold bind, cleanupFile.
      assert (Hexists : existsSync (before ++ f :: after) (name f) = true).
      { apply existsSync_In. exists f. split; [|reflexivity].
        apply in_or_app. right. left. reflexivity. }
      rewrite Hexists, (unlinkSync_unique before after f Hnodup).
      rewrite IH; [reflexivity|].
      rewrite map_app in Hnodup |- *. simpl in Hnodup.
      exact (NoDup_remove_1 _ _ _ Hnodup).
    + rewrite ret_bind_parts.
      replace (before ++ f :: after) with ((before ++ [f]) ++ after)
        by (rewrite <- app_assoc; reflexivity).
      rewrite IH; [rewrite <- app_assoc; reflexivity|].
      rewrite <- app_assoc. exact Hnodup.
Qed.

Lemma kept_In (maxAge : Z) (nowAt : nat -> Z) (fs : FS) (f : File) :
  forall i : nat,
    In f (kept maxAge nowAt i fs) ->
    In f fs /\ exists j, nowAt j - mtime f <= maxAge.
Proof.
  induction fs as [|g fs IH]; intros i Hin; [destruct Hin|].
  simpl in Hin. destruct (maxAge <? nowAt i - mtime g) eqn:Hold.
  - destruct (IH _ Hin) as [H1 H2]. split; [right; exact H1|exact H2].
  - destruct Hin as [<-|Hin].
    + split; [left; reflexivity|]. exists i. apply Z.ltb_ge. exact Hold.
    + destruct (IH _ Hin) as [H1 H2]. split; [right; exact H1|exact H2].
Qed.

Lemma In_kept (maxAge : Z) (nowAt : nat -> Z) (fs : FS) (f : File) :
  (forall j, nowAt j - mtime f <= maxAge) ->
  forall i : nat, In f fs -> In f (kept maxAge nowAt i fs).
Proof.
  intros Hyoung. induction fs as [|g fs IH]; intros i Hin; [destruct Hin|].
  simpl. destruct Hin as [->|Hin].
  - pose proof (Hyoung i) as Hy. apply Z.ltb_ge in Hy. rewrite Hy.
    left. reflexivity.
  - destruct (maxAge <? nowAt i - mtime g); [|right]; apply IH; exact Hin.
Qed.

(** X11: a sweep ([cleanupOldFiles] of either service) over a directory of
    distinctly named files ends normally, and if the clock stays between
    [t0] and [t1] while it runs, every file it leaves was there before and
    is at most [maxFileAge] old at [t0], and every file that is at most
    [maxFileAge] old at [t1] is left in place. A file of exactly
    [maxFileAge] is kept. *)
Theorem sweep_removes_only_the_old
    (maxAge : Z) (nowAt : nat -> Z) (t0 t1 : Z) (fs : FS) :
  NoDup (map name fs) ->
  (forall i, t0 <= nowAt i <= t1) ->
  settled (cleanupOldFiles maxAge nowAt fs) = Resolve tt /\
  (forall f, In f (directory (cleanupOldFiles maxAge nowAt fs)) ->
             In f fs /\ t0 - mtime f <= maxAge) /\
  (forall f, In f fs -> t1 - mtime f <= maxAge ->
             In f (directory (cleanupOldFiles maxAge nowAt fs))).
Proof.
  intros Hnodup Hclock.
  assert (Hrun : cleanupOldFiles maxAge nowAt fs =
                 (Resolve tt, kept maxAge nowAt 0 fs, [])).
  { unfold cleanupOldFiles, tryCatch.
    pose proof (sweepLoop_kept maxAge nowAt fs [] 0 Hnodup) as Hloop.
    simpl in Hloop. rewrite Hloop. reflexivity. }
  rewrite Hrun. unfold settled, directory. simpl.
  split; [reflexivity|]. split.
  - intros f Hin. destruct (kept_In _ _ _ _ _ Hin) as [Hfs [j Hj]].
    split; [exact Hfs|]. destruct (Hclock j). lia.
  - intros f Hin Hyoung. apply In_kept; [|exact Hin].
    intros j. destruct (Hclock j). lia.
Qed.

Lemma sweep_removes_only_the_old_witness :
  settled
    (cleanupOldFiles maxFileAge (fun i => 1700007200000 + Z.min (Z.of_nat i) 2)
       [mkFile "a_1.mp4" 1699999999999; mkFile "b_2.mp4" 1700000000000;
        mkFile "c_3.mp4" 1700007000000]) = Resolve tt /\
  (forall f,
     In f (directory
             (cleanupOldFiles maxFileAge
                (fun i => 1700007200000 + Z.min (Z.of_nat i) 2)
                [mkFile "a_1.mp4" 1699999999999;
                 mkFile "b_2.mp4" 1700000000000;
                 mkFile "c_3.mp4" 1700007000000])) ->
     In f [mkFile "a_1.mp4" 1699999999999; mkFile "b_2.mp4" 1700000000000;
           mkFile "c_3.mp4" 1700007000000] /\
     1700007200000 - mtime f <= maxFileAge) /\
  (forall f,
     In f [mkFile "a_1.mp4" 1699999999999; mkFile "b_2.mp4" 1700000000000;
           mkFile "c_3.mp4" 1700007000000] ->
     1700007200002 - mtime f <= maxFileAge ->
     In f (directory
             (cleanupOldFiles maxFileAge
                (fun i => 1700007200000 + Z.min (Z.of_nat i) 2)
                [mkFile "a_1.mp4" 1699999999999;
                 mkFile "b_2.mp4" 1700000000000;
                 mkFile "c_3.mp4" 1700007000000]))).
Proof.
  apply (sweep_removes_only_the_old maxFileAge
           (fun i => 1700007200000 + Z.min (Z.of_nat i) 2) 1700007200000
           1700007200002).
  - simpl. repeat constructor; simpl; intuition discriminate.
  - intros i. lia.
Defined.

(** ** File names of crops *)

Lemma safe_not_space (c : ascii) :
  isSafeChar c = true -> Crop.isSpace c = false.
Proof.
  destruct c as [[] [] [] [] [] [] [] []]; vm_compute; congruence.
Qed.

Lemma kept_not_space_safe (c : ascii) :
  Crop.keptChar c = true -> Crop.isSpace c = false -> isSafeChar c = true.
Proof.
  destruct c as [[] [] [] [] [] [] [] []]; vm_compute; congruence.
Qed.

Lemma safe_kept (c : ascii) : isSafeChar c = true -> Crop.keptChar c = true.
Proof.
  destruct c as [[] [] [] [] [] [] [] []]; vm_compute; congruence.
Qed.

Lemma removeSpecial_kept (s : string) :
  allChars Crop.keptChar (Crop.removeSpecial s) = true.
Proof.
  induction s as [|c s IH]; simpl; [reflexivity|].
  destruct (Crop.keptChar c) eqn:Hc; simpl; [rewrite Hc|]; exact IH.
Qed.

Lemma collapseSpaces_safe (s : string) :
  allChars Crop.keptChar s = true ->
  forall inRun : bool,
    allChars isSafeChar (Crop.collapseSpaces inRun s) = true.
Proof.
  induction s as [|c s IH]; intros Hkept inRun; simpl; [reflexivity|].
  simpl in Hkept. apply andb_true_iff in Hkept. destruct Hkept as [Hc Hs].
  destruct (Crop.isSpace c) eqn:Hspace.
  - destruct inRun; simpl; apply IH; exact Hs.
  - simpl. rewrite (kept_not_space_safe c Hc Hspace). apply IH. exact Hs.
Qed.

Lemma substring_prefix_all (p : ascii -> bool) (n : nat) :
  forall s : string,
    allChars p s = true -> allChars p (String.substring 0 n s) = true.
Proof.
  induction n as [|n IH]; intros s Hs; destruct s as [|c s]; simpl; auto.
  simpl in Hs. apply andb_true_iff in Hs. destruct Hs as [Hc Hs].
  rewrite Hc. apply IH. exact Hs.
Qed.

Lemma substring_prefix_length (n : nat) :
  forall s : string, (String.length (String.substring 0 n s) <= n)%nat.
Proof.
  induction n as [|n IH]; intros s; destruct s as [|c s]; simpl; try lia.
  specialize (IH s). lia.
Qed.

Lemma substring_prefix_whole (n : nat) :
  forall s : string,
    (String.length s <= n)%nat -> String.substring 0 n s = s.
Proof.
  induction n as [|n IH]; intros s Hlen; destruct s as [|c s]; simpl in *;
    try reflexivity; try lia.
  f_equal. apply IH. lia.
Qed.

Lemma sanitizeFilename_length (filename : string) :
  (String.length (Crop.sanitizeFilename filename) <= 50)%nat.
Proof. unfold Crop.sanitizeFilename. apply substring_prefix_length. Qed.

Lemma sanitizeFilename_safe (filename : string) :
  allChars isSafeChar (Crop.sanitizeFilename filename) = true.
Proof.
  unfold Crop.sanitizeFilename.
  apply substring_prefix_all, collapseSpaces_safe, removeSpecial_kept.
Qed.

(** X12: whatever the title, the sanitized name has at most 50 characters
    and consists of letters, digits, [-] and [_] only: no white space, no
    dot and no path separator reaches the name of the output file. *)
Theorem sanitized_name_is_short_and_safe (filename : string) :
  (String.length (Crop.sanitizeFilename filename) <= 50)%nat /\
  allChars isSafeChar (Crop.sanitizeFilename filename) = true.
Proof.
  split; [apply sanitizeFilename_length|apply sanitizeFilename_safe].
Qed.

Lemma removeSpecial_safe (s : string) :
  allChars isSafeChar s = true -> Crop.removeSpecial s = s.
Proof.
  induction s as [|c s IH]; simpl; intros Hs; [reflexivity|].
  apply andb_true_iff in Hs. destruct Hs as [Hc Hs].
  rewrite (safe_kept c Hc), (IH Hs). reflexivity.
Qed.

Lemma collapseSpaces_noop (s : string) :
  allChars isSafeChar s = true -> Crop.collapseSpaces false s = s.
Proof.
  induction s as [|c s IH]; simpl; intros Hs; [reflexivity|].
  apply andb_true_iff in Hs. destruct Hs as [Hc Hs].
  rewrite (safe_not_space c Hc), (IH Hs). reflexivity.
Qed.

(** X13: sanitizing is idempotent: a sanitized name is not changed by
    sanitizing it again. *)
Theorem sanitize_twice_is_sanitize (filename : string) :
  Crop.sanitizeFilename (Crop.sanitizeFilename filename) =
  Crop.sanitizeFilename filename.
Proof.
  pose proof (sanitizeFilename_length filename) as Hlen.
  pose proof (sanitizeFilename_safe filename) as Hsafe.
  unfold Crop.sanitizeFilename at 1.
  rewrite (removeSpecial_safe _ Hsafe), (collapseSpaces_noop _ Hsafe).
  apply substring_prefix_whole. exact Hlen.
Qed.

(** ** Files of a crop and of a batch *)

Lemma cropVideo_files
    (inputPath : string) (h : Crop.Highlight) (videoId : string)
    (options : Crop.CropOptions) (env : Crop.CropEnv) (fs : FS) :
  match
    settled (Crop.cropVideo inputPath h videoId options env fs)
  with
  | Resolve r =>
      Crop.outputPath r =
        pathJoin Crop.outputDir
          (Crop.outputFileName videoId h (Crop.timestamp env)
             (Crop.outputFormatOf options)) /\
      Crop.duration r = Crop.endSeconds h - Crop.startSeconds h /\
      directory (Crop.cropVideo inputPath h videoId options env fs) =
        writeFile fs
          (Crop.outputFileName videoId h (Crop.timestamp env)
             (Crop.outputFormatOf options))
          (Crop.timestamp env)
  | Reject _ =>
      forall n,
        existsSync
          (directory (Crop.cropVideo inputPath h videoId options env fs)) n
        = true ->
        existsSync fs n = true
  end.
Proof.
  unfold Crop.cropVideo.
  destruct (Crop.run env _) as [[size|]|msg wrote|];
    unfold bind, emit, modify, ret, throw, cleanupFile, settled, directory;
    try destruct wrote;
    cbn -[existsSync writeFile unlinkSync];
    repeat match goal with
      | |- context [if existsSync ?d ?n then _ else _] =>
          destruct (existsSync d n) eqn:?;
          cbn -[existsSync writeFile unlinkSync]
      end;
    auto;
    intros n Hn;
    rewrite ?existsSync_unlinkSync, ?existsSync_writeFile in Hn.
  - apply andb_true_iff in Hn. destruct Hn as [Hn Hne].
    apply orb_true_iff in Hn. destruct Hn as [Hn|Heq]; [exact Hn|].
    rewrite Heq in Hne. discriminate Hne.
  - apply orb_true_iff in Hn. destruct Hn as [Hn|Heq]; [exact Hn|].
    apply String.eqb_eq in Heq. subst n.
    match goal with
    | H : existsSync (writeFile _ _ _) _ = false |- _ =>
        rewrite existsSync_writeFile, String.eqb_refl, orb_true_r in H;
        discriminate H
    end.
  - apply andb_true_iff in Hn. tauto.
Qed.

Lemma allChars_append (p : ascii -> bool) (a b : string) :
  allChars p (a ++ b)%string = allChars p a && allChars p b.
Proof.
  induction a as [|c a IH]; simpl; [reflexivity|].
  rewrite IH. apply andb_assoc.
Qed.

Lemma allChars_weaken (p q : ascii -> bool) (s : string) :
  (forall c, p c = true -> q c = true) ->
  allChars p s = true -> allChars q s = true.
Proof.
  intros Hpq. induction s as [|c s IH]; simpl; [reflexivity|].
  intros H. apply andb_true_iff in H. destruct H as [Hc Hs].
  rewrite (Hpq c Hc), (IH Hs). reflexivity.
Qed.

Lemma safe_not_separator (c : ascii) :
  isSafeChar c = true -> negb (isSeparator c) = true.
Proof.
  destruct c as [[] [] [] [] [] [] [] []]; vm_compute; congruence.
Qed.

Lemma string_of_uint_plain (d : Decimal.uint) :
  isPlain (NilEmpty.string_of_uint d) = true.
Proof. induction d; simpl; auto. Qed.

Lemma numToString_plain (z : Z) : isPlain (numToString z) = true.
Proof.
  unfold numToString, NilZero.string_of_uint.
  destruct (N.to_uint (Z.to_N z)) eqn:Hd; try reflexivity;
    rewrite <- Hd; apply string_of_uint_plain.
Qed.

(** With a video id and a highlight id that carry no path separator, the
    name of the output file carries none either: it names a file of the
    output directory itself. *)
Lemma outputFileName_plain
    (videoId : string) (h : Crop.Highlight) (t : Z) (f : Crop.OutputFormat) :
  isPlain videoId = true -> isPlain (Crop.id h) = true ->
  isPlain (Crop.outputFileName videoId h t f) = true.
Proof.
  intros Hvideo Hid. unfold Crop.outputFileName, isPlain in *.
  rewrite !allChars_append, Hvideo, Hid.
  rewrite (allChars_weaken _ _ _ safe_not_separator
             (sanitizeFilename_safe (Crop.title h))).
  fold (isPlain (numToString t)). rewrite numToString_plain.
  destruct f; reflexivity.
Qed.

(** X14: for a video id and a highlight id without a path separator, the
    output of a crop is a file of the output directory itself, named from
    the video id, the highlight id, the sanitized title and the clock
    reading.  A crop that fails creates no file: every file in the output
    directory afterwards was there before.  A crop that succeeds reports
    the path of that file, which then exists, and the duration
    [endSeconds - startSeconds]. *)
Theorem failed_crop_creates_no_file
    (inputPath : string) (h : Crop.Highlight) (videoId : string)
    (options : Crop.CropOptions) (env : Crop.CropEnv) (fs : FS) :
  isPlain videoId = true ->
  isPlain (Crop.id h) = true ->
  isPlain (Crop.outputFileName videoId h (Crop.timestamp env)
             (Crop.outputFormatOf options)) = true /\
  match
    settled (Crop.cropVideo inputPath h videoId options env fs)
  with
  | Resolve r =>
      Crop.outputPath r =
        pathJoin Crop.outputDir
          (Crop.outputFileName videoId h (Crop.timestamp env)
             (Crop.outputFormatOf options)) /\
      Crop.duration r = Crop.endSeconds h - Crop.startSeconds h /\
      existsSync
        (directory (Crop.cropVideo inputPath h videoId options env fs))
        (Crop.outputFileName videoId h (Crop.timestamp env)
           (Crop.outputFormatOf options)) = true
  | Reject _ =>
      forall n,
        existsSync
          (directory (Crop.cropVideo inputPath h videoId options env fs)) n
        = true ->
        existsSync fs n = true
  end.
Proof.
  intros Hvideo Hid.
  split; [apply outputFileName_plain; assumption|].
  pose proof (cropVideo_files inputPath h videoId options env fs) as H.
  destruct (settled (Crop.cropVideo inputPath h videoId options env fs))
    as [r|msg]; [|exact H].
  destruct H as (Hpath & Hdur & Hdir).
  split; [exact Hpath|]. split; [exact Hdur|].
  rewrite Hdir, existsSync_writeFile, String.eqb_refl. apply orb_true_r.
Qed.

Lemma failed_crop_creates_no_file_witness :
  existsSync
    [mkFile "dQw4w9WgXcQ_h1_Cold_open_1700000000000.mp4" 1700000000000]
    "dQw4w9WgXcQ_h1_Cold_open_1700000000000.mp4" = true.
Proof.
  destruct (failed_crop_creates_no_file
              "tmp/videos/dQw4w9WgXcQ_1700000000000.mp4" middle "dQw4w9WgXcQ"
              losslessOriginal (secondCropFails 1)
              [mkFile "dQw4w9WgXcQ_h1_Cold_open_1700000000000.mp4"
                 1700000000000]
              eq_refl eq_refl) as [_ Hfiles].
  apply (Hfiles "dQw4w9WgXcQ_h1_Cold_open_1700000000000.mp4").
  vm_compute. reflexivity.
Defined.

Lemma sequentialCrops_files
    (inputPath videoId : string) (options : Crop.CropOptions)
    (envs : nat -> Crop.CropEnv) (highlights : list Crop.Highlight)
    (n : string) :
  forall (i : nat) (fs : FS),
    existsSync
      (last (map directory
               (Crop.sequentialCrops inputPath videoId options envs i
                  highlights fs)) fs) n = true ->
    existsSync fs n = true \/
    exists r,
      In r (Crop.successes
              (Crop.sequentialCrops inputPath videoId options envs i
                 highlights fs)) /\
      Crop.outputPath r = pathJoin Crop.outputDir n.
Proof.
  induction highlights as [|h rest IH]; intros i fs Hn.
  - left. exact Hn.
  - simpl Crop.sequentialCrops in Hn |- *. cbn [map] in Hn.
    rewrite last_cons_default in Hn.
    pose proof (cropVideo_files inputPath h videoId options (envs i) fs)
      as Hcrop.
    unfold Crop.successes. cbn [flat_map].
    fold (Crop.successes
            (Crop.sequentialCrops inputPath videoId options envs (S i) rest
               (directory
                  (Crop.cropVideo inputPath h videoId options (envs i) fs)))).
    destruct (IH _ _ Hn) as [Hmid|(r & Hr & Hpath)].
    + destruct (settled (Crop.cropVideo inputPath h videoId options
                           (envs i) fs)) as [r|msg].
      * destruct Hcrop as (Hpath & _ & Hdir).
        rewrite Hdir, existsSync_writeFile in Hmid.
        apply orb_true_iff in Hmid. destruct Hmid as [Hold|Heq].
        -- left. exact Hold.
        -- right. exists r. split; [left; reflexivity|].
           apply String.eqb_eq in Heq. subst n. exact Hpath.
      * left. apply Hcrop. exact Hmid.
    + right. exists r. split; [|exact Hpath].
      apply in_or_app. right. exact Hr.
Qed.

(** X15: after a batch, every file in the output directory either was
    there before or is the output file of one of the crops the batch
    returns; the crops that failed have left nothing. *)
Theorem batch_leaves_only_returned_outputs
    (inputPath : string) (highlights : list Crop.Highlight)
    (videoId : string) (options : Crop.CropOptions)
    (envs : nat -> Crop.CropEnv) (fs : FS) (n : string) :
  existsSync
    (directory
       (Crop.cropMultipleHighlights inputPath highlights videoId options
          envs fs)) n = true ->
  existsSync fs n = true \/
  exists results r,
    settled
      (Crop.cropMultipleHighlights inputPath highlights videoId options
         envs fs) = Resolve results /\
    In r results /\
    Crop.outputPath r = pathJoin Crop.outputDir n.
Proof.
  unfold Crop.cropMultipleHighlights.
  rewrite cropLoop_accumulates. unfold directory at 1, settled at 1.
  cbn [fst snd]. intros Hn.
  destruct (sequentialCrops_files _ _ _ _ _ _ _ _ Hn)
    as [Hold|(r & Hr & Hpath)]; [left; exact Hold|].
  right. eexists. exists r. split; [reflexivity|]. split; assumption.
Qed.

Lemma batch_leaves_only_returned_outputs_witness :
  existsSync [] "dQw4w9WgXcQ_h3_Finale_1700000200000.mp4" = true \/
  exists results r,
    settled
      (Crop.cropMultipleHighlights
         "tmp/videos/dQw4w9WgXcQ_1700000000000.mp4"
         [opening; middle; finale] "dQw4w9WgXcQ" losslessOriginal
         secondCropFails []) = Resolve results /\
    In r results /\
    Crop.outputPath r =
      pathJoin Crop.outputDir "dQw4w9WgXcQ_h3_Finale_1700000200000.mp4".
Proof.
  apply (batch_leaves_only_returned_outputs
           "tmp/videos/dQw4w9WgXcQ_1700000000000.mp4"
           [opening; middle; finale] "dQw4w9WgXcQ" losslessOriginal
           secondCropFails []).
  vm_compute. reflexivity.
Defined.

(** ** The crop lookup *)

Lemma append_assoc_string (a b c : string) :
  ((a ++ b) ++ c)%string = (a ++ (b ++ c))%string.
Proof.
  induction a as [|x a IH]; simpl; [reflexivity|]. rewrite IH. reflexivity.
Qed.

Lemma includes_prefix (s sub : string) :
  String.prefix sub s = true -> includes s sub = true.
Proof.
  intros H. destruct s as [|c s].
  - simpl in *. rewrite H. reflexivity.
  - change (includes (String c s) sub)
      with (String.prefix sub (String c s) || includes s sub).
    rewrite H. reflexivity.
Qed.

Lemma outputFileName_includes_key
    (videoId : string) (h : Crop.Highlight) (t : Z) (f : Crop.OutputFormat) :
  includes (Crop.outputFileName videoId h t f)
    (croppedKey videoId (Crop.id h)) = true.
Proof.
  apply includes_prefix. unfold Crop.outputFileName, croppedKey.
  replace (videoId ++ "_" ++ Crop.id h ++ "_" ++
           Crop.sanitizeFilename (Crop.title h) ++ "_" ++
           numToString t ++ "." ++ Crop.formatName f)%string
    with ((videoId ++ "_" ++ Crop.id h ++ "_") ++
          (Crop.sanitizeFilename (Crop.title h) ++ "_" ++
           numToString t ++ "." ++ Crop.formatName f))%string
    by (rewrite !append_assoc_string; reflexivity).
  apply prefix_append.
Qed.

Lemma find_last_only {A : Type} (p : A -> bool) (l : list A) (y : A) :
  (forall x, In x l -> p x = false) -> p y = true ->
  find p (l ++ [y]) = Some y.
Proof.
  intros Hnone Hy. induction l as [|x l IH]; simpl.
  - rewrite Hy. reflexivity.
  - rewrite (Hnone x (or_introl eq_refl)). apply IH.
    intros z Hz. apply Hnone. right. exact Hz.
Qed.

(** X16: a crop that succeeded is found by the next lookup, for a video
    id and a highlight id without a path separator (so that the output is
    a file of the output directory itself). Starting from an output
    directory in which no name contains [videoId_highlightId_], if the crop
    of a highlight resolves, then [hasCroppedFile] for the same video and
    highlight, asked less than four hours after the crop's clock reading,
    returns exactly the path the crop reported and changes nothing. *)
Theorem lookup_after_crop_returns_its_path
    (inputPath : string) (h : Crop.Highlight) (videoId : string)
    (options : Crop.CropOptions) (env : Crop.CropEnv) (fs : FS)
    (later : Z) (r : Crop.CropResult) :
  isPlain videoId = true ->
  isPlain (Crop.id h) = true ->
  (forall f, In f fs ->
     includes (name f) (croppedKey videoId (Crop.id h)) = false) ->
  settled (Crop.cropVideo inputPath h videoId options env fs) = Resolve r ->
  later - Crop.timestamp env < cropMaxFileAge ->
  isPlain (Crop.outputFileName videoId h (Crop.timestamp env)
             (Crop.outputFormatOf options)) = true /\
  hasCroppedFile later videoId (Crop.id h)
    (directory (Crop.cropVideo inputPath h videoId options env fs))
  = (Resolve (Some (Crop.outputPath r)),
     directory (Crop.cropVideo inputPath h videoId options env fs), []).
Proof.
  intros Hvideo Hid Hnone Hres Hyoung.
  split; [apply outputFileName_plain; assumption|].
  pose proof (cropVideo_files inputPath h videoId options env fs) as Hfiles.
  rewrite Hres in Hfiles. destruct Hfiles as (Hpath & _ & Hdir).
  rewrite Hdir, Hpath.
  set (out := Crop.outputFileName videoId h (Crop.timestamp env)
                (Crop.outputFormatOf options)) in *.
  assert (Hkey : includes out (croppedKey videoId (Crop.id h)) = true)
    by apply outputFileName_includes_key.
  assert (Habsent : existsSync fs out = false).
  { destruct (existsSync fs out) eqn:Hex; [|reflexivity].
    apply existsSync_In in Hex. destruct Hex as (f & Hin & Hname).
    rewrite <- Hname, (Hnone f Hin) in Hkey. discriminate Hkey. }
  unfold writeFile. rewrite Habsent. unfold hasCroppedFile.
  rewrite (find_last_only _ fs (mkFile out (Crop.timestamp env)) Hnone Hkey).
  simpl mtime. simpl name.
  apply Z.ltb_lt in Hyoung. rewrite Hyoung. reflexivity.
Qed.

Lemma lookup_after_crop_returns_its_path_witness :
  isPlain (Crop.outputFileName "dQw4w9WgXcQ" finale
             (Crop.timestamp (secondCropFails 2))
             (Crop.outputFormatOf losslessOriginal)) = true /\
  hasCroppedFile 1700000300000 "dQw4w9WgXcQ" "h3"
    (directory
       (Crop.cropVideo "tmp/videos/dQw4w9WgXcQ_1700000000000.mp4" finale
          "dQw4w9WgXcQ" losslessOriginal (secondCropFails 2)
          [mkFile "dQw4w9WgXcQ_h1_Cold_open_1700000000000.mp4"
             1700000000000]))
  = (Resolve
       (Some "tmp/highlights/dQw4w9WgXcQ_h3_Finale_1700000200000.mp4"),
     directory
       (Crop.cropVideo "tmp/videos/dQw4w9WgXcQ_1700000000000.mp4" finale
          "dQw4w9WgXcQ" losslessOriginal (secondCropFails 2)
          [mkFile "dQw4w9WgXcQ_h1_Cold_open_1700000000000.mp4"
             1700000000000]), []).
Proof.
  apply (lookup_after_crop_returns_its_path
           "tmp/videos/dQw4w9WgXcQ_1700000000000.mp4" finale "dQw4w9WgXcQ"
           losslessOriginal (secondCropFails 2)
           [mkFile "dQw4w9WgXcQ_h1_Cold_open_1700000000000.mp4"
              1700000000000]
           1700000300000
           (Crop.mkCropResult
              "tmp/highlights/dQw4w9WgXcQ_h3_Finale_1700000200000.mp4"
              1048576 20 "mp4")).
  - reflexivity.
  - reflexivity.
  - intros f [<-|[]]. vm_compute. reflexivity.
  - vm_compute. reflexivity.
  - vm_compute. reflexivity.
Defined.

(** ** [extractVideoId] *)

Lemma run_Times_S (n : nat) (r : Config.Re) (s : string)
    (cap : option string) (k : string -> option string -> option string) :
  Config.run (Config.Times (S n) r) s cap k =
  Config.run r s cap (fun s' cap' => Config.run (Config.Times n r) s' cap' k).
Proof. reflexivity. Qed.

(** A successful match has gone through its continuation. *)
Lemma run_reaches_continuation (r : Config.Re) :
  forall (s : string) (cap : option string)
         (k : string -> option string -> option string) (x : string),
    Config.run r s cap k = Some x ->
    exists s' cap', k s' cap' = Some x.
Proof.
  induction r as [l|p|r IH|r1 IH1 r2 IH2|n r IH|r IH]; intros s cap k x H.
  - simpl in H. destruct (Config.matchLit l s); [eauto|discriminate H].
  - simpl in H. destruct s as [|c s]; [discriminate H|].
    destruct (p c); [eauto|discriminate H].
  - simpl in H. destruct (Config.run r s cap k) eqn:Hr.
    + injection H as <-. eapply IH. exact Hr.
    + eauto.
  - simpl in H. destruct (IH1 _ _ _ _ H) as (s1 & cap1 & H1).
    eapply IH2. exact H1.
  - revert s cap H. induction n as [|n IHn]; intros s cap H.
    + simpl in H. eauto.
    + rewrite run_Times_S in H.
      destruct (IH _ _ _ _ H) as (s1 & cap1 & H1).
      eapply IHn. exact H1.
  - simpl in H. destruct (IH _ _ _ _ H) as (s1 & cap1 & H1). eauto.
Qed.

Lemma length_append_string (a b : string) :
  String.length (a ++ b)%string = (String.length a + String.length b)%nat.
Proof.
  induction a as [|c a IH]; simpl; [reflexivity|]. rewrite IH. reflexivity.
Qed.

Lemma substring_append_left (a b : string) :
  String.substring 0 (String.length a) (a ++ b)%string = a.
Proof.
  induction a as [|c a IH]; simpl.
  - destruct b; reflexivity.
  - rewrite IH. reflexivity.
Qed.

Lemma times_class_consumed (p : ascii -> bool) (n : nat) :
  forall (s : string) (cap : option string)
         (k : string -> option string -> option string) (x : string),
    Config.run (Config.Times n (Config.Class p)) s cap k = Some x ->
    exists pre s',
      s = (pre ++ s')%string /\ String.length pre = n /\
      allChars p pre = true /\ k s' cap = Some x.
Proof.
  induction n as [|n IH]; intros s cap k x H.
  - simpl in H. exists EmptyString, s. auto.
  - rewrite run_Times_S in H. simpl in H.
    destruct s as [|c s]; [discriminate H|].
    destruct (p c) eqn:Hc; [|discriminate H].
    destruct (IH _ _ _ _ H) as (pre & s' & -> & Hlen & Hall & Hk).
    exists (String c pre), s'. simpl. rewrite Hc, Hall, Hlen. auto.
Qed.

Lemma idGroup_captures (s : string) (cap : option string) (x : string) :
  Config.run Config.idGroup s cap (fun _ c => c) = Some x ->
  String.length x = 11%nat /\ allChars Config.idChar x = true.
Proof.
  unfold Config.idGroup. intros H.
  change (Config.run (Config.Times 11 (Config.Class Config.idChar)) s cap
            (fun s' _ =>
               Some (String.substring 0
                       (String.length s - String.length s') s)) = Some x)
    in H.
  destruct (times_class_consumed _ _ _ _ _ _ H)
    as (pre & s' & -> & Hlen & Hall & Hk).
  injection Hk as <-.
  rewrite length_append_string.
  replace (String.length pre + String.length s' - String.length s')%nat
    with (String.length pre) by lia.
  rewrite substring_append_left. auto.
Qed.

Lemma search_found (r : Config.Re) (s x : string) :
  Config.search r s = Some x ->
  exists s0, Config.run r s0 None (fun _ c => c) = Some x.
Proof.
  induction s as [|c s IH]; simpl; intros H.
  - destruct (Config.run r "" None (fun _ c => c)) eqn:Hr;
      [injection H as <-; eauto|discriminate H].
  - destruct (Config.run r (String c s) None (fun _ c => c)) eqn:Hr;
      [injection H as <-; eauto|auto].
Qed.

Lemma pattern_captures (pre : Config.Re) (s0 x : string) :
  Config.run (Config.Cat pre Config.idGroup) s0 None (fun _ c => c) = Some x ->
  String.length x = 11%nat /\ allChars Config.idChar x = true.
Proof.
  intros H.
  change (Config.run pre s0 None
            (fun s' cap' =>
               Config.run Config.idGroup s' cap' (fun _ c => c)) = Some x)
    in H.
  destruct (run_reaches_continuation _ _ _ _ _ H) as (s' & cap' & Hk).
  exact (idGroup_captures _ _ _ Hk).
Qed.

Lemma extractVideoId_shape (url id : string) :
  Config.extractVideoId url = Some id ->
  String.length id = 11%nat /\ allChars Config.idChar id = true.
Proof.
  unfold Config.extractVideoId, Config.patterns, Config.firstMatch.
  intros H.
  repeat match type of H with
    | match Config.search ?r url with _ => _ end = _ =>
        destruct (Config.search r url) as [y|] eqn:Hs;
        [injection H as ->; destruct (search_found _ _ _ Hs) as [s0 Hrun];
         clear Hs
        |clear Hs]
    end; try discriminate H.
  - change (Config.run
              (Config.Cat
                 (Config.Cat Config.scheme
                    (Config.Cat Config.www (Config.Lit "youtube.com/watch?v=")))
                 Config.idGroup) s0 None (fun _ c => c) = Some id) in Hrun.
    exact (pattern_captures _ _ _ Hrun).
  - change (Config.run
              (Config.Cat (Config.Cat Config.scheme (Config.Lit "youtu.be/"))
                 Config.idGroup) s0 None (fun _ c => c) = Some id) in Hrun.
    exact (pattern_captures _ _ _ Hrun).
  - change (Config.run
              (Config.Cat
                 (Config.Cat Config.scheme
                    (Config.Cat Config.www (Config.Lit "youtube.com/embed/")))
                 Config.idGroup) s0 None (fun _ c => c) = Some id) in Hrun.
    exact (pattern_captures _ _ _ Hrun).
  - change (Config.run
              (Config.Cat
                 (Config.Cat Config.scheme
                    (Config.Lit "m.youtube.com/watch?v="))
                 Config.idGroup) s0 None (fun _ c => c) = Some id) in Hrun.
    exact (pattern_captures _ _ _ Hrun).
Qed.

(** X17: every id [extractVideoId] returns has exactly 11 characters, each
    a letter, a digit, [_] or [-]. *)
Theorem extracted_id_has_eleven_id_characters (url id : string) :
  Config.extractVideoId url = Some id ->
  String.length id = 11%nat /\ allChars Config.idChar id = true.
Proof. apply extractVideoId_shape. Qed.

Lemma extracted_id_has_eleven_id_characters_witness :
  String.length "dQw4w9WgXcQ" = 11%nat /\
  allChars Config.idChar "dQw4w9WgXcQ" = true.
Proof.
  apply (extracted_id_has_eleven_id_characters
           "https://youtu.be/dQw4w9WgXcQ?t=42" "dQw4w9WgXcQ").
  vm_compute. reflexivity.
Defined.

Lemma run_Cat (r1 r2 : Config.Re) (s : string) (cap : option string)
    (k : string -> option string -> option string) :
  Config.run (Config.Cat r1 r2) s cap k =
  Config.run r1 s cap (fun s' cap' => Config.run r2 s' cap' k).
Proof. reflexivity. Qed.

Lemma matchLit_append (l s : string) :
  Config.matchLit l (l ++ s)%string = Some s.
Proof.
  induction l as [|c l IH]; simpl; [reflexivity|].
  rewrite Ascii.eqb_refl. exact IH.
Qed.

Lemma run_Lit_append (l s : string) (cap : option string)
    (k : string -> option string -> option string) :
  Config.run (Config.Lit l) (l ++ s)%string cap k = k s cap.
Proof. simpl. rewrite matchLit_append. reflexivity. Qed.

Lemma run_Opt_hit (r : Config.Re) (s : string) (cap : option string)
    (k : string -> option string -> option string) (x : string) :
  Config.run r s cap k = Some x ->
  Config.run (Config.Opt r) s cap k = Some x.
Proof. intros H. simpl. rewrite H. reflexivity. Qed.

Lemma times_class_match (p : ascii -> bool) (n : nat) :
  forall (pre s' : string) (cap : option string)
         (k : string -> option string -> option string),
    String.length pre = n -> allChars p pre = true ->
    Config.run (Config.Times n (Config.Class p)) (pre ++ s')%string cap k =
    k s' cap.
Proof.
  induction n as [|n IH]; intros pre s' cap k Hlen Hall.
  - destruct pre; [reflexivity|discriminate Hlen].
  - destruct pre as [|c pre]; [discriminate Hlen|].
    simpl in Hlen, Hall. injection Hlen as Hlen.
    apply andb_true_iff in Hall. destruct Hall as [Hc Hall].
    rewrite run_Times_S.
    change (Config.run (Config.Class p) (String c (pre ++ s')) cap
              (fun s0 cap' =>
                 Config.run (Config.Times n (Config.Class p)) s0 cap' k)
            = k s' cap).
    simpl. rewrite Hc. apply IH; assumption.
Qed.

Lemma idGroup_match (id rest : string) (cap : option string) :
  String.length id = 11%nat -> allChars Config.idChar id = true ->
  Config.run Config.idGroup (id ++ rest)%string cap (fun _ c => c) = Some id.
Proof.
  intros Hlen Hall. unfold Config.idGroup.
  change (Config.run (Config.Times 11 (Config.Class Config.idChar))
            (id ++ rest)%string cap
            (fun s' _ =>
               Some (String.substring 0
                       (String.length (id ++ rest) - String.length s')
                       (id ++ rest)%string)) = Some id).
  rewrite (times_class_match _ _ _ _ _ _ Hlen Hall).
  rewrite length_append_string.
  replace (String.length id + String.length rest - String.length rest)%nat
    with (String.length id) by lia.
  rewrite substring_append_left. reflexivity.
Qed.

Lemma search_hit (r : Config.Re) (s x : string) :
  Config.run r s None (fun _ c => c) = Some x -> Config.search r s = Some x.
Proof. intros H. destruct s; simpl; rewrite H; reflexivity. Qed.

(** X18: for every well-formed id (11 characters from the id alphabet) and
    whatever follows it, [extractVideoId] returns the id of an
    [https://www.youtube.com/watch?v=...] address unchanged. *)
Theorem watch_url_round_trip (id rest : string) :
  String.length id = 11%nat ->
  allChars Config.idChar id = true ->
  Config.extractVideoId
    ("https://www.youtube.com/watch?v=" ++ id ++ rest)%string = Some id.
Proof.
  intros Hlen Hall.
  unfold Config.extractVideoId, Config.patterns. cbn [Config.firstMatch].
  rewrite (search_hit _ _ id); [reflexivity|].
  change ("https://www.youtube.com/watch?v=" ++ id ++ rest)%string
    with ("http" ++ "s" ++ "://" ++ "www." ++ "youtube.com/watch?v=" ++
          id ++ rest)%string.
  unfold Config.scheme, Config.www.
  rewrite run_Cat. apply run_Opt_hit.
  rewrite run_Cat, run_Lit_append. cbv beta.
  rewrite run_Cat. apply run_Opt_hit.
  rewrite run_Lit_append. cbv beta.
  rewrite run_Lit_append. cbv beta.
  rewrite run_Cat. apply run_Opt_hit.
  rewrite run_Lit_append. cbv beta.
  rewrite run_Cat, run_Lit_append. cbv beta.
  apply idGroup_match; assumption.
Qed.

Lemma watch_url_round_trip_witness :
  Config.extractVideoId
    "https://www.youtube.com/watch?v=dQw4w9WgXcQ&t=30s" = Some "dQw4w9WgXcQ".
Proof.
  apply (watch_url_round_trip "dQw4w9WgXcQ" "&t=30s"); reflexivity.
Defined.

Lemma prefix_same_length (a : string) :
  forall b rest : string,
    String.prefix a (b ++ rest)%string = true ->
    String.length a = String.length b -> a = b.
Proof.
  induction a as [|c a IH]; intros b rest Hpre Hlen.
  - destruct b; [reflexivity|discriminate Hlen].
  - destruct b as [|d b]; [discriminate Hlen|].
    simpl in Hpre, Hlen. injection Hlen as Hlen.
    destruct (ascii_dec c d) as [->|Hne]; [|discriminate Hpre].
    f_equal. exact (IH b rest Hpre Hlen).
Qed.

(** X19: the lookup for one extracted id never takes a file of another.
    If [idA] and [idB] are ids [extractVideoId] returned and differ, then
    in a directory whose files are all named after [idB] (its output or
    its temporary stream files), the lookup for [idA] returns nothing and
    removes nothing. *)
Theorem lookup_does_not_cross_ids
    (urlA urlB idA idB : string) (now : Z) (fs : FS) :
  Config.extractVideoId urlA = Some idA ->
  Config.extractVideoId urlB = Some idB ->
  idA <> idB ->
  (forall f, In f fs -> exists rest, name f = (idB ++ rest)%string) ->
  hasVideoFile now idA fs = (Resolve None, fs, []).
Proof.
  intros HA HB Hne Hnames.
  destruct (extractVideoId_shape _ _ HA) as [HlenA _].
  destruct (extractVideoId_shape _ _ HB) as [HlenB _].
  unfold hasVideoFile.
  destruct (find (fun f => startsWith (name f) idA) fs) as [f|] eqn:Hfind;
    [|reflexivity].
  apply find_some in Hfind. destruct Hfind as [Hin Hstarts].
  destruct (Hnames f Hin) as [rest Hname].
  rewrite Hname in Hstarts. unfold startsWith in Hstarts.
  exfalso. apply Hne.
  apply (prefix_same_length idA idB rest Hstarts). congruence.
Qed.

Lemma lookup_does_not_cross_ids_witness :
  hasVideoFile 1700000001000 "dQw4w9WgXcQ"
    [mkFile "9bZkp7q19f0_video_1700000000000.mp4" 1700000000000;
     mkFile "9bZkp7q19f0_1699999990000.mp4" 1699999999000]
  = (Resolve None,
     [mkFile "9bZkp7q19f0_video_1700000000000.mp4" 1700000000000;
      mkFile "9bZkp7q19f0_1699999990000.mp4" 1699999999000], []).
Proof.
  apply (lookup_does_not_cross_ids
           "https://www.youtube.com/watch?v=dQw4w9WgXcQ"
           "https://youtu.be/9bZkp7q19f0" "dQw4w9WgXcQ" "9bZkp7q19f0").
  - vm_compute. reflexivity.
  - vm_compute. reflexivity.
  - discriminate.
  - intros f [<-|[<-|[]]]; eexists; reflexivity.
Defined.

(** ** The download route's checks *)

(** X20: the download route rejects every request whose highlight starts
    at second 0, however valid the address: the check [!startSeconds]
    takes 0 for a missing value. A request it accepts has a non-empty
    highlight id, non-zero start and end, and the video id extracted from
    its address; the order of start and end is not checked. *)
Theorem highlight_from_second_zero_is_rejected
    (url videoId : string) (h : Crop.Highlight) :
  Config.extractVideoId url = Some videoId ->
  (Crop.startSeconds h = 0 ->
   Route.validateDownloadRequest (Some url) (Some h)
   = Route.BadRequest "Invalid highlight data") /\
  (Crop.id h <> "" -> Crop.startSeconds h <> 0 -> Crop.endSeconds h <> 0 ->
   Route.validateDownloadRequest (Some url) (Some h)
   = Route.Accepted videoId).
Proof.
  intros Hid. unfold Route.validateDownloadRequest.
  assert (Hurl : Route.truthyString url = true).
  { destruct url; [vm_compute in Hid; discriminate Hid|reflexivity]. }
  rewrite Hurl, Hid. split.
  - intros ->. simpl. rewrite orb_true_r. reflexivity.
  - intros Hh Hs He. unfold Route.truthyString, truthyNum.
    apply String.eqb_neq in Hh. apply Z.eqb_neq in Hs, He.
    rewrite Hh, Hs, He. reflexivity.
Qed.

Lemma highlight_from_second_zero_is_rejected_witness :
  Route.validateDownloadRequest
    (Some "https://www.youtube.com/watch?v=dQw4w9WgXcQ")
    (Some (Crop.mkHighlight "h0" "Opening" 0 20))
  = Route.BadRequest "Invalid highlight data" /\
  Route.validateDownloadRequest
    (Some "https://www.youtube.com/watch?v=dQw4w9WgXcQ")
    (Some (Crop.mkHighlight "h9" "Backwards" 45 30))
  = Route.Accepted "dQw4w9WgXcQ".
Proof.
  split.
  - apply (highlight_from_second_zero_is_rejected
             "https://www.youtube.com/watch?v=dQw4w9WgXcQ" "dQw4w9WgXcQ"
             (Crop.mkHighlight "h0" "Opening" 0 20));
      [vm_compute|]; reflexivity.
  - apply (highlight_from_second_zero_is_rejected
             "https://www.youtube.com/watch?v=dQw4w9WgXcQ" "dQw4w9WgXcQ"
             (Crop.mkHighlight "h9" "Backwards" 45 30));
      [vm_compute; reflexivity|discriminate ..].
Defined.

(** ** What every crop command carries *)



(** ** The steps of a separate-stream acquisition *)

(** X22: a separate-stream acquisition goes through its steps strictly in
    order and stops at the first that fails. Its trace is one of four:
    empty (no video-only or no audio-only format to select); the video
    transfer alone, failed; the video transfer, then the audio transfer,
    failed; or both transfers, finished, followed by the merge. It resolves
    only in the last case and only when the merge ended well, and then
    with the path of the output file. *)
Theorem separate_acquisition_steps
    (videoId : string) (formats : list videoFormat) (outputName : string)
    (env : SeparateEnv) (fs : FS) :
  let x := downloadAndMergeStreams videoId formats outputName env fs in
  let tv := tempVideoName videoId (tVideo env) in
  let ta := tempAudioName videoId (tAudio env) in
  (trace x = [] /\ exists msg, settled x = Reject msg) \/
  (exists iv,
     trace x = [EvDownloadStart tv iv; EvDownloadEnd tv false] /\
     exists msg, settled x = Reject msg) \/
  (exists iv ia,
     trace x = [EvDownloadStart tv iv; EvDownloadEnd tv true;
                EvDownloadStart ta ia; EvDownloadEnd ta false] /\
     exists msg, settled x = Reject msg) \/
  (exists iv ia ok,
     trace x = [EvDownloadStart tv iv; EvDownloadEnd tv true;
                EvDownloadStart ta ia; EvDownloadEnd ta true;
                EvMergeStart tv ta outputName; EvMergeEnd ok] /\
     if ok then settled x = Resolve (pathJoin tempDir outputName)
     else exists msg, settled x = Reject msg).
Proof.
  cbv zeta.
  unfold downloadAndMergeStreams, pendingOpens, tryFinally, trace, settled.
  destruct (bestVideoFormat formats) as [bv|].
  2:{ left. unfold throw, bind, cleanupFile, ret. break_ifs; eauto. }
  destruct (bestAudioFormat formats) as [ba|].
  2:{ left. unfold throw, bind, cleanupFile, ret. break_ifs; eauto. }
  unfold downloadStream, createWriteStream, pendingOpen,
    mergeStreamsWithFFmpeg, leaveOutput, bind, emit, modify, throw, ret,
    cleanupFile.
  destruct (videoOutcome env).
  2,3,4,5: right; left; exists (itag bv); break_ifs; eauto.
  destruct (audioOutcome env).
  2,3,4,5: right; right; left; exists (itag bv), (itag ba); break_ifs; eauto.
  right; right; right. exists (itag bv), (itag ba).
  destruct (mergeOutcome env) as [code wrote|msg|wrote].
  - destruct (code =? 0) eqn:Hcode.
    + exists true. rewrite ?Hcode. break_ifs; try discriminate; eauto.
    + exists false. rewrite ?Hcode. break_ifs; try discriminate; eauto.
  - exists false. break_ifs; eauto.
  - exists false. break_ifs; eauto.
Qed.
